(** * wiki-saikou-go / mwapi: the request and session engine

    A shallow embedding of the Go package [mwapi] (params.go, client.go,
    tokens.go, auth.go, errors.go, types.go) and the properties of its
    parameter normalizer, request transport, token cache, token-retry
    orchestrator and login / relogin-and-replay state machine.

    Conventions.
    - Go maps ([url.Values], [map[string]any], the token cache) are stdpp
      [gmap]s; a Go map read of an absent key gives the zero value, written
      [default "" (m !! k)].
    - Go's [(T, error)] results are pairs whose error component is an
      [option]; [nil] is [None].
    - The methods of [*Client] run in a state monad over the client, the
      heap of caller-owned parameter maps, the remote server and a history.
    - What the standard library does to bytes (JSON decoding, Unicode case
      folding) is taken as a parameter of the development. *)

From Stdlib Require Import ZArith Ascii String List Bool Lia.
From stdpp Require Import base option strings list gmap fin_maps pretty.

Open Scope Z_scope.
Open Scope string_scope.

(** ** types.go *)

Definition TokenType := string.
Definition TokenCSRF : TokenType := "csrf".
Definition TokenLogin : TokenType := "login".

Record MWError := {
  Code : string;
  Info : string;
  Text : string
}.

(** The envelope fields the engine inspects.  [Warnings] and [Continue] are
    decoded and carried to the caller but never read by the engine; they are
    left out. *)
Record Envelope := {
  Error : option MWError;
  Errors : list MWError
}.

(** [strings.ToLower] restricted to ASCII: the letters A-Z move to a-z and
    every other byte stays. *)
Definition lowerAscii (a : ascii) : ascii :=
  let n := nat_of_ascii a in
  if (65 <=? n)%nat && (n <=? 90)%nat then ascii_of_nat (n + 32) else a.

Fixpoint asciiLower (s : string) : string :=
  match s with
  | EmptyString => EmptyString
  | String a rest => String (lowerAscii a) (asciiLower rest)
  end.

Fixpoint isASCII (s : string) : bool :=
  match s with
  | EmptyString => true
  | String a rest => (nat_of_ascii a <? 128)%nat && isASCII rest
  end.

(** The bytes of a response body ([json.RawMessage]) and the one string
    function of the standard library whose result depends on Unicode tables
    ([strings.ToLower]); on a string of ASCII bytes it is [asciiLower]. *)
Class Wire := {
  Raw : Type;
  ToLower : string -> string;
  ToLower_ascii : forall s, isASCII s = true -> ToLower s = asciiLower s
}.

Section Types.
Context `{Wire}.

Record Response := {
  StatusCode : Z;
  Header : list (string * string);
  Env : Envelope;
  RawBody : Raw
}.

(** ** errors.go *)

Record MediaWikiApiError := {
  ECode : string;
  EMessage : string;
  EHTTPStatus : Z;
  EErrors : list MWError;
  EResponse : option Response
}.

(** Go error values, as the package builds and inspects them.
    [Errorf] is [fmt.Errorf] without [%w] (its formatted text),
    [Wrapf prefix e] is [fmt.Errorf(prefix + ": %w", e)],
    [Joined a b] is [errors.Join(a, b)] of two non-nil errors,
    [TransportError canceled msg] is what [http.Client.Do] or reading the
    body returns ([canceled] when the caller's context was canceled or its
    deadline passed),
    [ExternalError] is an error of a library called on caller data
    (go-querystring, [json.Unmarshal], an attachment's reader). *)
Inductive error :=
| ApiError (e : MediaWikiApiError)
| TransportError (canceled : bool) (msg : string)
| ExternalError (msg : string)
| Errorf (msg : string)
| Wrapf (prefix : string) (inner : error)
| Joined (a b : error).

(** [errors.As(err, &e)] for a target of type [*MediaWikiApiError]: the
    error itself, else what it wraps, depth-first through joins. *)
Fixpoint IsMediaWikiApiError (err : error) : option MediaWikiApiError :=
  match err with
  | ApiError e => Some e
  | Wrapf _ inner => IsMediaWikiApiError inner
  | Joined a b =>
      match IsMediaWikiApiError a with
      | Some e => Some e
      | None => IsMediaWikiApiError b
      end
  | TransportError _ _ | ExternalError _ | Errorf _ => None
  end.

Definition isTokenErrorCode (code : string) : bool :=
  let c := ToLower code in
  bool_decide (c = "badtoken") || bool_decide (c = "notoken")
  || bool_decide (c = "needtoken") || bool_decide (c = "wrongtoken").

Definition isAssertUserFailedCode (code : string) : bool :=
  let c := ToLower code in
  bool_decide (c = "assertuserfailed") || bool_decide (c = "assertnameduserfailed").

(** A Go result [(T, error)] of a function that returns a zero [T] with
    every error. *)
Inductive res (A : Type) :=
| Ok (a : A)
| Err (e : error).

End Types.

Arguments Ok {_ _} a.
Arguments Err {_ _} e.

(** ** params.go *)

(** [url.Values]: a key maps to a list of values. *)
Abbreviation url_Values := (gmap string (list string)).

Definition Values_Get (v : url_Values) (key : string) : string :=
  match v !! key with
  | Some (x :: _) => x
  | _ => ""
  end.

Definition Values_Set (v : url_Values) (key value : string) : url_Values :=
  <[key := [value]]> v.

Definition Values_Add (v : url_Values) (key value : string) : url_Values :=
  <[key := (default [] (v !! key) ++ [value])%list]> v.

Definition Values_Del (v : url_Values) (key : string) : url_Values :=
  delete key v.

(** [strings.Join]. *)
Definition Join (elems : list string) (sep : string) : string :=
  String.concat sep elems.

(** An [io.Reader] handed over as an attachment.  Only whether copying it
    fails is kept; the bytes it yields are not tracked. *)
Record Reader := {
  readErr : option string
}.

Record File := {
  Filename : string;
  ContentType : string;
  FReader : Reader
}.

Record fileField := {
  Field : string;
  FFile : File
}.

Record normalizedParams := {
  Values : url_Values;
  Files : list fileField
}.

(** A value of a [map[string]any], by the case of [addAny]'s type switch
    that takes it (the first that matches).  Where the case formats the
    value with a library routine whose output is not modelled
    ([fmt.Sprint], [String()], [strconv.FormatFloat]), the constructor
    carries that output. *)
Inductive anyval :=
| VNil                                   (* nil interface *)
| VString (x : string)                   (* string *)
| VBytes (x : string)                    (* []byte *)
| VFile (x : File)                       (* File *)
| VFilePtr (x : option File)             (* *File, possibly nil *)
| VReader (osName : option string) (x : Reader)
      (* io.Reader; [osName] is [Name()] when it is a non-nil *os.File *)
| VBool (x : bool)                       (* bool *)
| VStrings (x : list string)             (* []string *)
| VAnys (x : list (option string))
      (* []any: [None] a nil element, [Some s] one printed as [s] *)
| VStringer (str : string)               (* fmt.Stringer, [String()] = str *)
| VInt (x : Z)                           (* int *)
| VInt64 (x : Z)                         (* int64 *)
| VFloat64 (fmt : string)                (* float64, formatted 'f', -1 *)
| VKindInt (x : Z)                       (* other signed integer kinds *)
| VKindUint (x : Z)                      (* unsigned integer kinds *)
| VKindFloat (fmt : string)              (* other float kinds *)
| VKindSlice (parts : list string)       (* other slices and arrays, printed *)
| VOther (printed : string).             (* anything else, [fmt.Sprint] *)

Definition setValue (np : normalizedParams) (key value : string) : normalizedParams :=
  {| Values := Values_Set (Values np) key value; Files := Files np |}.

Definition appendFile (np : normalizedParams) (f : fileField) : normalizedParams :=
  {| Values := Values np; Files := (Files np ++ [f])%list |}.

(** [addAny].  Every branch of the source returns a nil error, so the model
    returns the updated parameters only. *)
Definition addAny (np : normalizedParams) (key : string) (val : anyval) : normalizedParams :=
  match val with
  | VNil => np
  | VString x => setValue np key x
  | VBytes _ =>
      appendFile np {| Field := key;
                       FFile := {| Filename := key; ContentType := "";
                                   FReader := {| readErr := None |} |} |}
  | VFile x => appendFile np {| Field := key; FFile := x |}
  | VFilePtr None => np
  | VFilePtr (Some x) => appendFile np {| Field := key; FFile := x |}
  | VReader osName x =>
      let filename :=
        match osName with
        | Some name => if bool_decide (name = "") then key else name
        | None => key
        end in
      appendFile np {| Field := key;
                       FFile := {| Filename := filename; ContentType := "";
                                   FReader := x |} |}
  | VBool x => if x then setValue np key "1" else np
  | VStrings x =>
      match x with
      | [] => np
      | _ => setValue np key (Join x "|")
      end
  | VAnys x =>
      match x with
      | [] => np
      | _ =>
          let parts := omap id x in
          match parts with
          | [] => np
          | _ => setValue np key (Join parts "|")
          end
      end
  | VStringer str => setValue np key str
  | VInt x => setValue np key (pretty x)
  | VInt64 x => setValue np key (pretty x)
  | VFloat64 s => setValue np key s
  | VKindInt x => setValue np key (pretty x)
  | VKindUint x => setValue np key (pretty x)
  | VKindFloat s => setValue np key s
  | VKindSlice parts =>
      match parts with
      | [] => np
      | _ => setValue np key (Join parts "|")
      end
  | VOther printed => setValue np key printed
  end.

Definition setDefaultIfMissing (v : url_Values) (key value : string) : url_Values :=
  if bool_decide (Values_Get v key = "") then Values_Set v key value else v.

Section Params.
Context `{Wire}.

(** The argument [p any] of [normalizeParams], by the case of its type
    switch.  [PStruct r] is a struct or a non-nil pointer to one, with [r]
    the result of go-querystring's [query.Values(p)]. *)
Inductive Params :=
| PNil
| PValues (v : url_Values)
| PMapString (v : gmap string string)
| PMapAny (v : gmap string anyval)
| PNilPtr
| PStruct (r : res url_Values)
| POther (typeName : string).

Definition joinValues (k : string) (vs : list string) (acc : url_Values) : url_Values :=
  match vs with
  | [] => acc
  | _ => Values_Set acc k (Join vs "|")
  end.

Definition emptyParams : normalizedParams := {| Values := ∅; Files := [] |}.

(** The type switch of [normalizeParams]: the fields and attachments before
    the defaults are applied.  A [range] over a Go map visits the entries in
    an unspecified order; here it is the order of [map_fold]. *)
Definition encodeParams (p : Params) : res normalizedParams :=
  match p with
  | PNil => Ok emptyParams
  | PValues v =>
      Ok {| Values := map_fold joinValues ∅ v; Files := [] |}
  | PMapString v =>
      Ok {| Values := map_fold (fun k val acc => Values_Set acc k val) ∅ v; Files := [] |}
  | PMapAny v =>
      Ok (map_fold (fun k val np => addAny np k val) emptyParams v)
  | PNilPtr => Ok emptyParams
  | PStruct r =>
      match r with
      | Err e => Err e
      | Ok values => Ok {| Values := map_fold joinValues ∅ values; Files := [] |}
      end
  | POther typeName => Err (Errorf ("unsupported params type: " +:+ typeName))
  end.

Definition applyDefaults (v : url_Values) : url_Values :=
  let v := setDefaultIfMissing v "action" "query" in
  let v := setDefaultIfMissing v "format" "json" in
  let v := setDefaultIfMissing v "formatversion" "2" in
  setDefaultIfMissing v "errorformat" "plaintext".

Definition normalizeParams (p : Params) : res normalizedParams :=
  match encodeParams p with
  | Err e => Err e
  | Ok np => Ok {| Values := applyDefaults (Values np); Files := Files np |}
  end.

End Params.

(** ** client.go: the client and the requests it builds *)

(** The parsed endpoint ([*url.URL]); [UQuery] is [endpoint.Query()], the
    query string the endpoint was configured with. *)
Record URL := {
  Scheme : string;
  Host : string;
  Path : string;
  UQuery : url_Values
}.

(** The fields of [Client] the engine reads and writes.  The mutex, the
    singleflight group and the [http.Client] with its cookie jar belong to
    the runtime: the transport is the [serve] function of [Network]. *)
Record Client := {
  endpoint : URL;
  ua : string;
  throwOnApiError : bool;
  keepLogin : bool;
  reloginRetry : Z;
  tokenRetry : Z;
  tokens : gmap TokenType string;
  loggedInUser : string;
  loginUser : string;
  loginPass : string
}.

(** [strings.HasSuffix]. *)
Definition HasSuffix (s suffix : string) : bool :=
  (String.length suffix <=? String.length s)%nat
  && bool_decide (substring (String.length s - String.length suffix)
                            (String.length suffix) s = suffix).

Definition Option : Type := Client -> Client.

Definition WithUserAgent (v : string) : Option :=
  fun c =>
    if negb (bool_decide (v = "")) then
      {| endpoint := endpoint c; ua := v; throwOnApiError := throwOnApiError c;
         keepLogin := keepLogin c; reloginRetry := reloginRetry c;
         tokenRetry := tokenRetry c; tokens := tokens c;
         loggedInUser := loggedInUser c; loginUser := loginUser c;
         loginPass := loginPass c |}
    else c.

Definition WithThrowOnApiError (v : bool) : Option :=
  fun c =>
    {| endpoint := endpoint c; ua := ua c; throwOnApiError := v;
       keepLogin := keepLogin c; reloginRetry := reloginRetry c;
       tokenRetry := tokenRetry c; tokens := tokens c;
       loggedInUser := loggedInUser c; loginUser := loginUser c;
       loginPass := loginPass c |}.

Definition WithKeepLogin (v : bool) : Option :=
  fun c =>
    {| endpoint := endpoint c; ua := ua c; throwOnApiError := throwOnApiError c;
       keepLogin := v; reloginRetry := reloginRetry c;
       tokenRetry := tokenRetry c; tokens := tokens c;
       loggedInUser := loggedInUser c; loginUser := loginUser c;
       loginPass := loginPass c |}.

Definition WithReloginRetry (n : Z) : Option :=
  fun c =>
    if (0 <=? n)%Z then
      {| endpoint := endpoint c; ua := ua c; throwOnApiError := throwOnApiError c;
         keepLogin := keepLogin c; reloginRetry := n;
         tokenRetry := tokenRetry c; tokens := tokens c;
         loggedInUser := loggedInUser c; loginUser := loginUser c;
         loginPass := loginPass c |}
    else c.

Definition WithTokenRetry (n : Z) : Option :=
  fun c =>
    if (0 <? n)%Z then
      {| endpoint := endpoint c; ua := ua c; throwOnApiError := throwOnApiError c;
         keepLogin := keepLogin c; reloginRetry := reloginRetry c;
         tokenRetry := n; tokens := tokens c;
         loggedInUser := loggedInUser c; loginUser := loginUser c;
         loginPass := loginPass c |}
    else c.

Section Construct.
Context `{Wire}.

(** [NewClient].  [parsed] is the result of [url.Parse(endpoint)]; a nil
    option is [None].  The options that configure the [http.Client]
    (WithHTTPClient, WithTransport, WithTimeout) act on the transport only.
    The error texts quote the offending string with [%q]; the quoting is
    left out. *)
Definition NewClient (parsed : res URL) (endpointText : string)
    (opts : list (option Option)) : res Client :=
  match parsed with
  | Err e => Err e
  | Ok u =>
      if bool_decide (Scheme u = "") || bool_decide (Host u = "") then
        Err (Errorf ("invalid endpoint URL (expect full URL): " +:+ endpointText))
      else if negb (HasSuffix (Path u) "api.php") then
        Err (Errorf ("invalid endpoint path (expect .../api.php): " +:+ Path u))
      else
        let c := {| endpoint := u; ua := "mwapi-go/0.1"; throwOnApiError := false;
                    keepLogin := true; reloginRetry := 3; tokenRetry := 3;
                    tokens := ∅; loggedInUser := ""; loginUser := "";
                    loginPass := "" |} in
        Ok (foldl (fun c opt => match opt with
                                | Some f => f c
                                | None => c
                                end) c opts)
  end.

End Construct.

Definition MethodGet : string := "GET".
Definition MethodPost : string := "POST".

(** The body of an outgoing request: none, the urlencoded fields, or a
    multipart form with its fields and, for each file part, the field name
    and the file name. *)
Inductive Body :=
| NoBody
| FormBody (fields : url_Values)
| MultipartBody (fields : list (string * string)) (files : list (string * string)).

Record HttpRequest := {
  ReqMethod : string;
  ReqQuery : url_Values;
  ReqBody : Body;
  ReqContentType : string;
  ReqUserAgent : string
}.

Definition mergeQuery (base overlay : url_Values) (omitKeys : option (gset string)) : url_Values :=
  let omitted k :=
    match omitKeys with
    | Some ks => bool_decide (k ∈ ks)
    | None => false
    end in
  let out :=
    map_fold (fun k vs out =>
                if omitted k then out
                else foldl (fun out v => Values_Add out k v) out vs) ∅ base in
  map_fold (fun k vs out =>
              if omitted k then out
              else match vs with
                   | v :: _ => Values_Set out k v
                   | [] => out
                   end) out overlay.

(** The form fields of a multipart body: the first value of every key that
    has one. *)
Definition multipartFields (v : url_Values) : list (string * string) :=
  omap (fun kv => match kv.2 with
                  | [] => None
                  | x :: _ => Some (kv.1, x)
                  end) (map_to_list v).

Section Transport.
Context `{Wire}.

(** The file parts of a multipart body; copying a reader that fails aborts
    the construction. *)
Fixpoint multipartFiles (fs : list fileField) : res (list (string * string)) :=
  match fs with
  | [] => Ok []
  | f :: rest =>
      let filename :=
        if bool_decide (Filename (FFile f) = "") then Field f else Filename (FFile f) in
      match readErr (FReader (FFile f)) with
      | Some msg => Err (ExternalError msg)
      | None =>
          match multipartFiles rest with
          | Ok parts => Ok ((Field f, filename) :: parts)
          | Err e => Err e
          end
      end
  end.

(** [buildRequest].  [http.NewRequestWithContext] does not fail on the two
    methods and the validated endpoint the client passes, and writing to the
    in-memory multipart buffer does not fail. *)
Definition buildRequest (c : Client) (method : string) (np : normalizedParams) : res HttpRequest :=
  let baseQuery := UQuery (endpoint c) in
  if bool_decide (method = MethodGet) then
    Ok {| ReqMethod := method;
          ReqQuery := mergeQuery baseQuery (Values np) None;
          ReqBody := NoBody;
          ReqContentType := "";
          ReqUserAgent := ua c |}
  else
    (* POST: body wins if the same key exists in endpoint query. *)
    let baseQuery := map_fold (fun k _ q => Values_Del q k) baseQuery (Values np) in
    match Files np with
    | [] =>
        Ok {| ReqMethod := MethodPost;
              ReqQuery := baseQuery;
              ReqBody := FormBody (Values np);
              ReqContentType := "application/x-www-form-urlencoded";
              ReqUserAgent := ua c |}
    | _ =>
        match multipartFiles (Files np) with
        | Err e => Err e
        | Ok parts =>
            Ok {| ReqMethod := MethodPost;
                  ReqQuery := baseQuery;
                  ReqBody := MultipartBody (multipartFields (Values np)) parts;
                  ReqContentType := "multipart/form-data";
                  ReqUserAgent := ua c |}
        end
    end.

Fixpoint firstNonEmpty (ss : list string) : string :=
  match ss with
  | [] => ""
  | s :: rest => if bool_decide (s = "") then firstNonEmpty rest else s
  end.

Definition responseApiError (r : Response) : option MediaWikiApiError :=
  match Error (Env r), Errors (Env r) with
  | None, [] => None
  | _, _ =>
      let '(code, msg, errs) :=
        match Error (Env r) with
        | Some e => (Code e, firstNonEmpty [Info e; Text e], [e])
        | None => ("", "", [])
        end in
      let '(code, msg, errs) :=
        match Errors (Env r) with
        | e0 :: _ =>
            (if bool_decide (code = "") then Code e0 else code,
             if bool_decide (msg = "") then firstNonEmpty [Info e0; Text e0] else msg,
             (errs ++ Errors (Env r))%list)
        | [] => (code, msg, errs)
        end in
      let msg := if bool_decide (msg = "") then "MediaWiki API error" else msg in
      Some {| ECode := code; EMessage := msg; EHTTPStatus := StatusCode r;
              EErrors := errs; EResponse := Some r |}
  end.

(** tokens.go *)
Definition responseErrorCode (resp : option Response) : string :=
  match resp with
  | None => ""
  | Some r =>
      match Error (Env r) with
      | Some e => Code e
      | None =>
          match Errors (Env r) with
          | e0 :: _ => Code e0
          | [] => ""
          end
      end
  end.

End Transport.

(** ** The environment: decoding and the network *)

Record LoginResult := {
  Result : string;
  LgUserID : Z;
  LgName : string;
  Reason : string
}.

(** [json.Unmarshal] of a body into the three shapes the engine decodes:
    the envelope (best effort, the error is dropped), the anonymous struct
    of [extractToken] (its [Query.Tokens] map) and the one of [Login] (its
    [Login] field). *)
Class Codec `{Wire} := {
  unmarshalEnvelope : Raw -> Envelope;
  unmarshalTokens : Raw -> res (gmap string string);
  unmarshalLogin : Raw -> res LoginResult
}.

Section Net.
Context `{Wire}.

(** What [c.hc.Do(req)] followed by reading the body gives: a transport
    failure, or status, headers and body. *)
Inductive NetResult :=
| NetErr (canceled : bool) (msg : string)
| NetReply (status : Z) (header : list (string * string)) (body : Raw).

End Net.

(** The remote side, cookies included: a state machine that answers every
    request the client sends, in the order it sends them. *)
Class Network `{Wire} := {
  Srv : Type;
  serve : Srv -> HttpRequest -> Srv * NetResult
}.

(** ** The engine *)

Section Engine.
Context `{Wire} `{!Codec} `{!Network}.

(** A Go result of type (pointer to Response, error). *)
Definition RespErr : Type := option Response * option error.

(** The history of a run.  [EvHttp] is a request that went out and what
    came back.  The other three are bookkeeping the code does not keep: the
    result of a write attempt of [PostWithToken], of a [Login] and of a
    [Relogin], recorded when the call returns. *)
Inductive Event :=
| EvHttp (req : HttpRequest) (r : NetResult)
| EvAttempt (r : RespErr)
| EvLogin (user pass : string) (r : option LoginResult * option error)
| EvRelogin (err : option error).

(** The state a call runs in: the client, the [map[string]any] values the
    caller and the engine hold by reference, the remote side, the history. *)
Record World := {
  client : Client;
  heap : gmap positive (gmap string anyval);
  server : Srv;
  history : list Event
}.

(** A call either returns, panics (a nil dereference) or, in the model,
    runs out of the fuel that bounds the nesting of [do]. *)
Inductive Run (A : Type) :=
| Done (a : A) (w : World)
| Panicked
| OutOfFuel.

Arguments Done {_} a w.
Arguments Panicked {_}.
Arguments OutOfFuel {_}.

Definition M (A : Type) : Type := World -> Run A.

Definition ret {A} (a : A) : M A := fun w => Done a w.

Definition bind {A B} (m : M A) (k : A -> M B) : M B :=
  fun w =>
    match m w with
    | Done a w' => k a w'
    | Panicked => Panicked
    | OutOfFuel => OutOfFuel
    end.

Notation "'let*' x := m 'in' k" := (bind m (fun x => k))
  (at level 10, x pattern, m at level 100, k at level 200).
Notation "m ;;; k" := (bind m (fun _ => k))
  (at level 100, right associativity).

Definition panic {A} : M A := fun _ => Panicked.

Definition getClient : M Client := fun w => Done (client w) w.

Definition updClient (f : Client -> Client) : M unit :=
  fun w => Done tt {| client := f (client w); heap := heap w;
                      server := server w; history := history w |}.

Definition logEvent (e : Event) : M unit :=
  fun w => Done tt {| client := client w; heap := heap w;
                      server := server w; history := (history w ++ [e])%list |}.

Definition setTokens (t : gmap TokenType string) (c : Client) : Client :=
  {| endpoint := endpoint c; ua := ua c; throwOnApiError := throwOnApiError c;
     keepLogin := keepLogin c; reloginRetry := reloginRetry c;
     tokenRetry := tokenRetry c; tokens := t;
     loggedInUser := loggedInUser c; loginUser := loginUser c;
     loginPass := loginPass c |}.

Definition setLogin (user pass name : string) (c : Client) : Client :=
  {| endpoint := endpoint c; ua := ua c; throwOnApiError := throwOnApiError c;
     keepLogin := keepLogin c; reloginRetry := reloginRetry c;
     tokenRetry := tokenRetry c; tokens := tokens c;
     loggedInUser := name; loginUser := user; loginPass := pass |}.

(** [c.hc.Do(req)] and the read of the body. *)
Definition roundTrip (req : HttpRequest) : M NetResult :=
  fun w =>
    let '(s, r) := serve (server w) req in
    Done r {| client := client w; heap := heap w; server := s;
              history := (history w ++ [EvHttp req r])%list |}.

Definition doOnce (method : string) (np : normalizedParams) : M RespErr :=
  let* c := getClient in
  match buildRequest c method np with
  | Err e => ret (None, Some e)
  | Ok req =>
      let* r := roundTrip req in
      match r with
      | NetErr canceled msg => ret (None, Some (TransportError canceled msg))
      | NetReply status header body =>
          let resp := {| StatusCode := status; Header := header;
                         Env := unmarshalEnvelope body; RawBody := body |} in
          if throwOnApiError c then
            match responseApiError resp with
            | Some apiErr => ret (Some resp, Some (ApiError apiErr))
            | None => ret (Some resp, None)
            end
          else ret (Some resp, None)
      end
  end.

Record doOptions := {
  skipAssert : bool;
  skipRelogin : bool
}.

Definition noOptions : doOptions := {| skipAssert := false; skipRelogin := false |}.

(** [strings.Contains]. *)
Definition Contains (s substr : string) : bool :=
  bool_decide (is_Some (String.index 0 substr s)).

(** Keep-login in [do]: whether the identity assertion is left out. *)
Definition shouldSkipAssert (opt : doOptions) (v : url_Values) : bool :=
  let action := ToLower (Values_Get v "action") in
  let meta := ToLower (Values_Get v "meta") in
  let typ := ToLower (Values_Get v "type") in
  let skip := skipAssert opt in
  let skip := if bool_decide (action = "login") then true else skip in
  if bool_decide (action = "query") && bool_decide (meta = "tokens") && Contains typ "login"
  then true else skip.

(** Keep-login in [do]: the parameters after the injection step. *)
Definition injectAssert (c : Client) (opt : doOptions) (np : normalizedParams) : normalizedParams :=
  if keepLogin c && negb (shouldSkipAssert opt (Values np)) then
    let user := loggedInUser c in
    if negb (bool_decide (user = "")) && bool_decide (Values_Get (Values np) "assertuser" = "")
    then setValue np "assertuser" user
    else np
  else np.

Definition assertError (code : string) (r : Response) : error :=
  ApiError {| ECode := code; EMessage := "assertuser failed";
              EHTTPStatus := StatusCode r; EErrors := []; EResponse := Some r |}.

(** *** tokens.go *)

Definition InvalidateToken (tokenType : TokenType) : M unit :=
  updClient (fun c => setTokens (delete tokenType (tokens c)) c).

Definition InvalidateAllTokens : M unit :=
  updClient (setTokens ∅).

Definition extractToken (raw : Raw) (tokenType : TokenType) : res string :=
  match unmarshalTokens raw with
  | Err e => Err e
  | Ok toks =>
      let key := ToLower tokenType +:+ "token" in
      let tok := default "" (toks !! key) in
      if bool_decide (tok = "") then Err (Errorf ("missing " +:+ tokenType +:+ " token"))
      else Ok tok
  end.

Definition tokenRequest (tokenType : TokenType) : Params :=
  PMapAny {[ "action" := VString "query";
             "meta" := VString "tokens";
             "type" := VString tokenType ]}.

Section Methods.
(** The methods call one another through the receiver; each body below takes
    the methods it calls as section variables, and [do] closes the cycle. *)
Variable Post : Params -> M RespErr.

(** [GetToken].  [singleflight.Group.Do] runs the function it is given; run
    by one caller at a time it adds nothing, and the function's own second
    look at the cache is kept. *)
Definition GetTokenF (tokenType : TokenType) : M (string * option error) :=
  let* c := getClient in
  let tok := default "" (tokens c !! tokenType) in
  if negb (bool_decide (tok = "")) then ret (tok, None)
  else
    let* c := getClient in
    let tok := default "" (tokens c !! tokenType) in
    if negb (bool_decide (tok = "")) then ret (tok, None)
    else
      let* (resp, err) := Post (tokenRequest tokenType) in
      match err with
      | Some e => ret ("", Some e)
      | None =>
          match resp with
          | None => panic
          | Some r =>
              match extractToken (RawBody r) tokenType with
              | Err e => ret ("", Some e)
              | Ok tok =>
                  updClient (fun c => setTokens (<[tokenType := tok]> (tokens c)) c) ;;;
                  ret (tok, None)
              end
          end
      end.

Definition isTokenError (err : error) : bool :=
  match IsMediaWikiApiError err with
  | Some e => isTokenErrorCode (ECode e)
  | None => false
  end.

(** *** auth.go *)

Definition loginRequest (user pass tok : string) : Params :=
  PMapAny {[ "action" := VString "login";
             "lgname" := VString user;
             "lgpassword" := VString pass;
             "lgtoken" := VString tok ]}.

Definition exhausted (what : string) (lastErr : option error) : error :=
  Wrapf what (match lastErr with
              | None => Errorf what
              | Some e => e
              end).

(** The loop of [Login], with [n] the attempts left. *)
Fixpoint LoginLoop (n : nat) (lastErr : option error) (user pass : string)
  : M (option LoginResult * option error) :=
  match n with
  | O => ret (None, Some (exhausted "login retry exhausted" lastErr))
  | S n' =>
      (* Login token is sensitive to session state; avoid reusing cached one. *)
      InvalidateToken TokenLogin ;;;
      let* (tok, err) := GetTokenF TokenLogin in
      match err with
      | Some e => ret (None, Some e)
      | None =>
          let* (resp, err) := Post (loginRequest user pass tok) in
          match err with
          | Some e =>
              if isTokenError e then LoginLoop n' (Some e) user pass
              else ret (None, Some e)
          | None =>
              match resp with
              | None => panic
              | Some r =>
                  match unmarshalLogin (RawBody r) with
                  | Err e => ret (None, Some e)
                  | Ok out =>
                      let result := ToLower (Result out) in
                      if bool_decide (result = "success") then
                        updClient (setLogin user pass (LgName out)) ;;;
                        (* Session changed; invalidate all tokens. *)
                        InvalidateAllTokens ;;;
                        ret (Some out, None)
                      else if bool_decide (result = "needtoken")
                              || bool_decide (result = "wrongtoken") then
                        LoginLoop n' (Some (Errorf ("login token error: " +:+ Result out)))
                                  user pass
                      else if negb (bool_decide (Reason out = "")) then
                        ret (Some out,
                             Some (Errorf ("login failed: " +:+ Result out +:+ " ("
                                           +:+ Reason out +:+ ")")))
                      else
                        ret (Some out, Some (Errorf ("login failed: " +:+ Result out)))
                  end
              end
          end
      end
  end.

Definition LoginF (user pass : string) : M (option LoginResult * option error) :=
  let* c := getClient in
  LoginLoop (Z.to_nat (tokenRetry c)) None user pass.

End Methods.

Section Relogin.
Variable Login : string -> string -> M (option LoginResult * option error).

Definition ReloginF : M (option error) :=
  let* c := getClient in
  let user := loginUser c in
  let pass := loginPass c in
  if bool_decide (user = "") || bool_decide (pass = "") then
    ret (Some (Errorf "relogin requested but no stored credentials"))
  else
    let* (_, err) := Login user pass in
    ret err.

End Relogin.

Section Do.
Variable Relogin : M (option error).

(** The loop of [do]: [n] iterations are left, [attempt] is the counter. *)
Fixpoint doLoop (n : nat) (attempt maxRelogin : Z) (lastErr : option error)
    (method : string) (np : normalizedParams) : M RespErr :=
  match n with
  | O => ret (None, lastErr)
  | S n' =>
      let* (resp, err) := doOnce method np in
      match err with
      | None =>
          let code := responseErrorCode resp in
          if isAssertUserFailedCode code && (attempt <? maxRelogin)%Z then
            match resp with
            | None => panic
            | Some r =>
                let lastErr := assertError code r in
                let* err2 := Relogin in
                match err2 with
                | Some e2 => ret (resp, Some (Joined lastErr e2))
                | None => doLoop n' (attempt + 1) maxRelogin (Some lastErr) method np
                end
            end
          else if isAssertUserFailedCode code && (attempt =? maxRelogin)%Z then
            match resp with
            | None => panic
            | Some r => ret (resp, Some (assertError code r))
            end
          else ret (resp, None)
      | Some e =>
          let retryable :=
            match IsMediaWikiApiError e with
            | Some a => negb (bool_decide (ECode a = "")) && isAssertUserFailedCode (ECode a)
            | None => false
            end in
          if negb retryable then ret (resp, Some e)
          else if (attempt =? maxRelogin)%Z then ret (resp, Some e)
          else
            let* err2 := Relogin in
            match err2 with
            | Some e2 => ret (resp, Some (Joined e e2))
            | None =>
                (* Retry the original request after relogin. *)
                doLoop n' (attempt + 1) maxRelogin (Some e) method np
            end
      end
  end.

Definition doF (method : string) (p : Params) (opt : doOptions) : M RespErr :=
  match normalizeParams p with
  | Err e => ret (None, Some e)
  | Ok np =>
      let* c := getClient in
      (* Keep-login: inject assertuser=username, but never for login or login-token. *)
      let np := injectAssert c opt np in
      let maxRelogin := if skipRelogin opt then 0 else reloginRetry c in
      doLoop (Z.to_nat (maxRelogin + 1)) 0 maxRelogin None method np
  end.

End Do.

(** *** The retry orchestrator (tokens.go) *)

Record PostWithTokenOptions := {
  TokenName : string;
  Retry : Z;
  NoCache : bool
}.

(** [map[string]any{}]: a fresh, empty map. *)
Definition newMap : M positive :=
  fun w =>
    let l := fresh (dom (heap w)) in
    Done l {| client := client w; heap := <[l := ∅]> (heap w);
              server := server w; history := history w |}.

(** The entries of the map a reference denotes; a nil map has none. *)
Definition readMap (p : option positive) : M (gmap string anyval) :=
  fun w =>
    Done (match p with
          | Some l => default ∅ (heap w !! l)
          | None => ∅
          end) w.

(** Writes to the map at [l]. *)
Definition updMap (l : positive) (f : gmap string anyval -> gmap string anyval) : M unit :=
  fun w =>
    Done tt {| client := client w;
               heap := <[l := f (default ∅ (heap w !! l))]> (heap w);
               server := server w; history := history w |}.

Section PostWithToken.
Variable GetToken : TokenType -> M (string * option error).
Variable Post : Params -> M RespErr.

Fixpoint PostWithTokenLoop (n : nat) (attempt : Z) (lastErr : option error)
    (tokenType : TokenType) (tokenName : string) (noCache : bool) (p2 : positive)
  : M RespErr :=
  match n with
  | O => ret (None, Some (exhausted "token retry exhausted" lastErr))
  | S n' =>
      (if (0 <? attempt)%Z || noCache then InvalidateToken tokenType else ret tt) ;;;
      let* (tok, err) := GetToken tokenType in
      match err with
      | Some e => ret (None, Some e)
      | None =>
          updMap p2 (fun m => <[tokenName := VString tok]> m) ;;;
          let* args := readMap (Some p2) in
          let* (resp, err) := Post (PMapAny args) in
          match err with
          | None =>
              (* Even when throwOnApiError=false, token errors can appear in envelope. *)
              let code := responseErrorCode resp in
              if isTokenErrorCode code then
                match resp with
                | None => panic
                | Some r =>
                    PostWithTokenLoop n' (attempt + 1)
                      (Some (ApiError {| ECode := code; EMessage := "token error";
                                         EHTTPStatus := StatusCode r; EErrors := [];
                                         EResponse := Some r |}))
                      tokenType tokenName noCache p2
                end
              else ret (resp, None)
          | Some e =>
              if isTokenError e then
                PostWithTokenLoop n' (attempt + 1) (Some e) tokenType tokenName noCache p2
              else ret (resp, Some e)
          end
      end
  end.

Definition PostWithTokenF (tokenType : TokenType) (p : option positive)
    (opt : option PostWithTokenOptions) : M RespErr :=
  let* c := getClient in
  let tokenName :=
    match opt with
    | Some o => if negb (bool_decide (TokenName o = "")) then TokenName o else "token"
    | None => "token"
    end in
  let retry :=
    match opt with
    | Some o => if (0 <? Retry o)%Z then Retry o else tokenRetry c
    | None => tokenRetry c
    end in
  let noCache :=
    match opt with
    | Some o => NoCache o
    | None => false
    end in
  let* p2 := newMap in
  let* src := readMap p in
  updMap p2 (fun m => map_fold (fun k v m => <[k := v]> m) m src) ;;;
  PostWithTokenLoop (Z.to_nat retry) 0 None tokenType tokenName noCache p2.

End PostWithToken.

Section Logout.
Variable PostWithToken : TokenType -> option positive -> option PostWithTokenOptions -> M RespErr.

Definition clearLogin (c : Client) : Client := setLogin "" "" "" c.

Definition LogoutF : M (option error) :=
  let* args := newMap in
  updMap args (fun m => <["action" := VString "logout"]> m) ;;;
  let* (_, err) := PostWithToken TokenCSRF (Some args) None in
  match err with
  | Some e => ret (Some e)
  | None =>
      updClient clearLogin ;;;
      InvalidateAllTokens ;;;
      ret None
  end.

End Logout.

(** *** Closing the cycle *)

Definition traceAttempt (m : M RespErr) : M RespErr :=
  let* r := m in logEvent (EvAttempt r) ;;; ret r.

Definition traceLogin (user pass : string) (m : M (option LoginResult * option error))
  : M (option LoginResult * option error) :=
  let* r := m in logEvent (EvLogin user pass r) ;;; ret r.

Definition traceRelogin (m : M (option error)) : M (option error) :=
  let* r := m in logEvent (EvRelogin r) ;;; ret r.

(** [do].  [fuel] bounds how deep calls of [do] nest: a request that is
    answered with an assertion failure logs in again, which posts, which
    runs [do] again. *)
Fixpoint do (fuel : nat) (method : string) (p : Params) (opt : doOptions) : M RespErr :=
  match fuel with
  | O => fun _ => OutOfFuel
  | S fuel' =>
      let Post := fun p => do fuel' MethodPost p noOptions in
      let Login := fun user pass =>
        traceLogin user pass (LoginF Post user pass) in
      doF (traceRelogin (ReloginF Login)) method p opt
  end.

Definition Get (fuel : nat) (p : Params) : M RespErr :=
  do fuel MethodGet p noOptions.

Definition Post (fuel : nat) (p : Params) : M RespErr :=
  do fuel MethodPost p noOptions.

Definition GetToken (fuel : nat) (tokenType : TokenType) : M (string * option error) :=
  GetTokenF (Post fuel) tokenType.

Definition Login (fuel : nat) (user pass : string) : M (option LoginResult * option error) :=
  traceLogin user pass (LoginF (Post fuel) user pass).

Definition Relogin (fuel : nat) : M (option error) :=
  traceRelogin (ReloginF (Login fuel)).

Definition PostWithToken (fuel : nat) (tokenType : TokenType) (p : option positive)
    (opt : option PostWithTokenOptions) : M RespErr :=
  PostWithTokenF (GetToken fuel) (fun args => traceAttempt (Post fuel args)) tokenType p opt.

Definition Logout (fuel : nat) : M (option error) :=
  LogoutF (PostWithToken fuel).

End Engine.

Arguments Done {_ _ _} a w.
Arguments Panicked {_ _ _}.
Arguments OutOfFuel {_ _ _}.

(** ** What the server reads from a request *)

(** The values a request's body transmits for a field. *)
Definition bodyValues (req : HttpRequest) (k : string) : list string :=
  match ReqBody req with
  | NoBody => []
  | FormBody fields => default [] (fields !! k)
  | MultipartBody fields _ => (filter (fun kv => kv.1 = k) fields).*2
  end.

(** The values its URL query transmits. *)
Definition queryValues (req : HttpRequest) (k : string) : list string :=
  default [] (ReqQuery req !! k).

(** [r.Form.Get(k)] on the server after [ParseForm]: body values come before
    query values. *)
Definition formGet (req : HttpRequest) (k : string) : string :=
  hd "" (bodyValues req k ++ queryValues req k)%list.

(** ** Vocabulary of the statements *)

(** Every key carries exactly one value: what [Set] leaves behind. *)
Definition singleValued (v : url_Values) : Prop :=
  forall k vs, v !! k = Some vs -> exists x, vs = [x].

(** The wire defaults, as [normalizeParams] lists them. *)
Definition defaultOf (k : string) : option string :=
  if bool_decide (k = "action") then Some "query"
  else if bool_decide (k = "format") then Some "json"
  else if bool_decide (k = "formatversion") then Some "2"
  else if bool_decide (k = "errorformat") then Some "plaintext"
  else None.

Section Vocabulary.
Context `{Wire} `{!Codec} `{!Network}.

(** The login state of a client: stored user, stored password, current
    user. *)
Definition creds (c : Client) : string * string * string :=
  (loginUser c, loginPass c, loggedInUser c).

(** What construction fixes. *)
Definition config (c : Client) : URL * string * bool * bool * Z * Z :=
  (endpoint c, ua c, throwOnApiError c, keepLogin c, reloginRetry c, tokenRetry c).

(** The cache holds no empty token. *)
Definition cacheOk (c : Client) : Prop :=
  forall k v, tokens c !! k = Some v -> v ≠ "".

(** The login state after a stretch of history: every [Login] that returned
    without error installs its credentials and the name the server gave. *)
Definition replayLogin (cr : string * string * string) (e : Event)
  : string * string * string :=
  match e with
  | EvLogin user pass (Some lr, None) => (user, pass, LgName lr)
  | _ => cr
  end.

Definition replayCreds (evs : list Event) (cr : string * string * string)
  : string * string * string :=
  foldl replayLogin cr evs.

(** A [Login] that returned without error returned a result whose literal
    lowercases to success. *)
Definition successLiteral (e : Event) : Prop :=
  match e with
  | EvLogin _ _ (r, None) => exists lr, r = Some lr /\ ToLower (Result lr) = "success"
  | _ => True
  end.

Definition isAttempt (e : Event) : bool :=
  match e with
  | EvAttempt _ => true
  | _ => false
  end.

Definition isLoginSuccess (e : Event) : bool :=
  match e with
  | EvLogin _ _ (Some _, None) => true
  | _ => false
  end.

(** The write attempts recorded in a stretch of history. *)
Definition attemptsOf (evs : list Event) : list RespErr :=
  omap (fun e => match e with
                 | EvAttempt r => Some r
                 | _ => None
                 end) evs.

(** The results of the calls of Relogin recorded in a stretch of history. *)
Definition reloginsOf (evs : list Event) : list (option error) :=
  omap (fun e => match e with
                 | EvRelogin err => Some err
                 | _ => None
                 end) evs.

(** The requests that went out. *)
Definition requestsOf (evs : list Event) : list HttpRequest :=
  omap (fun e => match e with
                 | EvHttp req _ => Some req
                 | _ => None
                 end) evs.

(** [w'] is reached from [w] by appending [evs] to the history, with the
    login state following the logins in [evs], the configuration fixed and
    the cache free of empty tokens if it was. *)
Definition StepBy (evs : list Event) (w w' : World) : Prop :=
  history w' = (history w ++ evs)%list
  /\ creds (client w') = replayCreds evs (creds (client w))
  /\ Forall successLiteral evs
  /\ config (client w') = config (client w)
  /\ (cacheOk (client w) -> cacheOk (client w')).

(** A step of the request layer: no write attempt of [PostWithToken] is
    recorded and no parameter map is touched. *)
Definition Step (w w' : World) : Prop :=
  exists evs, StepBy evs w w'
              /\ Forall (fun e => isAttempt e = false) evs
              /\ heap w' = heap w.

(** A method whose every return is a step. *)
Definition steps {A} (m : M A) : Prop :=
  forall w a w', m w = Done a w' -> Step w w'.

(** What a return of the body of [Login] guarantees: besides what a step
    does, a return without error has a result whose literal lowercases to
    success, installs the credentials and leaves the cache empty; a return
    with an error leaves the login state to the logins nested in the call. *)
Definition LoginPost (user pass : string) (w : World)
    (r : option LoginResult * option error) (w' : World) : Prop :=
  exists evs,
    history w' = (history w ++ evs)%list
    /\ Forall successLiteral evs
    /\ Forall (fun e => isAttempt e = false) evs
    /\ heap w' = heap w
    /\ config (client w') = config (client w)
    /\ (cacheOk (client w) -> cacheOk (client w'))
    /\ match r with
       | (Some lr, None) =>
           creds (client w') = (user, pass, LgName lr)
           /\ tokens (client w') = ∅
           /\ ToLower (Result lr) = "success"
       | (_, Some _) => creds (client w') = replayCreds evs (creds (client w))
       | (None, None) => False
       end.

Definition loginOk (user pass : string) (m : M (option LoginResult * option error)) : Prop :=
  forall w r w', m w = Done r w' -> LoginPost user pass w r w'.

(** A step that records no write attempt and leaves every parameter map
    but the one at [p2] alone. *)
Definition QStep (p2 : positive) (w w' : World) : Prop :=
  exists evs, StepBy evs w w'
              /\ attemptsOf evs = []
              /\ forall l, l ≠ p2 -> heap w' !! l = heap w !! l.

(** Every return of [m1] is a return of [m2]: used to say that more fuel
    changes no result. *)
Definition refines {A} (m1 m2 : M A) : Prop :=
  forall w a w', m1 w = Done a w' -> m2 w = Done a w'.

(** A client that has no stored user name, so that Relogin fails at once,
    and whose replay budget is not negative. *)
Definition noCreds (w : World) : Prop :=
  loginUser (client w) = "" /\ (0 <= reloginRetry (client w))%Z.

(** From every state that satisfies [I], [m] returns, in a state that
    satisfies [I], a value that satisfies [Q]. *)
Definition returnsIn {A} (I : World -> Prop) (Q : A -> Prop) (m : M A) : Prop :=
  forall w, I w -> exists a w', m w = Done a w' /\ I w' /\ Q a.

(** A result of type (pointer to Response, error) that is not nil, nil. *)
Definition someResult (r : RespErr) : Prop :=
  r.2 = None -> is_Some r.1.

(** The map [Logout] passes to [PostWithToken], and the state once it is
    allocated. *)
Definition logoutArgs (w : World) : positive * World :=
  let l := fresh (dom (heap w)) in
  (l, {| client := client w;
         heap := <[l := {[ "action" := VString "logout" ]}]> (heap w);
         server := server w; history := history w |}).

(** How [PostWithToken] classifies the outcome of a write: the token error
    it retries on, if any. *)
Definition tokenFailure (r : RespErr) : option error :=
  match r with
  | (resp, None) =>
      let code := responseErrorCode resp in
      if isTokenErrorCode code then
        match resp with
        | Some r =>
            Some (ApiError {| ECode := code; EMessage := "token error";
                              EHTTPStatus := StatusCode r; EErrors := [];
                              EResponse := Some r |})
        | None => None
        end
      else None
  | (_, Some e) => if isTokenError e then Some e else None
  end.

Definition tokenFailed (a : RespErr) : Prop := is_Some (tokenFailure a).

(** What a return [r] of the retry loop of [PostWithToken] can be, given
    the write attempts [atts] it made out of a budget of [n]: every attempt
    but the last was a token error, and either the last attempt was not one
    and is returned as it is, or a token fetch failed and its error is
    returned, or the budget is used up on token errors and the last of them
    is returned wrapped. *)
Definition RetryOutcome (getToken : TokenType -> M (string * option error))
    (tokenType : TokenType) (n : nat) (lastErr : option error)
    (atts : list RespErr) (r : RespErr) (w' : World) : Prop :=
  (length atts <= n)%nat
  /\ (forall i a, atts !! i = Some a -> (S i < length atts)%nat -> tokenFailed a)
  /\ ((exists a, last atts = Some a /\ tokenFailure a = None /\ r = a)
      \/ (Forall tokenFailed atts /\ (length atts < n)%nat
          /\ exists e s w1, getToken tokenType w1 = Done (s, Some e) w' /\ r = (None, Some e))
      \/ (Forall tokenFailed atts /\ length atts = n
          /\ r = (None, Some (exhausted "token retry exhausted"
                                (match last atts with
                                 | Some a => tokenFailure a
                                 | None => lastErr
                                 end))))).

(** The retry budget of a call of [PostWithToken]: the option's when it
    is positive, the client's otherwise. *)
Definition retryBudget (c : Client) (opt : option PostWithTokenOptions) : Z :=
  match opt with
  | Some o => if (0 <? Retry o)%Z then Retry o else tokenRetry c
  | None => tokenRetry c
  end.

(** The operations a caller has on a client, and running one. *)
Inductive Op :=
| OpGet (p : Params)
| OpPost (p : Params)
| OpGetToken (k : TokenType)
| OpInvalidateToken (k : TokenType)
| OpInvalidateAllTokens
| OpPostWithToken (k : TokenType) (p : option positive) (opt : option PostWithTokenOptions)
| OpLogin (user pass : string)
| OpRelogin
| OpLogout.

Inductive OpResult :=
| RResp (r : RespErr)
| RToken (r : string * option error)
| RLogin (r : option LoginResult * option error)
| RError (e : option error)
| RNone.

Definition runOp (fuel : nat) (op : Op) : M OpResult :=
  match op with
  | OpGet p => bind (Get fuel p) (fun r => ret (RResp r))
  | OpPost p => bind (Post fuel p) (fun r => ret (RResp r))
  | OpGetToken k => bind (GetToken fuel k) (fun r => ret (RToken r))
  | OpInvalidateToken k => bind (InvalidateToken k) (fun _ => ret RNone)
  | OpInvalidateAllTokens => bind InvalidateAllTokens (fun _ => ret RNone)
  | OpPostWithToken k p opt => bind (PostWithToken fuel k p opt) (fun r => ret (RResp r))
  | OpLogin user pass => bind (Login fuel user pass) (fun r => ret (RLogin r))
  | OpRelogin => bind (Relogin fuel) (fun r => ret (RError r))
  | OpLogout => bind (Logout fuel) (fun r => ret (RError r))
  end.

(** The login state follows the logins recorded between [w] and [w']. *)
Definition Tracks (w w' : World) : Prop :=
  exists evs,
    history w' = (history w ++ evs)%list
    /\ Forall successLiteral evs
    /\ creds (client w') = replayCreds evs (creds (client w))
    /\ (Forall (fun e => isLoginSuccess e = false) evs
        -> creds (client w') = creds (client w)).

(** The requests [do] leaves without identity assertion: the login
    operation, and a token query whose type names a login token. *)
Definition exemptFromAssert (v : url_Values) : Prop :=
  ToLower (Values_Get v "action") = "login"
  \/ (ToLower (Values_Get v "action") = "query"
      /\ ToLower (Values_Get v "meta") = "tokens"
      /\ Contains (ToLower (Values_Get v "type")) "login" = true).

(** How [do] classifies the outcome of a send: the assertion failure it
    answers with a relogin, if any. *)
Definition assertionFailure (r : RespErr) : option error :=
  match r with
  | (resp, None) =>
      let code := responseErrorCode resp in
      if isAssertUserFailedCode code then
        match resp with
        | Some r => Some (assertError code r)
        | None => None
        end
      else None
  | (_, Some e) =>
      match IsMediaWikiApiError e with
      | Some a =>
          if negb (bool_decide (ECode a = "")) && isAssertUserFailedCode (ECode a)
          then Some e else None
      | None => None
      end
  end.

End Vocabulary.

(** ** A simulated wiki

    A concrete environment for running the engine: bodies are given by what
    they decode to, and the server is a function of the requests it has seen
    so far and the one that arrives. *)
Module Sim.

Inductive JBody :=
| JTokens (toks : list (string * string))   (* {query: {tokens: {...}}} *)
| JLogin (lr : LoginResult)                 (* {login: {...}} *)
| JError (code info : string)               (* {error: {code, info}} *)
| JOther                                    (* any other JSON object *)
| JGarbage.                                 (* not JSON *)

Definition wire : Wire :=
  {| Raw := JBody; ToLower := asciiLower; ToLower_ascii := fun s _ => eq_refl |}.

Section Instances.
#[local] Existing Instance wire.

Definition codec : Codec :=
  {| unmarshalEnvelope := fun b =>
       match b with
       | JError code info =>
           {| Error := Some {| Code := code; Info := info; Text := "" |}; Errors := [] |}
       | _ => {| Error := None; Errors := [] |}
       end;
     unmarshalTokens := fun b =>
       match b with
       | JTokens toks => Ok (list_to_map toks)
       | JGarbage => Err (ExternalError "invalid character")
       | _ => Ok ∅
       end;
     unmarshalLogin := fun b =>
       match b with
       | JLogin lr => Ok lr
       | JGarbage => Err (ExternalError "invalid character")
       | _ => Ok {| Result := ""; LgUserID := 0; LgName := ""; Reason := "" |}
       end |}.

Record Server := {
  seen : list HttpRequest;
  behave : list HttpRequest -> HttpRequest -> NetResult
}.

Definition network : Network :=
  {| Srv := Server;
     serve := fun s req =>
       ({| seen := (seen s ++ [req])%list; behave := behave s |}, behave s (seen s) req) |}.

#[local] Existing Instance codec.
#[local] Existing Instance network.

Definition reply (b : JBody) : NetResult := NetReply 200 [] b.

Definition isTokenFetch (kind : string) (req : HttpRequest) : bool :=
  bool_decide (formGet req "action" = "query")
  && bool_decide (formGet req "meta" = "tokens")
  && bool_decide (formGet req "type" = kind).

Definition isAction (a : string) (req : HttpRequest) : bool :=
  bool_decide (formGet req "action" = a).

Definition endpointURL (q : url_Values) : URL :=
  {| Scheme := "http"; Host := "wiki.test"; Path := "/api.php"; UQuery := q |}.

(** [New(srv.URL + "/api.php")]. *)
Definition newClient : Client :=
  match NewClient (Ok (endpointURL ∅)) "http://wiki.test/api.php" [] with
  | Ok c => c
  | Err _ =>
      {| endpoint := endpointURL ∅; ua := ""; throwOnApiError := false;
         keepLogin := false; reloginRetry := 0; tokenRetry := 0; tokens := ∅;
         loggedInUser := ""; loginUser := ""; loginPass := "" |}
  end.

Definition start (c : Client) (b : list HttpRequest -> HttpRequest -> NetResult) : World :=
  {| client := c; heap := ∅; server := {| seen := []; behave := b |}; history := [] |}.

(** The server of TestPostWithToken_RetryOnBadToken: the first csrf token
    is CSRF_1, later ones CSRF_2; an edit is accepted with CSRF_2 only. *)
Definition badTokenServer (past : list HttpRequest) (req : HttpRequest) : NetResult :=
  if isTokenFetch "csrf" req then
    let n := S (length (filter (fun r => isTokenFetch "csrf" r = true) past)) in
    reply (JTokens [("csrftoken", if (2 <=? n)%nat then "CSRF_2" else "CSRF_1")])
  else if isAction "edit" req then
    if bool_decide (formGet req "token" = "CSRF_2") then reply JOther
    else reply (JError "badtoken" "bad token")
  else reply (JError "badtest" "unhandled request").

(** The server of TestKeepLogin_ReloginOnAssertUserFailed, with the name the
    login answers as a parameter: the first plain query is rejected with
    assertuserfailed, the later ones succeed. *)
Definition droppedSessionServer (name1 name2 : string)
    (past : list HttpRequest) (req : HttpRequest) : NetResult :=
  if isTokenFetch "login" req then reply (JTokens [("logintoken", "LOGIN_TOKEN")])
  else if isAction "login" req then
    if bool_decide (formGet req "lgtoken" = "LOGIN_TOKEN") then
      let n := length (filter (fun r => isAction "login" r = true) past) in
      reply (JLogin {| Result := "Success"; LgUserID := 1;
                       LgName := if (n =? 0)%nat then name1 else name2;
                       Reason := "" |})
    else reply (JLogin {| Result := "WrongToken"; LgUserID := 0; LgName := ""; Reason := "" |})
  else if isAction "query" req && bool_decide (formGet req "meta" = "") then
    let n := length (filter (fun r => isAction "query" r && bool_decide (formGet r "meta" = "")
                                      = true) past) in
    if (n =? 0)%nat then reply (JError "assertuserfailed" "session expired")
    else reply JOther
  else reply (JError "badtest" "unhandled request").

(** A wiki that hands out the csrf token T and accepts every write. *)
Definition okServer (past : list HttpRequest) (req : HttpRequest) : NetResult :=
  if isTokenFetch "csrf" req then reply (JTokens [("csrftoken", "T")])
  else reply JOther.

(** A client logged in as UserA with a cached csrf token. *)
Definition loggedIn : Client :=
  setTokens {[ "csrf" := "T0" ]} (setLogin "UserA" "pass" "UserA" newClient).

(** A world whose caller holds one parameter map, at reference 1. *)
Definition startWith (c : Client) (b : list HttpRequest -> HttpRequest -> NetResult)
    (args : gmap string anyval) : World :=
  {| client := c; heap := {[ 1%positive := args ]};
     server := {| seen := []; behave := b |}; history := [] |}.

Definition editArgs : gmap string anyval :=
  {[ "action" := VString "edit"; "title" := VString "Sandbox"; "text" := VString "hello" ]}.

Definition queryArgs : Params :=
  PMapAny {[ "action" := VString "query"; "titles" := VString "Main Page" ]}.

(** The result and final state of a run that returned. *)
Definition outcome {A} (w : World) (d : A) (r : Run A) : A * World :=
  match r with
  | Done a w' => (a, w')
  | _ => (d, w)
  end.

(** Whether a run returned. *)
Definition returned {A} (r : Run A) : bool :=
  match r with
  | Done _ _ => true
  | _ => false
  end.

(** A client whose endpoint carries a preset query. *)
Definition presetClient : Client :=
  match NewClient (Ok (endpointURL {[ "action" := ["parse"]; "origin" := ["*"] ]}))
                  "http://wiki.test/api.php?action=parse&origin=*" [] with
  | Ok c => c
  | Err _ => newClient
  end.

Definition noRequest : HttpRequest :=
  {| ReqMethod := ""; ReqQuery := ∅; ReqBody := NoBody; ReqContentType := "";
     ReqUserAgent := "" |}.

Definition fromOk {A} (d : A) (r : res A) : A :=
  match r with
  | Ok a => a
  | Err _ => d
  end.

(** What the server read from the requests of a history, in order. *)
Definition fieldsSeen (k : string) (evs : list Event) : list string :=
  (fun req => formGet req k) <$> requestsOf evs.

(** A network that is down (or a context that is already canceled). *)
Definition deadServer (canceled : bool) (past : list HttpRequest) (req : HttpRequest)
  : NetResult :=
  NetErr canceled "connection refused".

End Instances.
End Sim.

(** ** Vocabulary of the further properties *)

(** The text [addAny] stores for a value, if it stores one, and the
    attachments it appends for it under a key: both read off [addAny]. *)
Definition fieldOf (val : anyval) : option string :=
  match Values (addAny {| Values := ∅; Files := [] |} "" val) !! "" with
  | Some (x :: _) => Some x
  | _ => None
  end.

Definition filesOf (key : string) (val : anyval) : list fileField :=
  Files (addAny {| Values := ∅; Files := [] |} key val).

(** [addAny] over the entries of a map, visited in the order of the list. *)
Definition addAll (l : list (string * anyval)) : normalizedParams :=
  foldl (fun np kv => addAny np kv.1 kv.2) {| Values := ∅; Files := [] |} l.

(** Whether [mergeQuery] leaves a key out: [omitKeys] is not nil and holds
    the key. *)
Definition omittedKey (omitKeys : option (gset string)) (k : string) : bool :=
  match omitKeys with
  | Some ks => bool_decide (k ∈ ks)
  | None => false
  end.

(** The options the package exports.  WithHTTPClient, WithTransport and
    WithTimeout configure the transport and leave the fields of the model
    alone; a nil option is skipped. *)
Inductive exportedOption : option Option -> Prop :=
| exported_nil : exportedOption None
| exported_transport : exportedOption (Some (fun c => c))
| exported_UserAgent v : exportedOption (Some (WithUserAgent v))
| exported_ThrowOnApiError v : exportedOption (Some (WithThrowOnApiError v))
| exported_KeepLogin v : exportedOption (Some (WithKeepLogin v))
| exported_ReloginRetry n : exportedOption (Some (WithReloginRetry n))
| exported_TokenRetry n : exportedOption (Some (WithTokenRetry n)).

(** What every constructed client satisfies. *)
Definition wellFormed (c : Client) : Prop :=
  Scheme (endpoint c) ≠ "" /\ Host (endpoint c) ≠ ""
  /\ HasSuffix (Path (endpoint c)) "api.php" = true
  /\ ua c ≠ "" /\ (0 <= reloginRetry c)%Z /\ (0 < tokenRetry c)%Z.

Section MoreVocabulary.
Context `{Wire}.

(** errors.go: the method [Error] of [*MediaWikiApiError]. *)
Definition MediaWikiApiError_Error (e : MediaWikiApiError) : string :=
  if bool_decide (ECode e = "") then EMessage e
  else if bool_decide (EMessage e = "") then ECode e
  else ECode e +:+ ": " +:+ EMessage e.

End MoreVocabulary.

Section MoreEngineVocabulary.
Context `{Wire} `{!Codec} `{!Network}.

(** What no operation changes: the configuration stays, the token cache
    stays free of empty tokens, the history only grows, and the parameter
    maps that exist stay as they are. *)
Definition Preserved (w w' : World) : Prop :=
  config (client w') = config (client w)
  /\ (cacheOk (client w) -> cacheOk (client w'))
  /\ (exists evs, history w' = (history w ++ evs)%list)
  /\ (forall l, l ∈ dom (heap w) -> heap w' !! l = heap w !! l).

(** From every state that satisfies [I], [m] returns. *)
Definition returnsFrom {A} (I : World -> Prop) (m : M A) : Prop :=
  forall w, I w -> exists a w', m w = Done a w'.

End MoreEngineVocabulary.

Section MoreEngineStates.
Context `{Wire} `{!Codec} `{!Network}.

(** The state after [InvalidateToken]. *)
Definition withoutToken (tokenType : TokenType) (w : World) : World :=
  {| client := setTokens (delete tokenType (tokens (client w))) (client w);
     heap := heap w; server := server w; history := history w |}.

(** The first request recorded after the history [h]. *)
Definition firstRequestAfter (h : list Event) (w' : World) (req : HttpRequest) : Prop :=
  exists res rest, history w' = (h ++ EvHttp req res :: rest)%list.

(** A request that asks for a token of the given kind by POST. *)
Definition tokenFetch (tokenType : TokenType) (req : HttpRequest) : Prop :=
  ReqMethod req = MethodPost
  /\ bodyValues req "action" = ["query"]
  /\ bodyValues req "meta" = ["tokens"]
  /\ bodyValues req "type" = [tokenType].

(** The three settings of a call of [PostWithToken]: the name of the
    token field, whether the cache is bypassed, and the entries of the
    caller's map (a nil map has none). *)
Definition tokenFieldOf (opt : option PostWithTokenOptions) : string :=
  match opt with
  | Some o => if negb (bool_decide (TokenName o = "")) then TokenName o else "token"
  | None => "token"
  end.

Definition bypassCache (opt : option PostWithTokenOptions) : bool :=
  match opt with
  | Some o => NoCache o
  | None => false
  end.

Definition argsOf (p : option positive) (w : World) : gmap string anyval :=
  match p with
  | Some l => default ∅ (heap w !! l)
  | None => ∅
  end.

End MoreEngineStates.

Section Wikis.
Context `{Wire} `{!Codec} `{!Network}.

(** The error codes an envelope carries. *)
Definition envelopeCodes (e : Envelope) : list string :=
  ((Code <$> option_list (Error e)) ++ (Code <$> Errors e))%list.

(** An answer that reports no assertion failure: a transport failure, or
    a body whose envelope carries no such code. *)
Definition noAssertFailure (res : NetResult) : Prop :=
  match res with
  | NetErr _ _ => True
  | NetReply _ _ body =>
      Forall (fun c => isAssertUserFailedCode c = false)
             (envelopeCodes (unmarshalEnvelope body))
  end.

(** A request of the login handshake, as the server reads it: the login
    itself, or the fetch of a login token. *)
Definition handshake (req : HttpRequest) : Prop :=
  formGet req "action" = "login"
  \/ (formGet req "action" = "query" /\ formGet req "meta" = "tokens"
      /\ formGet req "type" = TokenLogin).

(** A wiki that, in the states [J] it moves through, never answers a
    request of the login handshake with an assertion failure. *)
Definition soundWiki (J : Srv -> Prop) : Prop :=
  forall s req, J s -> J (serve s req).1
                       /\ (handshake req -> noAssertFailure (serve s req).2).

(** The states of a run against such a wiki, on a client whose replay
    budget is not negative. *)
Definition onWiki (J : Srv -> Prop) (w : World) : Prop :=
  J (server w) /\ (0 <= reloginRetry (client w))%Z.

(** An answer that reports an assertion failure as the error of its
    envelope. *)
Definition rejects (res : NetResult) : Prop :=
  match res with
  | NetErr _ _ => False
  | NetReply _ _ body =>
      exists e, Error (unmarshalEnvelope body) = Some e
                /\ isAssertUserFailedCode (Code e) = true
  end.

(** A wiki that, in the states [J] it moves through, answers every request
    with an assertion failure. *)
Definition rejectingWiki (J : Srv -> Prop) : Prop :=
  forall s req, J s -> J (serve s req).1 /\ rejects (serve s req).2.

(** A client that stores credentials and has both budgets positive, in a
    state of such a wiki. *)
Definition armed (J : Srv -> Prop) (w : World) : Prop :=
  J (server w)
  /\ loginUser (client w) ≠ "" /\ loginPass (client w) ≠ ""
  /\ (0 < reloginRetry (client w))%Z /\ (0 < tokenRetry (client w))%Z.

End Wikis.

(** ** demo/main.go: reading the configuration *)

(** [strings.Cut]. *)
Definition Cut (s sep : string) : string * string * bool :=
  match String.index 0 sep s with
  | Some i =>
      (substring 0 i s,
       substring (i + String.length sep) (String.length s - (i + String.length sep)) s,
       true)
  | None => (s, "", false)
  end.

(** [strings.TrimPrefix] and [strings.TrimSuffix]. *)
Definition TrimPrefix (s p : string) : string :=
  if String.prefix p s
  then substring (String.length p) (String.length s - String.length p) s
  else s.

Definition TrimSuffix (s p : string) : string :=
  if HasSuffix s p then substring 0 (String.length s - String.length p) s else s.

Definition doubleQuote : string := String (ascii_of_nat 34) EmptyString.
Definition singleQuote : string := String (ascii_of_nat 39) EmptyString.
Definition nulByte : string := String (ascii_of_nat 0) EmptyString.

(** The process environment. *)
Abbreviation Environ := (gmap string string).

(** [os.Setenv] on Unix: an empty key, a key with an equals sign or a NUL
    byte, and a value with a NUL byte are refused and nothing is set. *)
Definition refused (key value : string) : bool :=
  bool_decide (key = "")
  || bool_decide (is_Some (String.index 0 "=" key))
  || bool_decide (is_Some (String.index 0 nulByte key))
  || bool_decide (is_Some (String.index 0 nulByte value)).

Definition Setenv (env : Environ) (key value : string) : Environ :=
  if refused key value then env else <[key := value]> env.

(** [os.Getenv]. *)
Definition Getenv (env : Environ) (key : string) : string := default "" (env !! key).

Record envConfig := {
  Endpoint : string;
  Username : string;
  Password : string
}.

(** What [os.Open] and the line scanner give [loadDotEnv]: no such file,
    another failure to open, or the lines scanned and the scanner's error,
    if it stopped on one. *)
Inductive DotEnv (E : Type) :=
| NoSuchFile
| OpenFails (e : E)
| Scanned (lines : list string) (scanErr : option E).

Arguments NoSuchFile {_}.
Arguments OpenFails {_} e.
Arguments Scanned {_} lines scanErr.

Section Demo.
Context `{Wire}.
(** [strings.TrimSpace], whose result depends on Unicode tables. *)
Variable TrimSpace : string -> string.

(** The body of the loop of [loadDotEnv], for one line. *)
Definition loadLine (env : Environ) (text : string) : Environ :=
  let line := TrimSpace text in
  if bool_decide (line = "") || String.prefix "#" line then env
  else
    let '(k, v, ok) := Cut line "=" in
    if negb ok then env
    else
      let key := TrimSpace k in
      if bool_decide (key = "") then env
      else if bool_decide (is_Some (env !! key)) then env
      else
        let val := TrimSpace v in
        let val := TrimPrefix val doubleQuote in
        let val := TrimSuffix val doubleQuote in
        let val := TrimPrefix val singleQuote in
        let val := TrimSuffix val singleQuote in
        Setenv env key val.

Definition loadDotEnv (f : DotEnv error) (env : Environ) : Environ * option error :=
  match f with
  | NoSuchFile => (env, None)
  | OpenFails e => (env, Some e)
  | Scanned lines scanErr => (foldl loadLine env lines, scanErr)
  end.

Definition readConfigFromEnv (env : Environ) : res envConfig :=
  let cfg := {| Endpoint := TrimSpace (Getenv env "MW_API_ENDPOINT");
                Username := TrimSpace (Getenv env "MW_USERNAME");
                Password := Getenv env "MW_PASSWORD" |} in
  let missing :=
    ((if bool_decide (Endpoint cfg = "") then ["MW_API_ENDPOINT"] else [])
     ++ (if bool_decide (Username cfg = "") then ["MW_USERNAME"] else [])
     ++ (if bool_decide (Password cfg = "") then ["MW_PASSWORD"] else []))%list in
  match missing with
  | [] => Ok cfg
  | _ => Err (Errorf ("missing env: " +:+ Join missing ", "))
  end.

(** The start of [main]: the file is loaded, its error dropped, and the
    configuration read. *)
Definition demoConfig (f : DotEnv error) (env : Environ) : res envConfig :=
  readConfigFromEnv (loadDotEnv f env).1.

End Demo.

(** ** More simulated wikis and a simulated environment *)
Module SimMore.
Section Instances.
#[local] Existing Instance Sim.wire.
#[local] Existing Instance Sim.codec.
#[local] Existing Instance Sim.network.

(** A wiki that answers every request with an assertion failure. *)
Definition rejectAll (past : list HttpRequest) (req : HttpRequest) : NetResult :=
  Sim.reply (Sim.JError "assertuserfailed" "session lost").

(** A wiki that hands out the csrf token T and rejects every write with
    badtoken. *)
Definition alwaysBadToken (past : list HttpRequest) (req : HttpRequest) : NetResult :=
  if Sim.isTokenFetch "csrf" req then Sim.reply (Sim.JTokens [("csrftoken", "T")])
  else Sim.reply (Sim.JError "badtoken" "bad token").

(** A wiki on which the session is lost and the password no longer
    works: queries are rejected with assertuserfailed and logins fail. *)
Definition expiredPassword (past : list HttpRequest) (req : HttpRequest) : NetResult :=
  if Sim.isTokenFetch "login" req then Sim.reply (Sim.JTokens [("logintoken", "LOGIN_TOKEN")])
  else if Sim.isAction "login" req then
    Sim.reply (Sim.JLogin {| Result := "Failed"; LgUserID := 0; LgName := "";
                             Reason := "wrong password" |})
  else Sim.reply (Sim.JError "assertuserfailed" "session expired").

(** A client that holds a login token from an earlier session. *)
Definition staleLogin : Client := setTokens {[ "login" := "STALE" ]} Sim.newClient.

(** The states of a server that behaves as [b]. *)
Definition behavesAs (b : list HttpRequest -> HttpRequest -> NetResult) (s : Srv) : Prop :=
  Sim.behave s = b.

(** [strings.TrimSpace] on ASCII text. *)
Definition isSpace (a : ascii) : bool :=
  let n := nat_of_ascii a in
  ((9 <=? n)%nat && (n <=? 13)%nat) || (n =? 32)%nat.

Fixpoint trimLeft (s : string) : string :=
  match s with
  | String a rest => if isSpace a then trimLeft rest else s
  | EmptyString => EmptyString
  end.

Definition trimSpace (s : string) : string :=
  String.rev (trimLeft (String.rev (trimLeft s))).

Definition dotEnvFile : DotEnv error :=
  Scanned ["# demo"; " MW_USERNAME = bot "; "MW_PASSWORD='secret'";
           "MW_USERNAME=other"; "not an assignment"] None.

Definition processEnv : Environ :=
  {[ "MW_API_ENDPOINT" := "http://wiki.test/api.php"; "MW_PASSWORD" := "fromenv" ]}.

Definition fullEnv : Environ :=
  {[ "MW_API_ENDPOINT" := "http://wiki.test/api.php"; "MW_USERNAME" := "admin";
     "MW_PASSWORD" := "fromenv" ]}.

End Instances.
End SimMore.

(** * Properties *)

(** ** url.Values *)

Lemma Values_Get_Set_eq (v : url_Values) k x : Values_Get (Values_Set v k x) k = x.
Proof. unfold Values_Get, Values_Set. by rewrite lookup_insert_eq. Qed.

Lemma Values_Get_Set_ne (v : url_Values) k k' x :
  k ≠ k' -> Values_Get (Values_Set v k x) k' = Values_Get v k'.
Proof. intros. unfold Values_Get, Values_Set. by rewrite lookup_insert_ne. Qed.

Lemma Values_Get_lookup (v : url_Values) k x : v !! k = Some [x] -> Values_Get v k = x.
Proof. unfold Values_Get. by intros ->. Qed.

Lemma singleValued_empty : singleValued ∅.
Proof. intros k vs. by rewrite lookup_empty. Qed.

Lemma singleValued_Set v k x : singleValued v -> singleValued (Values_Set v k x).
Proof.
  intros Hv k' vs. unfold Values_Set.
  destruct (decide (k = k')) as [->|Hne].
  - rewrite lookup_insert_eq. intros [= <-]. by exists x.
  - rewrite lookup_insert_ne by done. apply Hv.
Qed.

Lemma singleValued_Get v k vs :
  singleValued v -> v !! k = Some vs -> vs = [Values_Get v k].
Proof.
  intros Hv Hk. destruct (Hv _ _ Hk) as [x ->].
  by rewrite (Values_Get_lookup _ _ _ Hk).
Qed.

(** ** setDefaultIfMissing and the four defaults *)

Lemma setDefaultIfMissing_same v k d :
  Values_Get (setDefaultIfMissing v k d) k
  = if bool_decide (Values_Get v k = "") then d else Values_Get v k.
Proof.
  unfold setDefaultIfMissing. case_bool_decide; [|done].
  apply Values_Get_Set_eq.
Qed.

Lemma setDefaultIfMissing_other v k d k' :
  k ≠ k' -> setDefaultIfMissing v k d !! k' = v !! k'.
Proof.
  intros. unfold setDefaultIfMissing, Values_Set.
  case_bool_decide; [|done]. by rewrite lookup_insert_ne.
Qed.

Lemma setDefaultIfMissing_kept v k d :
  Values_Get v k ≠ "" -> setDefaultIfMissing v k d = v.
Proof. intros. unfold setDefaultIfMissing. by rewrite bool_decide_eq_false_2. Qed.

Lemma setDefaultIfMissing_Get_other v k d k' :
  k ≠ k' -> Values_Get (setDefaultIfMissing v k d) k' = Values_Get v k'.
Proof. intros. unfold Values_Get. by rewrite setDefaultIfMissing_other. Qed.

Lemma singleValued_setDefault v k d :
  singleValued v -> singleValued (setDefaultIfMissing v k d).
Proof.
  intros. unfold setDefaultIfMissing. case_bool_decide; [|done].
  by apply singleValued_Set.
Qed.

Lemma applyDefaults_Get v k :
  Values_Get (applyDefaults v) k
  = match defaultOf k with
    | Some d => if bool_decide (Values_Get v k = "") then d else Values_Get v k
    | None => Values_Get v k
    end.
Proof.
  unfold applyDefaults, defaultOf.
  repeat case_bool_decide; subst;
    repeat first
      [ rewrite setDefaultIfMissing_Get_other by done
      | rewrite setDefaultIfMissing_same ];
    try done; by repeat case_bool_decide.
Qed.

Lemma applyDefaults_lookup_kept v k :
  Values_Get v k ≠ "" -> applyDefaults v !! k = v !! k.
Proof.
  intros Hk. unfold applyDefaults.
  assert (Hstep : forall v' k' d, v' !! k = v !! k -> setDefaultIfMissing v' k' d !! k = v !! k).
  { intros v' k' d Hv'. destruct (decide (k' = k)) as [->|Hne].
    - rewrite setDefaultIfMissing_kept; [done|]. unfold Values_Get. by rewrite Hv'.
    - by rewrite setDefaultIfMissing_other. }
  by repeat apply Hstep.
Qed.

Lemma applyDefaults_lookup_other v k :
  defaultOf k = None -> applyDefaults v !! k = v !! k.
Proof.
  unfold defaultOf, applyDefaults. repeat case_bool_decide; try done. intros _.
  by rewrite !setDefaultIfMissing_other.
Qed.

Lemma singleValued_applyDefaults v : singleValued v -> singleValued (applyDefaults v).
Proof. intros. unfold applyDefaults. by repeat apply singleValued_setDefault. Qed.

(** ** normalizeParams *)

Section ParamsFacts.
Context `{Wire}.

Lemma encode_MapString_lookup (m : gmap string string) k :
  map_fold (fun k val acc => Values_Set acc k val) (∅ : url_Values) m !! k
  = (fun x => [x]) <$> m !! k.
Proof.
  revert k. apply (map_fold_weak_ind (fun r m' => forall k, r !! k = (fun x => [x]) <$> m' !! k)).
  - intros k. by rewrite !lookup_empty.
  - intros i x m' r Hi IH k. unfold Values_Set.
    destruct (decide (i = k)) as [->|Hne].
    + by rewrite !lookup_insert_eq.
    + rewrite !lookup_insert_ne by done. apply IH.
Qed.

Lemma singleValued_joinValues k vs acc : singleValued acc -> singleValued (joinValues k vs acc).
Proof. intros. destruct vs; simpl; [done|]. by apply singleValued_Set. Qed.

Lemma singleValued_addAny np k val :
  singleValued (Values np) -> singleValued (Values (addAny np k val)).
Proof.
  intros Hnp.
  destruct val as [| | | |[?|]|[?|] ?|[]|[|??]|[|??] | | | | | | | |[|??]|]; simpl;
    try done; try (by apply singleValued_Set).
  match goal with |- context [match ?l with [] => _ | _ :: _ => _ end] => destruct l end;
    simpl; [done|]. by apply singleValued_Set.
Qed.

Lemma singleValued_encodeParams p np :
  encodeParams p = Ok np -> singleValued (Values np).
Proof.
  destruct p as [|v|v|v| |[v|e]|t]; simpl; intros [= <-]; simpl;
    try apply singleValued_empty.
  - apply (map_fold_weak_ind (fun r _ => singleValued r)); [apply singleValued_empty|].
    intros. by apply singleValued_joinValues.
  - apply (map_fold_weak_ind (fun r _ => singleValued r)); [apply singleValued_empty|].
    intros. by apply singleValued_Set.
  - apply (map_fold_weak_ind (fun r _ => singleValued (Values r))); [apply singleValued_empty|].
    intros. by apply singleValued_addAny.
  - apply (map_fold_weak_ind (fun r _ => singleValued r)); [apply singleValued_empty|].
    intros. by apply singleValued_joinValues.
Qed.

Lemma normalizeParams_inv p np :
  normalizeParams p = Ok np ->
  exists enc, encodeParams p = Ok enc
              /\ np = {| Values := applyDefaults (Values enc); Files := Files enc |}.
Proof.
  unfold normalizeParams. destruct (encodeParams p) as [enc|e]; [|done].
  intros [= <-]. by exists enc.
Qed.

Lemma singleValued_normalizeParams p np :
  normalizeParams p = Ok np -> singleValued (Values np).
Proof.
  intros (enc & Henc & ->)%normalizeParams_inv. simpl.
  apply singleValued_applyDefaults. by eapply singleValued_encodeParams.
Qed.

(** C2 (amended).  After the per-field encoding, each of the four default
    fields ends with its default exactly when its encoded value is absent or
    the empty string, and with the encoded value otherwise; an entry whose
    value is not empty is left as it is, and so are all other fields and the
    attachments. *)
Theorem defaults_fill_absent_or_empty (p : Params) (enc np : normalizedParams) (k : string) :
  encodeParams p = Ok enc ->
  normalizeParams p = Ok np ->
  Files np = Files enc
  /\ (forall d, defaultOf k = Some d ->
        Values_Get (Values np) k
        = if bool_decide (Values_Get (Values enc) k = "") then d
          else Values_Get (Values enc) k)
  /\ (Values_Get (Values enc) k ≠ "" -> Values np !! k = Values enc !! k)
  /\ (defaultOf k = None -> Values np !! k = Values enc !! k).
Proof.
  intros Henc (enc' & Henc' & ->)%normalizeParams_inv.
  rewrite Henc in Henc'. injection Henc' as <-. simpl.
  split; [done|]. split; [|split].
  - intros d Hd. by rewrite applyDefaults_Get, Hd.
  - apply applyDefaults_lookup_kept.
  - apply applyDefaults_lookup_other.
Qed.

End ParamsFacts.

(** ** buildRequest *)

Lemma delKeys_lookup (q0 v : url_Values) k :
  map_fold (fun k (_ : list string) q => Values_Del q k) q0 v !! k
  = match v !! k with
    | Some _ => None
    | None => q0 !! k
    end.
Proof.
  revert k.
  apply (map_fold_weak_ind
           (fun r m => forall k, r !! k = match m !! k with Some _ => None | None => q0 !! k end)).
  - intros k. by rewrite lookup_empty.
  - intros i x m r Hi IH k. unfold Values_Del.
    destruct (decide (i = k)) as [->|Hne].
    + by rewrite lookup_delete_eq, lookup_insert_eq.
    + rewrite lookup_delete_ne, lookup_insert_ne by done. apply IH.
Qed.

Lemma multipart_fields_of_list (l : list (string * list string)) k x rest :
  NoDup l.*1 ->
  (k, x :: rest) ∈ l ->
  (filter (fun kv : string * string => kv.1 = k)
          (omap (fun kv : string * list string =>
                   match kv.2 with
                   | [] => None
                   | y :: _ => Some (kv.1, y)
                   end) l)).*2 = [x].
Proof.
  induction l as [|[k' vs] l IH]; simpl; [by intros _ ?%elem_of_nil|].
  intros [Hk' Hl]%NoDup_cons [Heq|Hin]%elem_of_cons.
  - injection Heq as <- <-. simpl. rewrite filter_cons_True by done. simpl. f_equal.
    clear IH Hl. induction l as [|[k'' vs'] l IH]; simpl; [done|].
    simpl in Hk'. apply not_elem_of_cons in Hk' as [Hne Hk'].
    destruct vs'; simpl; [by apply IH|].
    rewrite filter_cons_False by (simpl; congruence). by apply IH.
  - assert (k' ≠ k).
    { intros ->. apply Hk'. apply list_elem_of_fmap. by exists (k, x :: rest). }
    destruct vs; simpl; [by apply IH|].
    rewrite filter_cons_False by done. by apply IH.
Qed.

Lemma multipartFields_lookup (v : url_Values) k x rest :
  v !! k = Some (x :: rest) ->
  (filter (fun kv : string * string => kv.1 = k) (multipartFields v)).*2 = [x].
Proof.
  intros Hk. unfold multipartFields. eapply multipart_fields_of_list.
  - apply NoDup_fst_map_to_list.
  - by apply elem_of_map_to_list.
Qed.

Section TransportFacts.
Context `{Wire}.

Lemma buildRequest_post_inv c np req :
  buildRequest c MethodPost np = Ok req ->
  ReqMethod req = MethodPost
  /\ ReqQuery req = map_fold (fun k (_ : list string) q => Values_Del q k)
                             (UQuery (endpoint c)) (Values np)
  /\ (ReqBody req = FormBody (Values np)
      \/ exists parts, ReqBody req = MultipartBody (multipartFields (Values np)) parts).
Proof.
  unfold buildRequest. rewrite bool_decide_eq_false_2 by done.
  destruct (Files np) as [|f fs].
  - intros [= <-]. simpl. auto.
  - destruct (multipartFiles (f :: fs)) as [parts|e]; [|done].
    intros [= <-]. simpl. eauto.
Qed.

(** The body's values for a key that the canonical fields hold exactly once. *)
Lemma post_bodyValues c np req k x :
  buildRequest c MethodPost np = Ok req ->
  Values np !! k = Some [x] ->
  bodyValues req k = [x].
Proof.
  intros (_ & _ & Hbody)%buildRequest_post_inv Hk. unfold bodyValues.
  destruct Hbody as [->|[parts ->]].
  - by rewrite Hk.
  - by eapply multipartFields_lookup.
Qed.

Lemma post_queryValues c np req k :
  buildRequest c MethodPost np = Ok req ->
  queryValues req k
  = match Values np !! k with
    | Some _ => []
    | None => default [] (UQuery (endpoint c) !! k)
    end.
Proof.
  unfold queryValues. intros (_ & -> & _)%buildRequest_post_inv.
  rewrite delKeys_lookup. by destruct (Values np !! k).
Qed.

Lemma mergeQuery_overlay (base overlay : url_Values) k :
  mergeQuery base overlay None !! k
  = match overlay !! k with
    | Some (x :: _) => Some [x]
    | _ => mergeQuery base ∅ None !! k
    end.
Proof.
  unfold mergeQuery at 1. revert k.
  apply (map_fold_weak_ind
           (fun r m => forall k, r !! k = match m !! k with
                                          | Some (x :: _) => Some [x]
                                          | _ => mergeQuery base ∅ None !! k
                                          end)).
  - intros k. by rewrite lookup_empty.
  - intros i vs m r Hi IH k. destruct (decide (i = k)) as [->|Hne].
    + rewrite lookup_insert_eq. destruct vs as [|v vs]; simpl.
      * by rewrite IH, Hi.
      * unfold Values_Set. by rewrite lookup_insert_eq.
    + rewrite lookup_insert_ne by done. destruct vs as [|v vs]; simpl; [apply IH|].
      unfold Values_Set. rewrite lookup_insert_ne by done. apply IH.
Qed.

Lemma buildRequest_get_inv c np req :
  buildRequest c MethodGet np = Ok req ->
  ReqBody req = NoBody /\ ReqQuery req = mergeQuery (UQuery (endpoint c)) (Values np) None.
Proof. unfold buildRequest. simpl. by intros [= <-]. Qed.

(** A field of the canonical parameters reaches the server with its value,
    whichever of the two methods carries it. *)
Lemma formGet_sent c method np req k x :
  buildRequest c method np = Ok req ->
  method = MethodGet \/ method = MethodPost ->
  Values np !! k = Some [x] ->
  formGet req k = x.
Proof.
  intros Hreq [->| ->] Hk; unfold formGet.
  - apply buildRequest_get_inv in Hreq as [Hbody Hq].
    unfold bodyValues, queryValues. by rewrite Hbody, Hq, mergeQuery_overlay, Hk.
  - by rewrite (post_bodyValues _ _ _ _ _ Hreq Hk).
Qed.

End TransportFacts.

(** ** Running the engine *)

Section EngineFacts.
Context `{Wire} `{!Codec} `{!Network}.

Lemma bind_Done {A B} (m : M A) (k : A -> M B) w b w' :
  bind m k w = Done b w' <-> exists a w1, m w = Done a w1 /\ k a w1 = Done b w'.
Proof.
  unfold bind. split.
  - destruct (m w) as [a w1| |]; [|done..]. intros. by exists a, w1.
  - intros (a & w1 & -> & Hk). done.
Qed.

Lemma bind_eq {A B} (m : M A) (k : A -> M B) w a w1 :
  m w = Done a w1 -> bind m k w = k a w1.
Proof. unfold bind. by intros ->. Qed.

Lemma ToLower_empty : ToLower "" = "".
Proof. by rewrite ToLower_ascii. Qed.

Lemma isTokenErrorCode_empty : isTokenErrorCode "" = false.
Proof. unfold isTokenErrorCode. by rewrite ToLower_empty. Qed.

Lemma isAssertUserFailedCode_empty : isAssertUserFailedCode "" = false.
Proof. unfold isAssertUserFailedCode. by rewrite ToLower_empty. Qed.

(** *** Steps *)

Lemma replayCreds_app evs1 evs2 cr :
  replayCreds (evs1 ++ evs2) cr = replayCreds evs2 (replayCreds evs1 cr).
Proof. apply foldl_app. Qed.

Lemma StepBy_refl w : StepBy [] w w.
Proof. unfold StepBy. by rewrite app_nil_r. Qed.

Lemma StepBy_trans evs1 evs2 w1 w2 w3 :
  StepBy evs1 w1 w2 -> StepBy evs2 w2 w3 -> StepBy (evs1 ++ evs2) w1 w3.
Proof.
  intros (Hh1 & Hc1 & Hs1 & Hg1 & Hk1) (Hh2 & Hc2 & Hs2 & Hg2 & Hk2).
  unfold StepBy. rewrite Hh2, Hh1, Hc2, Hc1, Hg2, Hg1, replayCreds_app, Forall_app.
  rewrite <-(assoc_L (++)). repeat split; auto.
Qed.

Lemma Step_refl w : Step w w.
Proof. exists []. auto using StepBy_refl. Qed.

Lemma Step_trans w1 w2 w3 : Step w1 w2 -> Step w2 w3 -> Step w1 w3.
Proof.
  intros (evs1 & Hs1 & Ha1 & Hp1) (evs2 & Hs2 & Ha2 & Hp2).
  exists (evs1 ++ evs2)%list. split; [by eapply StepBy_trans|].
  rewrite Forall_app, Hp2, Hp1. auto.
Qed.

Lemma steps_ret {A} (a : A) : steps (ret a).
Proof. intros w a' w' [= <- <-]. apply Step_refl. Qed.

Lemma steps_panic {A} : steps (@panic _ _ A).
Proof. by intros w a w'. Qed.

Lemma steps_bind {A B} (m : M A) (k : A -> M B) :
  steps m -> (forall a, steps (k a)) -> steps (bind m k).
Proof.
  intros Hm Hk w b w' (a & w1 & Hr1 & Hr2)%bind_Done.
  eapply Step_trans; [by eapply Hm|by eapply Hk].
Qed.

Lemma steps_getClient : steps getClient.
Proof. intros w a w' [= <- <-]. apply Step_refl. Qed.

Lemma steps_updClient f :
  (forall c, creds (f c) = creds c) ->
  (forall c, config (f c) = config c) ->
  (forall c, cacheOk c -> cacheOk (f c)) ->
  steps (updClient f).
Proof.
  intros Hc Hg Hk w a w' [= <- <-]. exists []. split; [|by split; [constructor|]].
  unfold StepBy; simpl. rewrite app_nil_r, Hc, Hg. repeat split; auto.
Qed.

Lemma steps_roundTrip req : steps (roundTrip req).
Proof.
  intros w a w'. unfold roundTrip. destruct (serve _ _) as [s r]. intros [= <- <-].
  exists [EvHttp req r]. split; [|by split; [repeat constructor|]].
  unfold StepBy; simpl. repeat split; auto. by repeat constructor.
Qed.

Lemma steps_InvalidateToken k : steps (InvalidateToken k).
Proof.
  apply steps_updClient; try done.
  intros c Hc k' v. simpl. intros [_ Hv]%lookup_delete_Some. by eapply Hc.
Qed.

Lemma steps_InvalidateAllTokens : steps InvalidateAllTokens.
Proof. by apply steps_updClient. Qed.

Lemma steps_storeToken k tok :
  tok ≠ "" -> steps (updClient (fun c => setTokens (<[k := tok]> (tokens c)) c)).
Proof.
  intros Htok. apply steps_updClient; try done.
  intros c Hc k' v. simpl. intros [[_ <-]|[_ Hv]]%lookup_insert_Some; [done|].
  by eapply Hc.
Qed.

Lemma steps_doOnce method np : steps (doOnce method np).
Proof.
  unfold doOnce. apply steps_bind; [apply steps_getClient|]. intros c.
  destruct (buildRequest c method np) as [req|e]; [|apply steps_ret].
  apply steps_bind; [apply steps_roundTrip|]. intros [canceled msg|status header body].
  - apply steps_ret.
  - destruct (throwOnApiError c); [|apply steps_ret].
    destruct (responseApiError _); apply steps_ret.
Qed.

Lemma extractToken_nonempty raw k tok : extractToken raw k = Ok tok -> tok ≠ "".
Proof.
  unfold extractToken. destruct (unmarshalTokens raw) as [toks|e]; [|done].
  case_bool_decide; [done|]. by intros [= <-].
Qed.

Section WithPost.
Variable post : Params -> M RespErr.
Hypothesis steps_post : forall p, steps (post p).

Lemma steps_GetTokenF k : steps (GetTokenF post k).
Proof.
  unfold GetTokenF. apply steps_bind; [apply steps_getClient|]. intros c.
  destruct (negb _); [apply steps_ret|].
  apply steps_bind; [apply steps_getClient|]. intros c'.
  destruct (negb _); [apply steps_ret|].
  apply steps_bind; [apply steps_post|]. intros [resp [e|]]; [apply steps_ret|].
  destruct resp as [r|]; [|apply steps_panic].
  destruct (extractToken _ _) as [tok|e] eqn:Htok; [|apply steps_ret].
  apply steps_bind; [|intros; apply steps_ret].
  apply steps_storeToken. by eapply extractToken_nonempty.
Qed.

Lemma LoginPost_Step user pass w w1 r w' :
  Step w w1 -> LoginPost user pass w1 r w' -> LoginPost user pass w r w'.
Proof.
  intros (evs1 & (Hh1 & Hc1 & Hs1 & Hg1 & Hk1) & Ha1 & Hp1)
         (evs2 & Hh2 & Hs2 & Ha2 & Hp2 & Hg2 & Hk2 & Hr).
  exists (evs1 ++ evs2)%list.
  rewrite Hh2, Hh1, Hp2, Hp1, Hg2, Hg1, !Forall_app, <-(assoc_L (++)).
  repeat split; auto.
  destruct r as [[lr|] [e|]]; try done.
  - by rewrite Hr, Hc1, replayCreds_app.
  - by rewrite Hr, Hc1, replayCreds_app.
Qed.

Lemma loginOk_bind {A} user pass (m : M A) k :
  steps m -> (forall a, loginOk user pass (k a)) -> loginOk user pass (bind m k).
Proof.
  intros Hm Hk w b w' (a & w1 & Hr1 & Hr2)%bind_Done.
  eapply LoginPost_Step; [by eapply Hm|by eapply Hk].
Qed.

Lemma loginOk_ret_err user pass x e : loginOk user pass (ret (x, Some e)).
Proof.
  intros w r w' [= <- <-]. exists []. rewrite app_nil_r.
  repeat split; auto. by destruct x.
Qed.

Lemma loginOk_panic user pass : loginOk user pass panic.
Proof. by intros w r w'. Qed.

Lemma loginOk_success user pass out :
  ToLower (Result out) = "success" ->
  loginOk user pass
    (bind (updClient (setLogin user pass (LgName out)))
          (fun _ => bind InvalidateAllTokens (fun _ => ret (Some out, None)))).
Proof.
  intros Hout w r w' [= <- <-]. exists []. simpl. rewrite app_nil_r.
  repeat split; auto. intros _ k v. simpl. by rewrite lookup_empty.
Qed.

Lemma loginOk_LoginLoop n lastErr user pass :
  loginOk user pass (LoginLoop post n lastErr user pass).
Proof.
  revert lastErr. induction n as [|n IH]; intros lastErr; simpl.
  { apply loginOk_ret_err. }
  apply loginOk_bind; [apply steps_InvalidateToken|]. intros _.
  apply loginOk_bind; [apply steps_GetTokenF|]. intros [tok [e|]].
  { apply loginOk_ret_err. }
  apply loginOk_bind; [apply steps_post|]. intros [resp [e|]].
  { destruct (isTokenError e); [apply IH|apply loginOk_ret_err]. }
  destruct resp as [r|]; [|apply loginOk_panic].
  destruct (unmarshalLogin _) as [out|e]; [|apply loginOk_ret_err].
  case_bool_decide as Hsucc; [by apply loginOk_success|].
  destruct (_ || _); [apply IH|].
  destruct (negb _); apply loginOk_ret_err.
Qed.

Lemma loginOk_LoginF user pass : loginOk user pass (LoginF post user pass).
Proof.
  unfold LoginF. apply loginOk_bind; [apply steps_getClient|]. intros c.
  apply loginOk_LoginLoop.
Qed.

Lemma steps_traceLogin user pass m : loginOk user pass m -> steps (traceLogin user pass m).
Proof.
  intros Hm w r0 w' (r & w1 & Hr1 & Hr2)%bind_Done.
  injection Hr2 as <- <-.
  destruct (Hm _ _ _ Hr1) as (evs & Hh & Hs & Ha & Hp & Hg & Hk & Hr).
  exists (evs ++ [EvLogin user pass r])%list. simpl. split; [|split].
  - unfold StepBy; simpl. rewrite Hh, (assoc_L (++)), replayCreds_app, Forall_app.
    repeat split; auto.
    + destruct r as [[lr|] [e|]]; simpl; try done.
      by destruct Hr as (-> & _).
    + constructor; [|constructor].
      destruct r as [[lr|] [e|]]; simpl; try done. exists lr. by destruct Hr as (_ & _ & ->).
  - rewrite Forall_app. split; [done|by repeat constructor].
  - done.
Qed.

End WithPost.

Section WithLogin.
Variable login : string -> string -> M (option LoginResult * option error).
Hypothesis steps_login : forall user pass, steps (login user pass).

Lemma steps_logEvent_relogin err : steps (logEvent (EvRelogin err)).
Proof.
  intros w a w' [= <- <-]. exists [EvRelogin err]. split; [|by split; [repeat constructor|]].
  unfold StepBy; simpl. repeat split; auto. by repeat constructor.
Qed.

Lemma steps_Relogin : steps (traceRelogin (ReloginF login)).
Proof.
  unfold traceRelogin, ReloginF.
  apply steps_bind.
  - apply steps_bind; [apply steps_getClient|]. intros c.
    destruct (_ || _); [apply steps_ret|].
    apply steps_bind; [apply steps_login|]. intros [? ?]. apply steps_ret.
  - intros err. apply steps_bind; [apply steps_logEvent_relogin|]. intros; apply steps_ret.
Qed.

End WithLogin.

Section WithRelogin.
Variable relogin : M (option error).
Hypothesis steps_relogin : steps relogin.

Lemma steps_doLoop n attempt maxRelogin lastErr method np :
  steps (doLoop relogin n attempt maxRelogin lastErr method np).
Proof.
  revert attempt lastErr. induction n as [|n IH]; intros attempt lastErr; simpl.
  { apply steps_ret. }
  apply steps_bind; [apply steps_doOnce|]. intros [resp [e|]].
  - destruct (negb _); [apply steps_ret|].
    destruct (_ =? _)%Z; [apply steps_ret|].
    apply steps_bind; [apply steps_relogin|]. intros [e2|]; [apply steps_ret|apply IH].
  - destruct (_ && _).
    + destruct resp as [r|]; [|apply steps_panic].
      apply steps_bind; [apply steps_relogin|]. intros [e2|]; [apply steps_ret|apply IH].
    + destruct (_ && _); [|apply steps_ret].
      destruct resp; [apply steps_ret|apply steps_panic].
Qed.

Lemma steps_doF method p opt : steps (doF relogin method p opt).
Proof.
  unfold doF. destruct (normalizeParams p) as [np|e]; [|apply steps_ret].
  apply steps_bind; [apply steps_getClient|]. intros c. apply steps_doLoop.
Qed.

End WithRelogin.

(** Every return of [do], and of the methods built on it, is a step. *)
Lemma steps_do fuel method p opt : steps (do fuel method p opt).
Proof.
  revert method p opt. induction fuel as [|fuel IH]; intros method p opt.
  { by intros w r w'. }
  simpl. apply steps_doF, steps_Relogin. intros user pass.
  apply steps_traceLogin, loginOk_LoginF. intros p'. apply IH.
Qed.

Lemma steps_Post fuel p : steps (Post fuel p).
Proof. apply steps_do. Qed.

Lemma steps_Get fuel p : steps (Get fuel p).
Proof. apply steps_do. Qed.

Lemma steps_GetToken fuel k : steps (GetToken fuel k).
Proof. apply steps_GetTokenF, steps_Post. Qed.

Lemma loginOk_Login_body fuel user pass : loginOk user pass (LoginF (Post fuel) user pass).
Proof. apply loginOk_LoginF, steps_Post. Qed.

Lemma steps_Login fuel user pass : steps (Login fuel user pass).
Proof. apply steps_traceLogin, loginOk_Login_body. Qed.

Lemma steps_Relogin_fuel fuel : steps (Relogin fuel).
Proof. apply steps_Relogin, steps_Login. Qed.

(** *** The retry loop of PostWithToken *)

Lemma attemptsOf_app evs1 evs2 :
  attemptsOf (evs1 ++ evs2) = (attemptsOf evs1 ++ attemptsOf evs2)%list.
Proof. apply omap_app. Qed.

Lemma attemptsOf_quiet evs :
  Forall (fun e => isAttempt e = false) evs -> attemptsOf evs = [].
Proof.
  induction 1 as [|e evs He _ IH]; [done|].
  by destruct e.
Qed.

Lemma QStep_refl p2 w : QStep p2 w w.
Proof. exists []. auto using StepBy_refl. Qed.

Lemma QStep_trans p2 w1 w2 w3 : QStep p2 w1 w2 -> QStep p2 w2 w3 -> QStep p2 w1 w3.
Proof.
  intros (evs1 & Hs1 & Ha1 & Hp1) (evs2 & Hs2 & Ha2 & Hp2).
  exists (evs1 ++ evs2)%list. split; [by eapply StepBy_trans|].
  rewrite attemptsOf_app, Ha1, Ha2. split; [done|].
  intros l Hl. by rewrite Hp2, Hp1.
Qed.

Lemma Step_QStep p2 w w' : Step w w' -> QStep p2 w w'.
Proof.
  intros (evs & Hs & Ha & Hp). exists evs. split; [done|].
  split; [by apply attemptsOf_quiet|]. intros. by rewrite Hp.
Qed.

Lemma QStep_updMap p2 f w a w' : updMap p2 f w = Done a w' -> QStep p2 w w'.
Proof.
  intros [= <- <-]. exists []. split; [|split; [done|]].
  - unfold StepBy; simpl. rewrite app_nil_r. repeat split; auto.
  - intros l Hl. simpl. by rewrite lookup_insert_ne.
Qed.

Section RetryLoop.
Variable getToken : TokenType -> M (string * option error).
Variable post : Params -> M RespErr.
Hypothesis steps_getToken : forall k, steps (getToken k).
Hypothesis steps_post : forall p, steps (post p).

Lemma RetryOutcome_retry tokenType n lastErr a e atts r w' :
  tokenFailure a = Some e ->
  RetryOutcome getToken tokenType n (Some e) atts r w' ->
  RetryOutcome getToken tokenType (S n) lastErr (a :: atts) r w'.
Proof.
  intros Ha (Hlen & Hinit & Hout). split; [simpl; lia|]. split.
  - intros [|i] a' Hi Hlt; simpl in *.
    + injection Hi as <-. by rewrite (mk_is_Some _ _ Ha) || (unfold tokenFailed; rewrite Ha).
    + eapply Hinit; [done|lia].
  - destruct Hout as [(a' & Hlast & Hnone & ->)|[(Hall & Hlt & Hget)|(Hall & Heq & ->)]].
    + left. exists a'. split; [|done]. destruct atts; [done|]. by rewrite last_cons, Hlast.
    + right; left. split; [|split; [simpl; lia|done]].
      constructor; [|done]. unfold tokenFailed. by rewrite Ha.
    + right; right. split; [|split; [simpl; lia|]].
      * constructor; [|done]. unfold tokenFailed. by rewrite Ha.
      * rewrite last_cons. destruct (last atts); by rewrite ?Ha.
Qed.

Lemma PostWithTokenLoop_spec n attempt lastErr tokenType tokenName noCache p2 w r w' :
  PostWithTokenLoop getToken (fun args => traceAttempt (post args))
                    n attempt lastErr tokenType tokenName noCache p2 w = Done r w' ->
  exists evs,
    StepBy evs w w'
    /\ (forall l, l ≠ p2 -> heap w' !! l = heap w !! l)
    /\ RetryOutcome getToken tokenType n lastErr (attemptsOf evs) r w'.
Proof.
  revert attempt lastErr w. induction n as [|n IH]; intros attempt lastErr w; simpl.
  { intros [= <- <-]. exists []. split; [apply StepBy_refl|]. split; [done|].
    unfold RetryOutcome; simpl.
    split; [done|]. split; [by intros i a; rewrite lookup_nil|].
    right; right. by repeat split. }
  intros ([] & wa & Ha & Hrun)%bind_Done.
  assert (QStep p2 w wa) as Hqa.
  { destruct (_ || _); [|injection Ha as <-; apply QStep_refl].
    eapply Step_QStep, steps_InvalidateToken, Ha. }
  clear Ha. apply bind_Done in Hrun as ([tok err] & wb & Hb & Hrun).
  assert (QStep p2 w wb) as Hqb.
  { eapply QStep_trans; [done|]. eapply Step_QStep, steps_getToken, Hb. }
  destruct err as [e|].
  { injection Hrun as <- <-. destruct Hqb as (evs & Hs & Hatt & Hp).
    exists evs. split; [done|]. split; [done|]. rewrite Hatt.
    split; [simpl; lia|]. split; [by intros i a; rewrite lookup_nil|].
    right; left. split; [done|]. split; [simpl; lia|]. by exists e, tok, wa. }
  clear Hb Hqa. apply bind_Done in Hrun as ([] & wc & Hc & Hrun).
  apply QStep_updMap in Hc.
  apply bind_Done in Hrun as (args & wd & Hd & Hrun). injection Hd as _ <-.
  apply bind_Done in Hrun as ([resp err] & wf & Hf & Hrun).
  apply bind_Done in Hf as (a & we & He & Hf). injection Hf as -> <-.
  assert (QStep p2 w we) as (evs0 & Hs0 & Hatt0 & Hp0).
  { eapply QStep_trans; [done|]. eapply QStep_trans; [done|].
    eapply Step_QStep, steps_post, He. }
  clear Hqb Hc He.
  set (wf := {| client := client we; heap := heap we; server := server we;
                history := (history we ++ [EvAttempt (resp, err)])%list |}) in *.
  assert (StepBy (evs0 ++ [EvAttempt (resp, err)]) w wf) as Hsf.
  { eapply StepBy_trans; [done|]. unfold StepBy; simpl.
    repeat split; auto. by repeat constructor. }
  assert (attemptsOf (evs0 ++ [EvAttempt (resp, err)]) = [(resp, err)]) as Hattf.
  { by rewrite attemptsOf_app, Hatt0. }
  assert (forall r' w'',
             tokenFailure (resp, err) = None -> r' = (resp, err) -> w'' = wf ->
             exists evs, StepBy evs w w''
                         /\ (forall l, l ≠ p2 -> heap w'' !! l = heap w !! l)
                         /\ RetryOutcome getToken tokenType (S n) lastErr
                                         (attemptsOf evs) r' w'') as Hstop.
  { intros r' w'' Hnone -> ->. exists (evs0 ++ [EvAttempt (resp, err)])%list.
    split; [done|]. split; [done|]. rewrite Hattf.
    split; [simpl; lia|]. split; [intros [|i] a; simpl; [lia|by rewrite lookup_nil]|].
    left. by exists (resp, err). }
  assert (forall e lastErr',
             tokenFailure (resp, err) = Some e -> lastErr' = Some e ->
             PostWithTokenLoop getToken (fun args => traceAttempt (post args))
               n (attempt + 1) lastErr' tokenType tokenName noCache p2 wf = Done r w' ->
             exists evs, StepBy evs w w'
                         /\ (forall l, l ≠ p2 -> heap w' !! l = heap w !! l)
                         /\ RetryOutcome getToken tokenType (S n) lastErr
                                         (attemptsOf evs) r w') as Hgo.
  { intros e lastErr' Hsome -> (evs & Hs & Hp & Hout)%IH.
    exists ((evs0 ++ [EvAttempt (resp, err)]) ++ evs)%list.
    split; [by eapply StepBy_trans|]. split.
    - intros l Hl. by rewrite Hp, <-Hp0.
    - rewrite attemptsOf_app, Hattf. simpl. by eapply RetryOutcome_retry. }
  clearbody wf. destruct err as [e|].
  - destruct (isTokenError e) eqn:Htok.
    + eapply Hgo; [|done|done]. simpl. by rewrite Htok.
    + injection Hrun as <- <-. eapply Hstop; [|done..]. simpl. by rewrite Htok.
  - destruct (isTokenErrorCode (responseErrorCode resp)) eqn:Htok.
    + destruct resp as [r0|]; [|done].
      eapply Hgo; [|done|done]. simpl in *. by rewrite Htok.
    + injection Hrun as <- <-. eapply Hstop; [|done..]. simpl. by rewrite Htok.
Qed.

End RetryLoop.

Lemma PostWithToken_spec fuel tokenType p opt w r w' :
  PostWithToken fuel tokenType p opt w = Done r w' ->
  exists evs,
    StepBy evs w w'
    /\ (forall l, l ∈ dom (heap w) -> heap w' !! l = heap w !! l)
    /\ RetryOutcome (GetToken fuel) tokenType (Z.to_nat (retryBudget (client w) opt)) None
                    (attemptsOf evs) r w'.
Proof.
  unfold PostWithToken, PostWithTokenF.
  intros (c & w0 & [= <- <-] & Hrun)%bind_Done.
  apply bind_Done in Hrun as (p2 & w1 & [= <- <-] & Hrun).
  apply bind_Done in Hrun as (src & w2 & [= _ <-] & Hrun).
  apply bind_Done in Hrun as ([] & w3 & [= <-] & Hrun).
  apply PostWithTokenLoop_spec in Hrun as (evs & Hs & Hp & Hout);
    [|apply steps_GetToken|apply steps_Post].
  exists evs. split; [exact Hs|]. split; [|exact Hout].
  intros l Hl. assert (l ≠ fresh (dom (heap w))) as Hne.
  { intros ->. by apply (is_fresh (dom (heap w))). }
  rewrite Hp by done. simpl. by rewrite !lookup_insert_ne.
Qed.

Lemma Logout_inv fuel w err w' :
  Logout fuel w = Done err w' ->
  exists l w0 resp w1,
    client w0 = client w /\ history w0 = history w
    /\ heap w0 !! l = Some {[ "action" := VString "logout" ]}
    /\ PostWithToken fuel TokenCSRF (Some l) None w0 = Done (resp, err) w1
    /\ match err with
       | None =>
           w' = {| client := setTokens ∅ (clearLogin (client w1)); heap := heap w1;
                   server := server w1; history := history w1 |}
       | Some _ => w' = w1
       end.
Proof.
  unfold Logout, LogoutF.
  intros (l & w0 & [= <- <-] & Hrun)%bind_Done.
  apply bind_Done in Hrun as ([] & w1 & [= <-] & Hrun).
  apply bind_Done in Hrun as ([resp perr] & w2 & Hpost & Hrun).
  assert (err = perr) as ->.
  { by destruct perr; injection Hrun as <- _. }
  refine (ex_intro _ _ (ex_intro _ _ (ex_intro _ resp (ex_intro _ w2
            (conj _ (conj _ (conj _ (conj Hpost _)))))))); simpl; try done.
  - by rewrite !lookup_insert_eq.
  - destruct perr; by injection Hrun.
Qed.

(** *** do *)

Lemma do_S fuel method p opt : do (S fuel) method p opt = doF (Relogin fuel) method p opt.
Proof. reflexivity. Qed.

Lemma doF_eq relogin method p opt np w :
  normalizeParams p = Ok np ->
  doF relogin method p opt w
  = let maxRelogin := if skipRelogin opt then 0 else reloginRetry (client w) in
    doLoop relogin (Z.to_nat (maxRelogin + 1)) 0 maxRelogin None method
           (injectAssert (client w) opt np) w.
Proof. unfold doF. by intros ->. Qed.

Lemma doOnce_inv method np w out w1 :
  doOnce method np w = Done out w1 ->
  client w1 = client w /\ heap w1 = heap w
  /\ match buildRequest (client w) method np with
     | Err e => out = (None, Some e) /\ history w1 = history w
     | Ok req => exists res, history w1 = (history w ++ [EvHttp req res])%list
     end.
Proof.
  unfold doOnce. intros (c & w0 & [= <- <-] & Hrun)%bind_Done.
  destruct (buildRequest (client w) method np) as [req|e].
  - apply bind_Done in Hrun as (res & w2 & Hrt & Hrun).
    assert (client w2 = client w /\ heap w2 = heap w
            /\ history w2 = (history w ++ [EvHttp req res])%list) as (Hc & Hp & Hh).
    { unfold roundTrip in Hrt. destruct (serve _ _). by injection Hrt as <- <-. }
    assert (w1 = w2) as ->; [|by eauto].
    destruct res; [by injection Hrun|].
    destruct (throwOnApiError _); [|by injection Hrun].
    destruct (responseApiError _); by injection Hrun.
  - by injection Hrun as <- <-.
Qed.

(** An iteration of the loop of [do] starts with a send; what follows is a
    step. *)
Lemma doLoop_first relogin n attempt maxRelogin lastErr method np w r w' :
  steps relogin ->
  doLoop relogin (S n) attempt maxRelogin lastErr method np w = Done r w' ->
  exists out w1, doOnce method np w = Done out w1 /\ Step w1 w'.
Proof.
  intros Hre Hrun. simpl in Hrun.
  apply bind_Done in Hrun as (out & w1 & Hout & Hrun). exists out, w1. split; [done|].
  cbv zeta in Hrun.
  pose proof (steps_doLoop relogin Hre n (attempt + 1) maxRelogin) as Hloop.
  destruct out as [resp [e|]].
  - destruct (negb _); [injection Hrun as <- <-; apply Step_refl|].
    destruct (_ =? _)%Z; [injection Hrun as <- <-; apply Step_refl|].
    apply bind_Done in Hrun as (err2 & w2 & Hr2 & Hrun).
    eapply Step_trans; [by eapply Hre|].
    destruct err2; [injection Hrun as <- <-; apply Step_refl|by eapply Hloop].
  - destruct (_ && _).
    + destruct resp as [r0|]; [|done].
      apply bind_Done in Hrun as (err2 & w2 & Hr2 & Hrun).
      eapply Step_trans; [by eapply Hre|].
      destruct err2; [injection Hrun as <- <-; apply Step_refl|by eapply Hloop].
    + destruct (_ && _); [|injection Hrun as <- <-; apply Step_refl].
      destruct resp; [injection Hrun as <- <-; apply Step_refl|done].
Qed.

(** The first request of a call of [do] is the one built from the
    normalized parameters after the keep-login step. *)
Lemma do_first_request fuel method p opt w r w' np req :
  do fuel method p opt w = Done r w' ->
  normalizeParams p = Ok np ->
  buildRequest (client w) method (injectAssert (client w) opt np) = Ok req ->
  r ≠ (None, None) \/ (0 <= (if skipRelogin opt then 0 else reloginRetry (client w)))%Z ->
  exists res rest, history w' = (history w ++ EvHttp req res :: rest)%list.
Proof.
  destruct fuel as [|fuel]; [done|]. rewrite do_S. intros Hrun Hnp Hreq Hr.
  rewrite (doF_eq _ _ _ _ _ _ Hnp) in Hrun. cbv zeta in Hrun.
  destruct (Z.to_nat _) as [|n] eqn:Hn.
  { destruct Hr as [Hr|Hr]; [by injection Hrun as <-|lia]. }
  apply doLoop_first in Hrun as (out & w1 & Hout & (evs & (Hh & _) & _)); [|apply steps_Relogin_fuel].
  apply doOnce_inv in Hout as (_ & _ & Hsent). rewrite Hreq in Hsent.
  destruct Hsent as [res Hh1]. exists res, evs.
  by rewrite Hh, Hh1, <-(assoc_L (++)).
Qed.

Lemma responseErrorCode_None : isAssertUserFailedCode (responseErrorCode None) = false.
Proof. apply isAssertUserFailedCode_empty. Qed.

(** A send that is not an assertion failure ends the loop with its result. *)
Lemma doLoop_stop relogin n attempt maxRelogin lastErr method np w out w1 :
  doOnce method np w = Done out w1 ->
  assertionFailure out = None ->
  doLoop relogin (S n) attempt maxRelogin lastErr method np w = Done out w1.
Proof.
  intros Hout Hnone. simpl. rewrite (bind_eq _ _ _ _ _ Hout). cbv zeta.
  destruct out as [resp [e|]]; simpl in Hnone.
  - destruct (IsMediaWikiApiError e) as [a|]; [|done].
    by destruct (_ && _).
  - destruct (isAssertUserFailedCode (responseErrorCode resp)) eqn:Hcode; [|done].
    destruct resp; [done|]. by rewrite responseErrorCode_None in Hcode.
Qed.

(** A send that is an assertion failure, with budget left: relogin, then
    either both failures joined or the same request again. *)
Lemma doLoop_relogin relogin n attempt maxRelogin lastErr method np w out w1 orig err2 w2 :
  doOnce method np w = Done out w1 ->
  assertionFailure out = Some orig ->
  (attempt < maxRelogin)%Z ->
  relogin w1 = Done err2 w2 ->
  doLoop relogin (S n) attempt maxRelogin lastErr method np w
  = match err2 with
    | Some e2 => Done (out.1, Some (Joined orig e2)) w2
    | None => doLoop relogin n (attempt + 1) maxRelogin (Some orig) method np w2
    end.
Proof.
  intros Hout Hsome Hlt Hre. simpl. rewrite (bind_eq _ _ _ _ _ Hout). cbv zeta.
  assert ((attempt <? maxRelogin)%Z = true) as Hltb by lia.
  assert ((attempt =? maxRelogin)%Z = false) as Hneb by lia.
  destruct out as [resp [e|]]; simpl in Hsome.
  - destruct (IsMediaWikiApiError e) as [a|]; [|done].
    destruct (_ && _); [|done]. injection Hsome as <-. simpl. rewrite Hneb.
    rewrite (bind_eq _ _ _ _ _ Hre). by destruct err2.
  - destruct (isAssertUserFailedCode (responseErrorCode resp)); [|done].
    destruct resp as [r0|]; [|done]. injection Hsome as <-. rewrite Hltb. simpl.
    rewrite (bind_eq _ _ _ _ _ Hre). by destruct err2.
Qed.

(** A send that is an assertion failure, with the budget used up: the
    failure is the result. *)
Lemma doLoop_exhausted relogin n maxRelogin lastErr method np w out w1 orig :
  doOnce method np w = Done out w1 ->
  assertionFailure out = Some orig ->
  doLoop relogin (S n) maxRelogin maxRelogin lastErr method np w
  = Done (out.1, Some orig) w1.
Proof.
  intros Hout Hsome. simpl. rewrite (bind_eq _ _ _ _ _ Hout). cbv zeta.
  rewrite Z.ltb_irrefl, Z.eqb_refl.
  destruct out as [resp [e|]]; simpl in Hsome.
  - destruct (IsMediaWikiApiError e) as [a|]; [|done].
    destruct (_ && _); [|done]. by injection Hsome as <-.
  - destruct (isAssertUserFailedCode (responseErrorCode resp)); [|done].
    destruct resp as [r0|]; [|done]. injection Hsome as <-. by rewrite andb_false_r.
Qed.

Lemma buildRequest_Err c method np e :
  buildRequest c method np = Err e -> exists msg, e = ExternalError msg.
Proof.
  unfold buildRequest. case_bool_decide; [done|].
  destruct (Files np) as [|f fs]; [done|].
  destruct (multipartFiles (f :: fs)) as [parts|e'] eqn:Hfiles; [done|].
  intros [= <-]. revert Hfiles. generalize (f :: fs). clear.
  intros fs. induction fs as [|f fs IH]; simpl; [done|].
  destruct (readErr _) as [msg|]; [intros [= <-]; by exists msg|].
  destruct (multipartFiles fs); [done|]. intros [= <-]. by apply IH.
Qed.



(** *** Keep-login *)

Lemma shouldSkipAssert_spec v :
  shouldSkipAssert noOptions v = true <-> exemptFromAssert v.
Proof.
  unfold shouldSkipAssert, exemptFromAssert. simpl.
  repeat case_bool_decide; simpl; try destruct (Contains _ _); intuition congruence.
Qed.

Lemma injectAssert_lookup_ne c opt np k :
  k ≠ "assertuser" -> Values (injectAssert c opt np) !! k = Values np !! k.
Proof.
  intros Hk. unfold injectAssert.
  destruct (_ && _); [|done]. destruct (_ && _); [|done].
  simpl. unfold Values_Set. by rewrite lookup_insert_ne.
Qed.

Lemma injectAssert_Files c opt np : Files (injectAssert c opt np) = Files np.
Proof.
  unfold injectAssert. destruct (_ && _); [|done]. by destruct (_ && _).
Qed.

Lemma singleValued_injectAssert c opt np :
  singleValued (Values np) -> singleValued (Values (injectAssert c opt np)).
Proof.
  intros. unfold injectAssert. destruct (_ && _); [|done]. destruct (_ && _); [|done].
  by apply singleValued_Set.
Qed.

Lemma normalize_tokenRequest k :
  exists v, normalizeParams (tokenRequest k) = Ok {| Values := v; Files := [] |}
            /\ v !! "action" = Some ["query"] /\ v !! "meta" = Some ["tokens"]
            /\ v !! "type" = Some [k] /\ v !! "assertuser" = None.
Proof. eexists. split; [vm_compute; reflexivity|]. by vm_compute. Qed.

Lemma normalize_loginRequest user pass tok :
  exists v, normalizeParams (loginRequest user pass tok) = Ok {| Values := v; Files := [] |}
            /\ v !! "action" = Some ["login"] /\ v !! "lgname" = Some [user]
            /\ v !! "lgpassword" = Some [pass] /\ v !! "lgtoken" = Some [tok]
            /\ v !! "assertuser" = None.
Proof. eexists. split; [vm_compute; reflexivity|]. by vm_compute. Qed.

(** *** Fuel

    A call that returns with some fuel returns the same with more. *)

Lemma refines_refl {A} (m : M A) : refines m m.
Proof. by intros w a w'. Qed.

Lemma refines_bind {A B} (m1 m2 : M A) (k1 k2 : A -> M B) :
  refines m1 m2 -> (forall a, refines (k1 a) (k2 a)) ->
  refines (bind m1 k1) (bind m2 k2).
Proof.
  intros Hm Hk w b w' (a & w1 & Hr1 & Hr2)%bind_Done.
  apply bind_Done. exists a, w1. split; [by apply Hm|by apply Hk].
Qed.

Section Monotone.
Variables post1 post2 : Params -> M RespErr.
Hypothesis post_le : forall p, refines (post1 p) (post2 p).

Lemma GetTokenF_mono k : refines (GetTokenF post1 k) (GetTokenF post2 k).
Proof.
  unfold GetTokenF. apply refines_bind; [apply refines_refl|]. intros c.
  destruct (negb _); [apply refines_refl|].
  apply refines_bind; [apply refines_refl|]. intros c'.
  destruct (negb _); [apply refines_refl|].
  apply refines_bind; [apply post_le|]. intros r. apply refines_refl.
Qed.

Lemma LoginLoop_mono n lastErr user pass :
  refines (LoginLoop post1 n lastErr user pass) (LoginLoop post2 n lastErr user pass).
Proof.
  revert lastErr. induction n as [|n IH]; intros lastErr; simpl; [apply refines_refl|].
  apply refines_bind; [apply refines_refl|]. intros _.
  apply refines_bind; [apply GetTokenF_mono|]. intros [tok [e|]]; [apply refines_refl|].
  apply refines_bind; [apply post_le|]. intros [resp [e|]].
  { destruct (isTokenError e); [apply IH|apply refines_refl]. }
  destruct resp as [r|]; [|apply refines_refl].
  destruct (unmarshalLogin _) as [out|e]; [|apply refines_refl].
  case_bool_decide; [apply refines_refl|].
  destruct (_ || _); [apply IH|apply refines_refl].
Qed.

Lemma LoginF_mono user pass : refines (LoginF post1 user pass) (LoginF post2 user pass).
Proof.
  unfold LoginF. apply refines_bind; [apply refines_refl|]. intros c. apply LoginLoop_mono.
Qed.

End Monotone.

Lemma Relogin_mono (login1 login2 : string -> string -> M (option LoginResult * option error)) :
  (forall user pass, refines (login1 user pass) (login2 user pass)) ->
  refines (traceRelogin (ReloginF login1)) (traceRelogin (ReloginF login2)).
Proof.
  intros Hlogin. unfold traceRelogin, ReloginF.
  apply refines_bind; [|intros; apply refines_refl].
  apply refines_bind; [apply refines_refl|]. intros c.
  destruct (_ || _); [apply refines_refl|].
  apply refines_bind; [apply Hlogin|]. intros; apply refines_refl.
Qed.

Lemma doLoop_mono (relogin1 relogin2 : M (option error)) n attempt maxRelogin lastErr method np :
  refines relogin1 relogin2 ->
  refines (doLoop relogin1 n attempt maxRelogin lastErr method np)
          (doLoop relogin2 n attempt maxRelogin lastErr method np).
Proof.
  intros Hre. revert attempt lastErr.
  induction n as [|n IH]; intros attempt lastErr; simpl; [apply refines_refl|].
  apply refines_bind; [apply refines_refl|]. intros [resp [e|]].
  - destruct (negb _); [apply refines_refl|].
    destruct (_ =? _)%Z; [apply refines_refl|].
    apply refines_bind; [apply Hre|]. intros [e2|]; [apply refines_refl|apply IH].
  - destruct (_ && _).
    + destruct resp as [r|]; [|apply refines_refl].
      apply refines_bind; [apply Hre|]. intros [e2|]; [apply refines_refl|apply IH].
    + apply refines_refl.
Qed.

Lemma do_fuel_S fuel method p opt :
  refines (do fuel method p opt) (do (S fuel) method p opt).
Proof.
  revert method p opt. induction fuel as [|fuel IH]; intros method p opt; [by intros w r w'|].
  change (refines (doF (Relogin fuel) method p opt) (doF (Relogin (S fuel)) method p opt)).
  unfold doF. destruct (normalizeParams p) as [np|e]; [|apply refines_refl].
  apply refines_bind; [apply refines_refl|]. intros c.
  apply doLoop_mono, Relogin_mono. intros user pass. unfold Login, traceLogin.
  apply refines_bind; [|intros; apply refines_refl].
  apply LoginF_mono. intros p'. apply IH.
Qed.

(** More fuel changes no result of [do]. *)
Lemma do_fuel_le fuel fuel' method p opt :
  (fuel <= fuel')%nat -> refines (do fuel method p opt) (do fuel' method p opt).
Proof.
  induction 1 as [|fuel' _ IH]; [apply refines_refl|].
  intros w r w' Hrun. by apply do_fuel_S, IH.
Qed.

Lemma GetToken_fuel_le fuel fuel' k :
  (fuel <= fuel')%nat -> refines (GetToken fuel k) (GetToken fuel' k).
Proof. intros. apply GetTokenF_mono. intros p. by apply do_fuel_le. Qed.

Lemma Login_fuel_le fuel fuel' user pass :
  (fuel <= fuel')%nat -> refines (Login fuel user pass) (Login fuel' user pass).
Proof.
  intros. unfold Login, traceLogin. apply refines_bind; [|intros; apply refines_refl].
  apply LoginF_mono. intros p. by apply do_fuel_le.
Qed.

Lemma PostWithTokenLoop_mono getToken1 getToken2 (post1 post2 : Params -> M RespErr)
    n attempt lastErr tokenType tokenName noCache p2 :
  (forall k, refines (getToken1 k) (getToken2 k)) ->
  (forall p, refines (post1 p) (post2 p)) ->
  refines (PostWithTokenLoop getToken1 post1 n attempt lastErr tokenType tokenName noCache p2)
          (PostWithTokenLoop getToken2 post2 n attempt lastErr tokenType tokenName noCache p2).
Proof.
  intros Hget Hpost. revert attempt lastErr.
  induction n as [|n IH]; intros attempt lastErr; simpl; [apply refines_refl|].
  apply refines_bind; [apply refines_refl|]. intros _.
  apply refines_bind; [apply Hget|]. intros [tok [e|]]; [apply refines_refl|].
  apply refines_bind; [apply refines_refl|]. intros _.
  apply refines_bind; [apply refines_refl|]. intros args.
  apply refines_bind; [apply Hpost|]. intros [resp [e|]].
  - destruct (isTokenError e); [apply IH|apply refines_refl].
  - destruct (isTokenErrorCode _); [|apply refines_refl].
    destruct resp; [apply IH|apply refines_refl].
Qed.

Lemma PostWithToken_fuel_le fuel fuel' tokenType p opt :
  (fuel <= fuel')%nat ->
  refines (PostWithToken fuel tokenType p opt) (PostWithToken fuel' tokenType p opt).
Proof.
  intros Hle. unfold PostWithToken, PostWithTokenF.
  apply refines_bind; [apply refines_refl|]. intros c.
  apply refines_bind; [apply refines_refl|]. intros p2.
  apply refines_bind; [apply refines_refl|]. intros src.
  apply refines_bind; [apply refines_refl|]. intros _.
  apply PostWithTokenLoop_mono.
  - intros k. by apply GetToken_fuel_le.
  - intros args. unfold traceAttempt.
    apply refines_bind; [by apply do_fuel_le|]. intros; apply refines_refl.
Qed.

Lemma Logout_fuel_le fuel fuel' :
  (fuel <= fuel')%nat -> refines (Logout fuel) (Logout fuel').
Proof.
  intros Hle. unfold Logout, LogoutF.
  apply refines_bind; [apply refines_refl|]. intros args.
  apply refines_bind; [apply refines_refl|]. intros _.
  apply refines_bind; [by apply PostWithToken_fuel_le|]. intros; apply refines_refl.
Qed.

(** *** Calls that return

    Without stored credentials no call nests: one unit of fuel is enough,
    whatever the server answers. *)

Lemma returnsIn_bind {A B} I (Q : A -> Prop) (Q' : B -> Prop) (m : M A) (k : A -> M B) :
  returnsIn I Q m -> (forall a, Q a -> returnsIn I Q' (k a)) -> returnsIn I Q' (bind m k).
Proof.
  intros Hm Hk w Hw. destruct (Hm w Hw) as (a & w1 & Hr1 & Hw1 & Ha).
  destruct (Hk a Ha w1 Hw1) as (b & w2 & Hr2 & Hw2 & Hb).
  exists b, w2. split; [|done]. by rewrite (bind_eq _ _ _ _ _ Hr1).
Qed.

Lemma returnsIn_ret {A} I (Q : A -> Prop) a : Q a -> returnsIn I Q (ret a).
Proof. intros Ha w Hw. by exists a, w. Qed.

Lemma returnsIn_weaken {A} I (Q Q' : A -> Prop) m :
  returnsIn I Q m -> (forall a, Q a -> Q' a) -> returnsIn I Q' m.
Proof.
  intros Hm HQ w Hw. destruct (Hm w Hw) as (a & w' & Hr & Hw' & Ha).
  exists a, w'. auto.
Qed.

Lemma returnsIn_getClient I : returnsIn I (fun _ => True) getClient.
Proof. intros w Hw. by exists (client w), w. Qed.

Lemma returnsIn_updClient f :
  (forall c, loginUser (f c) = loginUser c) ->
  (forall c, reloginRetry (f c) = reloginRetry c) ->
  returnsIn noCreds (fun _ => True) (updClient f).
Proof.
  intros Hu Hr w [Hw1 Hw2]. eexists tt, _. split; [done|]. split; [|done].
  unfold noCreds; simpl. by rewrite Hu, Hr.
Qed.

Lemma returnsIn_InvalidateToken k : returnsIn noCreds (fun _ => True) (InvalidateToken k).
Proof. by apply returnsIn_updClient. Qed.

Lemma returnsIn_logEvent e : returnsIn noCreds (fun _ => True) (logEvent e).
Proof. intros w Hw. eexists tt, _. by split. Qed.

Lemma returnsIn_updMap l f : returnsIn noCreds (fun _ => True) (updMap l f).
Proof. intros w Hw. eexists tt, _. by split. Qed.

Lemma returnsIn_readMap p : returnsIn noCreds (fun _ => True) (readMap p).
Proof. intros w Hw. eexists _, w. by split. Qed.

Lemma returnsIn_newMap : returnsIn noCreds (fun _ => True) newMap.
Proof. intros w Hw. eexists _, _. by split. Qed.

Lemma returnsIn_doOnce method np : returnsIn noCreds someResult (doOnce method np).
Proof.
  unfold doOnce. eapply returnsIn_bind; [apply returnsIn_getClient|]. intros c _.
  destruct (buildRequest c method np) as [req|e]; [|by apply returnsIn_ret].
  eapply returnsIn_bind with (Q := fun _ => True).
  { intros w Hw. unfold roundTrip. destruct (serve _ _) as [s r]. eexists _, _. by split. }
  intros [canceled msg|status header body] _; [by apply returnsIn_ret|].
  destruct (throwOnApiError c); [|by apply returnsIn_ret; intros _; eexists].
  destruct (responseApiError _); apply returnsIn_ret; [done|by intros _; eexists].
Qed.

Lemma returnsIn_Relogin login :
  returnsIn noCreds (fun _ => True) (traceRelogin (ReloginF login)).
Proof.
  unfold traceRelogin. eapply returnsIn_bind with (Q := fun _ => True).
  - intros w Hw. unfold ReloginF, bind, getClient. destruct Hw as [Hu Hr]. rewrite Hu. simpl.
    eexists _, w. by split.
  - intros err _. eapply returnsIn_bind; [apply returnsIn_logEvent|].
    intros; by apply returnsIn_ret.
Qed.

Lemma returnsIn_doLoop relogin n attempt maxRelogin lastErr method np :
  returnsIn noCreds (fun _ => True) relogin ->
  (0 < n)%nat \/ is_Some lastErr ->
  returnsIn noCreds someResult (doLoop relogin n attempt maxRelogin lastErr method np).
Proof.
  intros Hre. revert attempt lastErr.
  induction n as [|n IH]; intros attempt lastErr Hn; simpl.
  { destruct Hn as [?|[e ->]]; [lia|]. by apply returnsIn_ret. }
  eapply returnsIn_bind; [apply returnsIn_doOnce|]. intros [resp [e|]] Hres.
  - destruct (negb _); [by apply returnsIn_ret|].
    destruct (_ =? _)%Z; [by apply returnsIn_ret|].
    eapply returnsIn_bind; [apply Hre|]. intros [e2|] _; [by apply returnsIn_ret|].
    apply IH. right. by eexists.
  - assert (is_Some resp) as [r ->] by (by apply Hres).
    destruct (_ && _).
    + eapply returnsIn_bind; [apply Hre|]. intros [e2|] _; [by apply returnsIn_ret|].
      apply IH. right. by eexists.
    + destruct (_ && _); apply returnsIn_ret; [done|by intros _; eexists].
Qed.

Lemma returnsIn_do fuel method p opt :
  returnsIn noCreds someResult (do (S fuel) method p opt).
Proof.
  rewrite do_S. unfold doF. destruct (normalizeParams p) as [np|e]; [|by apply returnsIn_ret].
  intros w Hw. unfold bind, getClient.
  apply returnsIn_doLoop; [apply returnsIn_Relogin| |done].
  left. destruct Hw as [_ Hr]. destruct (skipRelogin opt); lia.
Qed.

Lemma returnsIn_GetToken fuel k :
  returnsIn noCreds (fun _ => True) (GetToken (S fuel) k).
Proof.
  unfold GetToken, GetTokenF. eapply returnsIn_bind; [apply returnsIn_getClient|]. intros c _.
  destruct (negb _); [by apply returnsIn_ret|].
  eapply returnsIn_bind; [apply returnsIn_getClient|]. intros c' _.
  destruct (negb _); [by apply returnsIn_ret|].
  eapply returnsIn_bind; [apply returnsIn_do|]. intros [resp [e|]] Hres; [by apply returnsIn_ret|].
  assert (is_Some resp) as [r ->] by (by apply Hres).
  destruct (extractToken _ _); [|by apply returnsIn_ret].
  eapply returnsIn_bind; [by apply returnsIn_updClient|]. intros; by apply returnsIn_ret.
Qed.

Lemma returnsIn_PostWithTokenLoop fuel n attempt lastErr tokenType tokenName noCache p2 :
  returnsIn noCreds (fun _ => True)
    (PostWithTokenLoop (GetToken (S fuel)) (fun args => traceAttempt (Post (S fuel) args))
                       n attempt lastErr tokenType tokenName noCache p2).
Proof.
  revert attempt lastErr. induction n as [|n IH]; intros attempt lastErr; simpl.
  { by apply returnsIn_ret. }
  eapply returnsIn_bind with (Q := fun _ => True).
  { destruct (_ || _); [apply returnsIn_InvalidateToken|by apply returnsIn_ret]. }
  intros _ _. eapply returnsIn_bind; [apply returnsIn_GetToken|].
  intros [tok [e|]] _; [by apply returnsIn_ret|].
  eapply returnsIn_bind; [apply returnsIn_updMap|]. intros _ _.
  eapply returnsIn_bind; [apply returnsIn_readMap|]. intros args _.
  eapply returnsIn_bind with (Q := someResult).
  { unfold traceAttempt. eapply returnsIn_bind; [apply returnsIn_do|]. intros r Hr.
    eapply returnsIn_bind; [apply returnsIn_logEvent|]. intros; by apply returnsIn_ret. }
  intros [resp [e|]] Hres.
  - destruct (isTokenError e); [apply IH|by apply returnsIn_ret].
  - assert (is_Some resp) as [r ->] by (by apply Hres).
    destruct (isTokenErrorCode _); [apply IH|by apply returnsIn_ret].
Qed.

(** Without stored credentials, PostWithToken returns. *)
Lemma returnsIn_PostWithToken fuel tokenType p opt :
  returnsIn noCreds (fun _ => True) (PostWithToken (S fuel) tokenType p opt).
Proof.
  unfold PostWithToken, PostWithTokenF.
  eapply returnsIn_bind; [apply returnsIn_getClient|]. intros c _.
  eapply returnsIn_bind; [apply returnsIn_newMap|]. intros p2 _.
  eapply returnsIn_bind; [apply returnsIn_readMap|]. intros src _.
  eapply returnsIn_bind; [apply returnsIn_updMap|]. intros _ _.
  apply returnsIn_PostWithTokenLoop.
Qed.

(** Without stored credentials, Logout returns. *)
Lemma returnsIn_Logout fuel : returnsIn noCreds (fun _ => True) (Logout (S fuel)).
Proof.
  unfold Logout, LogoutF.
  eapply returnsIn_bind; [apply returnsIn_newMap|]. intros args _.
  eapply returnsIn_bind; [apply returnsIn_updMap|]. intros _ _.
  eapply returnsIn_bind; [apply returnsIn_PostWithToken|]. intros [resp [e|]] _.
  - by apply returnsIn_ret.
  - eapply returnsIn_bind with (Q := fun _ => True).
    { intros w [Hu Hr]. eexists tt, _. split; [done|]. by split. }
    intros _ _.
    eapply returnsIn_bind; [by apply returnsIn_updClient|]. intros; by apply returnsIn_ret.
Qed.

(** *** The retry orchestrator *)



(** C10.  PostWithToken writes the token into a map of its own: when it
    returns, the map the caller passed, like every map that existed before
    the call, holds the entries it held before. *)
Theorem PostWithToken_keeps_caller_map fuel tokenType p opt w r w' :
  PostWithToken fuel tokenType p opt w = Done r w' ->
  (forall l m, p = Some l -> heap w !! l = Some m -> heap w' !! l = Some m)
  /\ (forall l, l ∈ dom (heap w) -> heap w' !! l = heap w !! l).
Proof.
  intros (evs & _ & Hp & _)%PostWithToken_spec. split; [|done].
  intros l m _ Hl. rewrite Hp; [done|]. apply elem_of_dom. by exists m.
Qed.

(** *** Login state *)

Lemma replayCreds_no_login evs cr :
  Forall (fun e => isLoginSuccess e = false) evs -> replayCreds evs cr = cr.
Proof.
  unfold replayCreds. induction 1 as [|e evs He _ IH]; simpl; [done|].
  rewrite <-IH at 2. f_equal. by destruct e as [| |?? [[?|] [?|]]|].
Qed.

Lemma StepBy_Tracks evs w w' : StepBy evs w w' -> Tracks w w'.
Proof.
  intros (Hh & Hc & Hs & _). exists evs. repeat split; auto.
  intros Hno. by rewrite Hc, replayCreds_no_login.
Qed.

Lemma Step_Tracks w w' : Step w w' -> Tracks w w'.
Proof. intros (evs & Hs & _). by eapply StepBy_Tracks. Qed.

Lemma Login_success fuel user pass lr w w' :
  Login fuel user pass w = Done (Some lr, None) w' ->
  ToLower (Result lr) = "success"
  /\ creds (client w') = (user, pass, LgName lr)
  /\ tokens (client w') = ∅.
Proof.
  intros (r & w1 & Hr1 & [= -> <-])%bind_Done.
  apply loginOk_Login_body in Hr1 as (evs & _ & _ & _ & _ & _ & _ & Hc & Ht & Hl).
  done.
Qed.

Lemma Logout_eq fuel w :
  Logout fuel w
  = match PostWithToken fuel TokenCSRF (Some (logoutArgs w).1) None (logoutArgs w).2 with
    | Done (_, Some e) w1 => Done (Some e) w1
    | Done (_, None) w1 =>
        Done None {| client := setTokens ∅ (clearLogin (client w1)); heap := heap w1;
                     server := server w1; history := history w1 |}
    | Panicked => Panicked
    | OutOfFuel => OutOfFuel
    end.
Proof.
  unfold Logout, LogoutF, bind, newMap, updMap, logoutArgs. simpl.
  rewrite lookup_insert_eq, insert_insert_eq. simpl.
  destruct (PostWithToken _ _ _ _ _) as [[resp [e|]] w1| |]; done.
Qed.

(** C1 (amended).  Logout posts the logout operation through
    PostWithToken and returns that call's error.  When the call returns no
    error, Logout returns none and the stored credentials and the current
    user are empty and the token cache is empty afterwards; when it returns
    an error, Logout returns that error in the state the call left and
    clears nothing.  Logout returns only if the call did, and on a client
    without stored credentials it always returns. *)
Theorem Logout_clears_after_remote_success fuel w :
  (noCreds w -> exists err w', Logout (S fuel) w = Done err w')
  /\ (forall resp err w1,
        PostWithToken fuel TokenCSRF (Some (logoutArgs w).1) None (logoutArgs w).2
        = Done (resp, err) w1 ->
        match err with
        | Some e => Logout fuel w = Done (Some e) w1
        | None =>
            exists w',
              Logout fuel w = Done None w'
              /\ loggedInUser (client w') = "" /\ loginUser (client w') = ""
              /\ loginPass (client w') = "" /\ tokens (client w') = ∅
              /\ history w' = history w1
        end)
  /\ (forall err w',
        Logout fuel w = Done err w' ->
        exists resp w1,
          PostWithToken fuel TokenCSRF (Some (logoutArgs w).1) None (logoutArgs w).2
          = Done (resp, err) w1
          /\ (err ≠ None -> w' = w1)).
Proof.
  split; [|split].
  - intros Hw. destruct (returnsIn_Logout fuel w Hw) as (err & w' & Hrun & _).
    by exists err, w'.
  - intros resp err w1 Hpost. rewrite Logout_eq, Hpost.
    destruct err as [e|]; [done|]. eexists. by repeat split.
  - intros err w'. rewrite Logout_eq.
    destruct (PostWithToken _ _ _ _ _) as [[resp [e|]] w1| |]; try done.
    + intros [= <- <-]. by exists resp, w1.
    + intros [= <- <-]. by exists resp, w1.
Qed.

(** C5.  Whatever operation a caller runs, the stored credentials and the
    current user afterwards are those installed by the last Login that
    returned without error during it, or the ones from before when there
    was none; every such Login returned a result whose literal lowercases
    to success; only a Logout that returned without error empties them;
    and a Login that returns without error leaves the credentials it was
    given, the name the server answered, and an empty token cache. *)
Theorem login_state_follows_logins fuel op w res w' :
  runOp fuel op w = Done res w' ->
  match op, res with
  | OpLogout, RError None => creds (client w') = ("", "", "")
  | _, _ => Tracks w w'
  end
  /\ (forall user pass lr,
        op = OpLogin user pass -> res = RLogin (Some lr, None) ->
        ToLower (Result lr) = "success"
        /\ creds (client w') = (user, pass, LgName lr)
        /\ tokens (client w') = ∅).
Proof.
  intros Hrun. split.
  - destruct op; simpl in Hrun;
      apply bind_Done in Hrun as (r & w1 & Hr & [= <- <-]).
    + eapply Step_Tracks, steps_Get, Hr.
    + eapply Step_Tracks, steps_Post, Hr.
    + eapply Step_Tracks, steps_GetToken, Hr.
    + eapply Step_Tracks, steps_InvalidateToken, Hr.
    + eapply Step_Tracks, steps_InvalidateAllTokens, Hr.
    + apply PostWithToken_spec in Hr as (evs & Hs & _). by eapply StepBy_Tracks.
    + eapply Step_Tracks, steps_Login, Hr.
    + eapply Step_Tracks, steps_Relogin_fuel, Hr.
    + apply Logout_inv in Hr as (l & w0 & resp & w2 & Hc & Hh & _ & Hpost & Hw').
      destruct r as [e|]; [|by subst w1].
      subst w2. apply PostWithToken_spec in Hpost as (evs & Hs & _).
      apply StepBy_Tracks in Hs. unfold Tracks in *. by rewrite <-Hc, <-Hh.
  - intros user pass lr -> ->. simpl in Hrun.
    apply bind_Done in Hrun as (r & w1 & Hr & [= -> <-]).
    by eapply Login_success.
Qed.

(** *** Assertion failures *)


(** *** The token cache *)

Lemma GetToken_cached fuel tokenType w tok :
  tokens (client w) !! tokenType = Some tok -> tok ≠ "" ->
  GetToken fuel tokenType w = Done (tok, None) w.
Proof.
  intros Htok Hne. unfold GetToken, GetTokenF, bind, getClient. rewrite Htok. simpl.
  by rewrite bool_decide_eq_false_2.
Qed.

Lemma token_request_sent fuel tokenType w r w1 :
  Post fuel (tokenRequest tokenType) w = Done r w1 ->
  r ≠ (None, None) ->
  exists req res rest,
    history w1 = (history w ++ EvHttp req res :: rest)%list
    /\ ReqMethod req = MethodPost
    /\ bodyValues req "action" = ["query"]
    /\ bodyValues req "meta" = ["tokens"]
    /\ bodyValues req "type" = [tokenType].
Proof.
  intros Hpost Hr.
  destruct (normalize_tokenRequest tokenType) as (v & Hnp & Ha & Hm & Ht & _).
  set (np := injectAssert (client w) noOptions {| Values := v; Files := [] |}).
  assert (buildRequest (client w) MethodPost np
          = Ok {| ReqMethod := MethodPost;
                  ReqQuery := map_fold (fun k (_ : list string) q => Values_Del q k)
                                       (UQuery (endpoint (client w))) (Values np);
                  ReqBody := FormBody (Values np);
                  ReqContentType := "application/x-www-form-urlencoded";
                  ReqUserAgent := ua (client w) |}) as Hreq.
  { unfold buildRequest. simpl. unfold np. by rewrite injectAssert_Files. }
  destruct (do_first_request _ _ _ _ _ _ _ _ _ Hpost Hnp Hreq (or_introl Hr))
    as (res & rest & Hh).
  assert (forall k x, k ≠ "assertuser" -> v !! k = Some x -> default [] (Values np !! k) = x)
    as Hfield.
  { intros k x Hk Hv. unfold np. rewrite injectAssert_lookup_ne by done. simpl. by rewrite Hv. }
  eexists _, res, rest. split; [done|]. split; [done|].
  unfold bodyValues. cbn [ReqBody].
  split_and!; apply Hfield; first [assumption|discriminate].
Qed.

Lemma GetTokenF_uncached post tokenType w :
  default "" (tokens (client w) !! tokenType) = "" ->
  GetTokenF post tokenType w
  = match post (tokenRequest tokenType) w with
    | Done (_, Some e) w1 => Done ("", Some e) w1
    | Done (None, None) w1 => Panicked
    | Done (Some rsp, None) w1 =>
        match extractToken (RawBody rsp) tokenType with
        | Err e => Done ("", Some e) w1
        | Ok tok =>
            Done (tok, None)
                 {| client := setTokens (<[tokenType := tok]> (tokens (client w1)))
                                        (client w1);
                    heap := heap w1; server := server w1; history := history w1 |}
        end
    | Panicked => Panicked
    | OutOfFuel => OutOfFuel
    end.
Proof.
  intros Hun. unfold GetTokenF, bind, getClient. rewrite Hun. simpl. rewrite Hun. simpl.
  destruct (post _ w) as [[[rsp|] [e|]] w1| |]; try done.
  by destruct (extractToken _ _).
Qed.

(** C6.  GetToken returns a cached token without touching the network or
    the client.  With none cached, it posts one request with the fields
    action=query, meta=tokens and type set to the kind; it returns that
    post's error if it has one, the decoding error if the body does not
    decode, the error missing kind token if the entry under the lowercased
    kind followed by token is absent or empty, and otherwise that entry,
    which it has stored in the cache under the kind, so that any later
    GetToken for the kind returns it without a fetch.  On a client without
    stored credentials the call always returns. *)
Theorem GetToken_contract fuel tokenType w :
  (forall tok,
      tokens (client w) !! tokenType = Some tok -> tok ≠ "" ->
      GetToken fuel tokenType w = Done (tok, None) w)
  /\ (default "" (tokens (client w) !! tokenType) = "" ->
      (forall r w',
          GetToken fuel tokenType w = Done r w' ->
          exists resp err w1 req res rest,
            Post fuel (tokenRequest tokenType) w = Done (resp, err) w1
            /\ history w1 = (history w ++ EvHttp req res :: rest)%list
            /\ ReqMethod req = MethodPost
            /\ bodyValues req "action" = ["query"]
            /\ bodyValues req "meta" = ["tokens"]
            /\ bodyValues req "type" = [tokenType])
      /\ (forall resp err w1,
            Post fuel (tokenRequest tokenType) w = Done (resp, err) w1 ->
            match err, resp with
            | Some e, _ => GetToken fuel tokenType w = Done ("", Some e) w1
            | None, None => GetToken fuel tokenType w = Panicked
            | None, Some rsp =>
                match unmarshalTokens (RawBody rsp) with
                | Err e => GetToken fuel tokenType w = Done ("", Some e) w1
                | Ok toks =>
                    let tok := default "" (toks !! (ToLower tokenType +:+ "token")) in
                    if bool_decide (tok = "") then
                      GetToken fuel tokenType w
                      = Done ("", Some (Errorf ("missing " +:+ tokenType +:+ " token"))) w1
                    else
                      exists w',
                        GetToken fuel tokenType w = Done (tok, None) w'
                        /\ tokens (client w') = <[tokenType := tok]> (tokens (client w1))
                        /\ history w' = history w1
                        /\ forall fuel', GetToken fuel' tokenType w' = Done (tok, None) w'
                end
            end))
  /\ (noCreds w -> exists r w', GetToken (S fuel) tokenType w = Done r w').
Proof.
  split; [intros tok; apply GetToken_cached|]. split.
  - intros Hun. pose proof (GetTokenF_uncached (Post fuel) tokenType w Hun) as Hget.
    fold (GetToken fuel tokenType w) in Hget. split.
    + intros r w' Hrun. rewrite Hget in Hrun.
      destruct (Post fuel (tokenRequest tokenType) w) as [[resp err] w1| |] eqn:Hpost;
        [|done..].
      assert ((resp, err) ≠ (None, None)) as Hne by (by intros [= -> ->]).
      destruct (token_request_sent _ _ _ _ _ Hpost Hne)
        as (req & res & rest & Hh & Hm & Ha & Hmeta & Ht).
      by exists resp, err, w1, req, res, rest.
    + intros resp err w1 Hpost. rewrite Hget, Hpost.
      destruct err as [e|]; [by destruct resp|]. destruct resp as [rsp|]; [|done].
      unfold extractToken. destruct (unmarshalTokens _) as [toks|e]; [|done].
      cbv zeta. case_bool_decide as Htok; [done|].
      eexists. split; [done|]. simpl. repeat split.
      intros fuel'. apply GetToken_cached; [|done]. simpl. by rewrite lookup_insert_eq.
  - intros Hw. destruct (returnsIn_GetToken fuel tokenType w Hw) as (r & w' & Hrun & _).
    by exists r, w'.
Qed.

(** *** Requests *)

(** C8.  In a POST request built from normalized parameters, every field
    of the outgoing body is absent from the URL query, whatever the
    endpoint's preset query held for it, and is transmitted by the body
    exactly once, with the value of the canonical parameters. *)
Theorem post_body_wins_over_preset_query c opt p np req k :
  normalizeParams p = Ok np ->
  buildRequest c MethodPost (injectAssert c opt np) = Ok req ->
  is_Some (Values (injectAssert c opt np) !! k) ->
  queryValues req k = []
  /\ bodyValues req k = [Values_Get (Values (injectAssert c opt np)) k].
Proof.
  intros Hnp Hreq [vs Hk]. split.
  - by rewrite (post_queryValues _ _ _ _ Hreq), Hk.
  - assert (singleValued (Values (injectAssert c opt np))) as Hsv.
    { by eapply singleValued_injectAssert, singleValued_normalizeParams. }
    rewrite (singleValued_Get _ _ _ Hsv Hk) in Hk.
    by eapply post_bodyValues.
Qed.

(** C9 (amended).  With keep-login on and a user logged in, a request is
    exempt from the identity assertion exactly when it is the login
    operation or a token query whose type names a login token, and an exempt
    request is sent as normalized; a request that is not exempt and whose
    normalized assertuser is absent or the empty text gets assertuser set to
    the current user; one whose assertuser is not empty keeps it; no other
    field and no attachment changes; the request so prepared is the first that the call
    sends, and the server reads the field from it under either method; and
    the engine's own login request and login-token query are exempt and
    carry no assertuser. *)
Theorem keep_login_injects_assertion fuel method p w np :
  normalizeParams p = Ok np ->
  keepLogin (client w) = true ->
  loggedInUser (client w) ≠ "" ->
  let c := client w in
  let sent := injectAssert c noOptions np in
  (exemptFromAssert (Values np) -> sent = np)
  /\ (~ exemptFromAssert (Values np) ->
      Values_Get (Values np) "assertuser" = "" ->
      Values sent !! "assertuser" = Some [loggedInUser c])
  /\ (Values_Get (Values np) "assertuser" ≠ "" -> sent = np)
  /\ (forall k, k ≠ "assertuser" -> Values sent !! k = Values np !! k)
  /\ Files sent = Files np
  /\ (forall r w' req,
        do fuel method p noOptions w = Done r w' ->
        buildRequest c method sent = Ok req ->
        (0 <= reloginRetry c)%Z ->
        exists res rest, history w' = (history w ++ EvHttp req res :: rest)%list)
  /\ (forall req x,
        buildRequest c method sent = Ok req ->
        method = MethodGet \/ method = MethodPost ->
        Values sent !! "assertuser" = Some [x] ->
        formGet req "assertuser" = x)
  /\ (forall user pass tok np1,
        normalizeParams (loginRequest user pass tok) = Ok np1 ->
        exemptFromAssert (Values np1) /\ Values np1 !! "assertuser" = None)
  /\ (forall np1,
        normalizeParams (tokenRequest TokenLogin) = Ok np1 ->
        exemptFromAssert (Values np1) /\ Values np1 !! "assertuser" = None).
Proof.
  intros Hnp Hkeep Huser c sent. subst c sent. unfold injectAssert. rewrite Hkeep. simpl.
  split; [|split; [|split; [|split; [|split; [|split; [|split; [|split]]]]]]].
  - intros Hex%shouldSkipAssert_spec. by rewrite Hex.
  - intros Hex Hno. destruct (shouldSkipAssert noOptions (Values np)) eqn:Hskip.
    { by apply shouldSkipAssert_spec in Hskip. }
    simpl. rewrite bool_decide_eq_false_2, bool_decide_eq_true_2 by done. simpl.
    unfold Values_Set. by rewrite lookup_insert_eq.
  - intros Hhas. destruct (negb _); [|done].
    by rewrite (bool_decide_eq_false_2 _ Hhas), andb_false_r.
  - intros k Hk. pose proof (injectAssert_lookup_ne (client w) noOptions np k Hk) as Hl.
    unfold injectAssert in Hl. by rewrite Hkeep in Hl.
  - pose proof (injectAssert_Files (client w) noOptions np) as Hf.
    unfold injectAssert in Hf. by rewrite Hkeep in Hf.
  - intros r w' req Hrun Hreq Hbudget.
    eapply (do_first_request _ _ _ _ _ _ _ _ _ Hrun Hnp).
    + unfold injectAssert. by rewrite Hkeep.
    + by right.
  - intros req x Hreq Hm Hx. by eapply formGet_sent.
  - intros user pass tok np1 Hnp1.
    destruct (normalize_loginRequest user pass tok) as (v & Hv & Ha & _ & _ & _ & Hno).
    rewrite Hv in Hnp1. injection Hnp1 as <-. simpl. split; [|done].
    left. rewrite (Values_Get_lookup _ _ _ Ha). by rewrite (ToLower_ascii "login").
  - intros np1 Hnp1.
    destruct (normalize_tokenRequest TokenLogin) as (v & Hv & Ha & Hm & Ht & Hno).
    rewrite Hv in Hnp1. injection Hnp1 as <-. simpl. split; [|done].
    right. rewrite (Values_Get_lookup _ _ _ Ha), (Values_Get_lookup _ _ _ Hm),
      (Values_Get_lookup _ _ _ Ht).
    rewrite (ToLower_ascii "query"), (ToLower_ascii "tokens"), (ToLower_ascii "login")
      by reflexivity.
    repeat split; reflexivity.
Qed.

End EngineFacts.

(** * Further properties *)

(** ** params.go *)

Lemma addAny_Values np k val :
  Values (addAny np k val)
  = match fieldOf val with
    | Some s => Values_Set (Values np) k s
    | None => Values np
    end.
Proof.
  destruct val as [| | | |[?|]|[?|] ?|[]|[|??]|x| | | | | | | |[|??]|];
    try reflexivity.
  unfold fieldOf. simpl. destruct x as [|o x]; [done|].
  destruct (omap id (o :: x)) eqn:Hparts; [done|].
  simpl. unfold Values_Set. by rewrite lookup_insert_eq.
Qed.

Lemma addAny_Files np k val : Files (addAny np k val) = (Files np ++ filesOf k val)%list.
Proof.
  destruct val as [| | | |[?|]|[?|] ?|[]|[|??]|x | | | | | | | |[|??]|];
    unfold filesOf; simpl; rewrite ?app_nil_r; try reflexivity.
  destruct x as [|o x]; [by rewrite app_nil_r|].
  destruct (omap id (o :: x)); simpl; by rewrite app_nil_r.
Qed.

Lemma addAll_from_lookup (l : list (string * anyval)) np k :
  NoDup l.*1 ->
  Values (foldl (fun np kv => addAny np kv.1 kv.2) np l) !! k
  = match (list_to_map l : gmap string anyval) !! k ≫= fieldOf with
    | Some s => Some [s]
    | None => Values np !! k
    end.
Proof.
  revert np. induction l as [|[k' v'] l IH]; intros np; simpl.
  { by rewrite lookup_empty. }
  intros [Hk' Hl]%NoDup_cons. rewrite IH by done. rewrite addAny_Values.
  destruct (decide (k' = k)) as [->|Hne].
  - rewrite lookup_insert_eq.
    assert ((list_to_map l : gmap string anyval) !! k = None) as ->.
    { by apply not_elem_of_list_to_map_1. }
    simpl. destruct (fieldOf v'); [|done]. unfold Values_Set. by rewrite lookup_insert_eq.
  - rewrite lookup_insert_ne by done.
    destruct (_ ≫= fieldOf); [done|].
    destruct (fieldOf v'); [|done]. unfold Values_Set. by rewrite lookup_insert_ne.
Qed.

Lemma addAll_from_Files (l : list (string * anyval)) np :
  Files (foldl (fun np kv => addAny np kv.1 kv.2) np l)
  = (Files np ++ mjoin ((fun kv => filesOf kv.1 kv.2) <$> l))%list.
Proof.
  revert np. induction l as [|[k v] l IH]; intros np; simpl.
  { by rewrite app_nil_r. }
  by rewrite IH, addAny_Files, <-(assoc_L (++)).
Qed.

Lemma addAll_lookup (m : gmap string anyval) l k :
  l ≡ₚ map_to_list m ->
  Values (addAll l) !! k = (fun s => [s]) <$> (m !! k ≫= fieldOf).
Proof.
  intros Hl. unfold addAll. rewrite addAll_from_lookup.
  - assert ((list_to_map l : gmap string anyval) = m) as ->.
    { rewrite <-(list_to_map_to_list m). apply list_to_map_proper; [|done].
      rewrite Hl. apply NoDup_fst_map_to_list. }
    simpl. rewrite lookup_empty. by destruct (_ ≫= fieldOf).
  - rewrite Hl. apply NoDup_fst_map_to_list.
Qed.

Lemma encode_MapAny_addAll (m : gmap string anyval) :
  map_fold (fun k val np => addAny np k val) {| Values := ∅; Files := [] |} m
  = addAll (reverse (map_to_list m)).
Proof.
  rewrite map_fold_foldr. unfold addAll.
  induction (map_to_list m) as [|[k v] l IH]; [done|].
  rewrite reverse_cons, foldl_app. simpl. by rewrite IH.
Qed.

Lemma encode_MapAny_lookup (m : gmap string anyval) k :
  Values (map_fold (fun k val np => addAny np k val) {| Values := ∅; Files := [] |} m) !! k
  = (fun s => [s]) <$> (m !! k ≫= fieldOf).
Proof.
  rewrite encode_MapAny_addAll. apply addAll_lookup, reverse_Permutation.
Qed.

(** X1.  The canonical form of a key/value map does not depend on the
    order in which its entries are visited: whatever that order, the
    fields are the same, the field of a key is read off the value at that
    key alone, and the attachments are the same up to their order. *)
Theorem map_encoding_is_entrywise `{Wire} (m : gmap string anyval) (l : list (string * anyval))
    (enc : normalizedParams) :
  l ≡ₚ map_to_list m ->
  encodeParams (PMapAny m) = Ok enc ->
  Values (addAll l) = Values enc
  /\ Files (addAll l) ≡ₚ Files enc
  /\ (forall k, Values enc !! k = (fun s => [s]) <$> (m !! k ≫= fieldOf))
  /\ (forall f, f ∈ Files enc <-> exists k v, m !! k = Some v /\ f ∈ filesOf k v).
Proof.
  intros Hl [= <-]. unfold emptyParams. rewrite encode_MapAny_addAll.
  assert (reverse (map_to_list m) ≡ₚ map_to_list m) as Hrev by apply reverse_Permutation.
  split; [|split; [|split]].
  - apply map_eq. intros k. by rewrite !(addAll_lookup m).
  - unfold addAll. rewrite !addAll_from_Files. simpl. by rewrite Hl, Hrev.
  - intros k. by apply addAll_lookup.
  - intros f. unfold addAll. rewrite addAll_from_Files. simpl.
    rewrite list_elem_of_join. setoid_rewrite list_elem_of_fmap. split.
    + intros (fs & Hf & ([k v] & -> & Hkv)). exists k, v. split; [|done].
      rewrite Hrev in Hkv. by apply elem_of_map_to_list.
    + intros (k & v & Hkv & Hf). exists (filesOf k v). split; [done|].
      exists (k, v). split; [done|]. rewrite Hrev. by apply elem_of_map_to_list.
Qed.

Section MoreParams.
Context `{Wire}.

Lemma encode_Values_lookup (v : url_Values) k :
  map_fold joinValues (∅ : url_Values) v !! k
  = match v !! k with
    | Some (x :: xs) => Some [Join (x :: xs) "|"]
    | _ => None
    end.
Proof.
  revert k.
  apply (map_fold_weak_ind
           (fun r m => forall k, r !! k = match m !! k with
                                          | Some (x :: xs) => Some [Join (x :: xs) "|"]
                                          | _ => None
                                          end)).
  - intros k. by rewrite !lookup_empty.
  - intros i vs m r Hi IH k. destruct (decide (i = k)) as [->|Hne].
    + rewrite lookup_insert_eq. destruct vs as [|x xs]; simpl.
      * by rewrite IH, Hi.
      * unfold Values_Set. by rewrite lookup_insert_eq.
    + rewrite lookup_insert_ne by done. destruct vs as [|x xs]; simpl; [apply IH|].
      unfold Values_Set. rewrite lookup_insert_ne by done. apply IH.
Qed.

(** X2.  A url.Values, or the values go-querystring derives from a struct,
    are encoded key by key: a key with values carries them joined with a
    vertical bar as its single value, a key with an empty list is dropped,
    and there are no attachments. *)
Theorem value_lists_are_joined (p : Params) (v : url_Values) (enc : normalizedParams) :
  p = PValues v \/ p = PStruct (Ok v) ->
  encodeParams p = Ok enc ->
  Files enc = []
  /\ forall k, Values enc !! k = match v !! k with
                                 | Some (x :: xs) => Some [Join (x :: xs) "|"]
                                 | _ => None
                                 end.
Proof.
  intros [-> | ->]; simpl; intros [= <-]; simpl; (split; [done|]);
    intros k; apply encode_Values_lookup.
Qed.

Lemma applyDefaults_nonempty v k d :
  defaultOf k = Some d -> Values_Get (applyDefaults v) k ≠ "".
Proof.
  intros Hd. rewrite applyDefaults_Get, Hd. case_bool_decide; [|done].
  unfold defaultOf in Hd. repeat case_bool_decide; by simplify_eq.
Qed.

Lemma applyDefaults_idemp v : applyDefaults (applyDefaults v) = applyDefaults v.
Proof.
  unfold applyDefaults at 1. cbv zeta.
  rewrite (setDefaultIfMissing_kept _ "action") by by eapply applyDefaults_nonempty.
  rewrite (setDefaultIfMissing_kept _ "format") by by eapply applyDefaults_nonempty.
  rewrite (setDefaultIfMissing_kept _ "formatversion") by by eapply applyDefaults_nonempty.
  by rewrite (setDefaultIfMissing_kept _ "errorformat") by by eapply applyDefaults_nonempty.
Qed.

Lemma encode_singleValued (v : url_Values) :
  singleValued v -> map_fold joinValues (∅ : url_Values) v = v.
Proof.
  intros Hv. apply map_eq. intros k. rewrite encode_Values_lookup.
  destruct (v !! k) as [vs|] eqn:Hk; [|done].
  destruct (Hv _ _ Hk) as [x ->]. done.
Qed.

(** X3.  Normalising is idempotent on the fields: the fields of a
    normalised result, passed again as a url.Values, come back unchanged. *)
Theorem normalizeParams_idempotent (p : Params) (np : normalizedParams) :
  normalizeParams p = Ok np ->
  normalizeParams (PValues (Values np)) = Ok {| Values := Values np; Files := [] |}.
Proof.
  intros Hnp. pose proof (singleValued_normalizeParams _ _ Hnp) as Hsv.
  apply normalizeParams_inv in Hnp as (enc & _ & ->). simpl in *.
  unfold normalizeParams. simpl. rewrite (encode_singleValued _ Hsv).
  by rewrite applyDefaults_idemp.
Qed.

(** X4.  In a normalised result every field carries exactly one value, and
    the four default fields are present and not empty. *)
Theorem normalized_fields_invariant (p : Params) (np : normalizedParams) :
  normalizeParams p = Ok np ->
  singleValued (Values np)
  /\ forall k d, defaultOf k = Some d ->
                 exists x, Values np !! k = Some [x] /\ x ≠ "".
Proof.
  intros Hnp. pose proof (singleValued_normalizeParams _ _ Hnp) as Hsv.
  split; [done|]. intros k d Hd.
  apply normalizeParams_inv in Hnp as (enc & _ & ->). simpl in *.
  pose proof (applyDefaults_nonempty (Values enc) k d Hd) as Hne.
  destruct (applyDefaults (Values enc) !! k) as [vs|] eqn:Hk.
  - pose proof (singleValued_Get _ _ _ Hsv Hk) as ->. by eexists.
  - exfalso. apply Hne. unfold Values_Get. by rewrite Hk.
Qed.

(** X5.  Normalising fails in two cases only: an argument of an
    unsupported type, and a struct that go-querystring cannot encode, whose
    error is passed on.  Nil, a nil pointer, a url.Values and the two kinds
    of map never fail. *)
Theorem normalizeParams_failures (p : Params) (e : error) :
  normalizeParams p = Err e
  <-> (exists t, p = POther t /\ e = Errorf ("unsupported params type: " +:+ t))
      \/ p = PStruct (Err e).
Proof.
  unfold normalizeParams. split.
  - destruct p as [|v|v|v| |[v|e']|t]; simpl; try done.
    + intros [= ->]. by right.
    + intros [= <-]. left. by exists t.
  - intros [(t & -> & ->)| ->]; done.
Qed.

End MoreParams.

(** ** client.go: requests *)

Lemma Values_Add_all (out : url_Values) k vs k' :
  foldl (fun out v => Values_Add out k v) out vs !! k'
  = if decide (k = k') then
      match vs with
      | [] => out !! k
      | _ => Some (default [] (out !! k) ++ vs)%list
      end
    else out !! k'.
Proof.
  revert out. induction vs as [|v vs IH]; intros out; simpl.
  { by destruct (decide (k = k')) as [->|]. }
  rewrite IH. unfold Values_Add. destruct (decide (k = k')) as [->|Hne].
  - rewrite lookup_insert_eq. simpl. destruct vs; simpl; [done|].
    by rewrite <-(assoc_L (++)).
  - by rewrite lookup_insert_ne.
Qed.

Lemma mergeQuery_base (base : url_Values) omitKeys k :
  map_fold (fun k vs out =>
              if omittedKey omitKeys k then out
              else foldl (fun out v => Values_Add out k v) out vs) (∅ : url_Values) base !! k
  = if omittedKey omitKeys k then None
    else match base !! k with
         | Some (y :: ys) => Some (y :: ys)
         | _ => None
         end.
Proof.
  revert k.
  apply (map_fold_weak_ind
           (fun (r : url_Values) (m : url_Values) =>
              forall k, r !! k = if omittedKey omitKeys k then None
                                 else match m !! k with
                                      | Some (y :: ys) => Some (y :: ys)
                                      | _ => None
                                      end)).
  - intros k. rewrite !lookup_empty. by destruct (omittedKey _ _).
  - intros i vs m r Hi IH k. destruct (omittedKey omitKeys i) eqn:Hom.
    + rewrite IH. destruct (decide (i = k)) as [->|Hne].
      * by rewrite Hom.
      * by rewrite lookup_insert_ne.
    + rewrite Values_Add_all. destruct (decide (i = k)) as [->|Hne].
      * rewrite Hom, lookup_insert_eq, IH, Hom, Hi. by destruct vs.
      * rewrite lookup_insert_ne by done. apply IH.
Qed.

Lemma mergeQuery_lookup (base overlay : url_Values) omitKeys k :
  mergeQuery base overlay omitKeys !! k
  = if omittedKey omitKeys k then None
    else match overlay !! k with
         | Some (x :: _) => Some [x]
         | _ => match base !! k with
                | Some (y :: ys) => Some (y :: ys)
                | _ => None
                end
         end.
Proof.
  change (mergeQuery base overlay omitKeys)
    with (map_fold (fun k vs out =>
                      if omittedKey omitKeys k then out
                      else match vs with
                           | v :: _ => Values_Set out k v
                           | [] => out
                           end)
                   (map_fold (fun k vs out =>
                                if omittedKey omitKeys k then out
                                else foldl (fun out v => Values_Add out k v) out vs)
                             (∅ : url_Values) base) overlay).
  revert k.
  apply (map_fold_weak_ind
           (fun (r : url_Values) (m : url_Values) =>
              forall k, r !! k = if omittedKey omitKeys k then None
                                 else match m !! k with
                                      | Some (x :: _) => Some [x]
                                      | _ => match base !! k with
                                             | Some (y :: ys) => Some (y :: ys)
                                             | _ => None
                                             end
                                      end)).
  - intros k. rewrite lookup_empty. apply mergeQuery_base.
  - intros i vs m r Hi IH k. destruct (omittedKey omitKeys i) eqn:Hom.
    + rewrite IH. destruct (decide (i = k)) as [->|Hne].
      * by rewrite Hom.
      * by rewrite lookup_insert_ne.
    + destruct (decide (i = k)) as [->|Hne].
      * rewrite Hom, lookup_insert_eq. destruct vs as [|x xs].
        -- by rewrite IH, Hom, Hi.
        -- unfold Values_Set. by rewrite lookup_insert_eq.
      * rewrite lookup_insert_ne by done. destruct vs as [|x xs]; [apply IH|].
        unfold Values_Set. rewrite lookup_insert_ne by done. apply IH.
Qed.

(** X6.  In the merged query a key on the omit list is absent; otherwise a
    key of the overlay with at least one value carries the first of them as
    its single value, and any other key keeps all the values it has in the
    base, a key without values being dropped. *)
Theorem mergeQuery_overlay_wins (base overlay : url_Values) (omitKeys : option (gset string))
    (k : string) :
  (omittedKey omitKeys k = true -> mergeQuery base overlay omitKeys !! k = None)
  /\ (omittedKey omitKeys k = false ->
      (forall x xs, overlay !! k = Some (x :: xs) ->
                    mergeQuery base overlay omitKeys !! k = Some [x])
      /\ (overlay !! k = None \/ overlay !! k = Some [] ->
          mergeQuery base overlay omitKeys !! k
          = match base !! k with
            | Some (y :: ys) => Some (y :: ys)
            | _ => None
            end)).
Proof.
  rewrite mergeQuery_lookup. split.
  - by intros ->.
  - intros ->. split.
    + by intros x xs ->.
    + by intros [-> | ->].
Qed.

Section MoreTransport.
Context `{Wire}.

(** X7.  A GET request is always built: it has no body, the attachments of
    the parameters are left out, and its query holds every field of the
    parameters with its value, then the keys of the endpoint's own query
    that the parameters do not set, with all their values. *)
Theorem get_request_shape (c : Client) (np : normalizedParams) :
  exists req,
    buildRequest c MethodGet np = Ok req
    /\ buildRequest c MethodGet {| Values := Values np; Files := [] |} = Ok req
    /\ ReqMethod req = "GET" /\ ReqBody req = NoBody /\ ReqUserAgent req = ua c
    /\ (forall k x, Values np !! k = Some [x] -> ReqQuery req !! k = Some [x])
    /\ (forall k, Values np !! k = None ->
                  ReqQuery req !! k = match UQuery (endpoint c) !! k with
                                      | Some (y :: ys) => Some (y :: ys)
                                      | _ => None
                                      end).
Proof.
  eexists. split; [reflexivity|]. split; [reflexivity|]. simpl.
  split; [done|]. split; [done|]. split; [done|]. split.
  - intros k x Hk. by rewrite mergeQuery_lookup, Hk.
  - intros k Hk. by rewrite mergeQuery_lookup, Hk.
Qed.

Lemma multipartFiles_Ok (fs : list fileField) :
  Forall (fun f => readErr (FReader (FFile f)) = None) fs ->
  multipartFiles fs
  = Ok ((fun f => (Field f, if bool_decide (Filename (FFile f) = "") then Field f
                            else Filename (FFile f))) <$> fs).
Proof.
  induction 1 as [|f fs Hf _ IH]; simpl; [done|]. by rewrite Hf, IH.
Qed.

Lemma multipartFiles_Err (fs1 fs2 : list fileField) f msg :
  Forall (fun f => readErr (FReader (FFile f)) = None) fs1 ->
  readErr (FReader (FFile f)) = Some msg ->
  multipartFiles (fs1 ++ f :: fs2) = Err (ExternalError msg).
Proof.
  induction 1 as [|f1 fs1 Hf1 _ IH]; simpl; intros Hf.
  - by rewrite Hf.
  - by rewrite Hf1, IH.
Qed.

Lemma readers_split (fs : list fileField) :
  Forall (fun f => readErr (FReader (FFile f)) = None) fs
  \/ exists fs1 f fs2 msg,
       fs = (fs1 ++ f :: fs2)%list
       /\ Forall (fun f => readErr (FReader (FFile f)) = None) fs1
       /\ readErr (FReader (FFile f)) = Some msg.
Proof.
  induction fs as [|f fs IH]; [by left|].
  destruct (readErr (FReader (FFile f))) as [msg|] eqn:Hf.
  - right. by exists [], f, fs, msg.
  - destruct IH as [IH|(fs1 & f' & fs2 & msg & -> & Hfs1 & Hf')].
    + left. by constructor.
    + right. exists (f :: fs1), f', fs2, msg. split; [done|]. split; [|done].
      by constructor.
Qed.

(** X8.  A POST request, whose attachments each carry a reader, fails to
    build exactly when one of the readers fails, with the error of the
    first such reader.
    Otherwise the body is the urlencoded fields when there is no
    attachment, and a multipart form when there is one: the fields, then one
    part per attachment in their order, named after the file or, without a
    file name, after the field. *)
Theorem post_request_shape (c : Client) (np : normalizedParams) :
  match buildRequest c MethodPost np with
  | Err e =>
      exists fs1 f fs2 msg,
        Files np = (fs1 ++ f :: fs2)%list
        /\ Forall (fun f => readErr (FReader (FFile f)) = None) fs1
        /\ readErr (FReader (FFile f)) = Some msg
        /\ e = ExternalError msg
  | Ok req =>
      Forall (fun f => readErr (FReader (FFile f)) = None) (Files np)
      /\ ReqMethod req = "POST" /\ ReqUserAgent req = ua c
      /\ match Files np with
         | [] => ReqBody req = FormBody (Values np)
                 /\ ReqContentType req = "application/x-www-form-urlencoded"
         | _ =>
             ReqBody req
             = MultipartBody (multipartFields (Values np))
                 ((fun f => (Field f, if bool_decide (Filename (FFile f) = "") then Field f
                                      else Filename (FFile f))) <$> Files np)
             /\ ReqContentType req = "multipart/form-data"
         end
  end.
Proof.
  unfold buildRequest. rewrite bool_decide_eq_false_2 by done. cbv zeta.
  destruct (readers_split (Files np)) as [Hall|(fs1 & f & fs2 & msg & Heq & Hfs1 & Hf)].
  - rewrite (multipartFiles_Ok _ Hall).
    destruct (Files np) as [|f0 fs0]; simpl; by repeat split.
  - assert (multipartFiles (Files np) = Err (ExternalError msg)) as ->.
    { rewrite Heq. by apply multipartFiles_Err. }
    destruct (Files np) as [|f0 fs0]; [by destruct fs1|].
    by exists fs1, f, fs2, msg.
Qed.

End MoreTransport.

(** ** client.go: construction *)

Section MoreConstruct.
Context `{Wire}.

Lemma exportedOption_keeps (o : option Option) (c c' : Client) :
  exportedOption o ->
  c' = match o with Some f => f c | None => c end ->
  endpoint c' = endpoint c /\ tokens c' = tokens c
  /\ loggedInUser c' = loggedInUser c /\ loginUser c' = loginUser c
  /\ loginPass c' = loginPass c
  /\ (ua c ≠ "" -> ua c' ≠ "")
  /\ ((0 <= reloginRetry c)%Z -> (0 <= reloginRetry c')%Z)
  /\ ((0 < tokenRetry c)%Z -> (0 < tokenRetry c')%Z).
Proof.
  destruct 1 as [| |v|v|v|n|n]; intros ->; simpl; try by repeat split.
  - unfold WithUserAgent. case_bool_decide; simpl; by repeat split.
  - unfold WithReloginRetry. destruct (0 <=? n)%Z eqn:Hn; simpl; repeat split; try done.
    intros _. lia.
  - unfold WithTokenRetry. destruct (0 <? n)%Z eqn:Hn; simpl; repeat split; try done.
    intros _. lia.
Qed.

Lemma exportedOptions_keep (opts : list (option Option)) (c c' : Client) :
  Forall exportedOption opts ->
  c' = foldl (fun c opt => match opt with Some f => f c | None => c end) c opts ->
  endpoint c' = endpoint c /\ tokens c' = tokens c
  /\ loggedInUser c' = loggedInUser c /\ loginUser c' = loginUser c
  /\ loginPass c' = loginPass c
  /\ (ua c ≠ "" -> ua c' ≠ "")
  /\ ((0 <= reloginRetry c)%Z -> (0 <= reloginRetry c')%Z)
  /\ ((0 < tokenRetry c)%Z -> (0 < tokenRetry c')%Z).
Proof.
  intros Hopts. revert c. induction Hopts as [|o opts Ho _ IH]; intros c; simpl.
  { intros ->. by repeat split. }
  intros Hc'.
  destruct (IH _ Hc') as (E1 & E2 & E3 & E4 & E5 & Hua & Hre & Htok).
  destruct (exportedOption_keeps o c _ Ho eq_refl)
    as (F1 & F2 & F3 & F4 & F5 & Hua' & Hre' & Htok').
  split_and!; [by rewrite E1|by rewrite E2|by rewrite E3|by rewrite E4|by rewrite E5|auto..].
Qed.

(** X9.  Constructing a client fails exactly when the endpoint does not
    parse, has no scheme or host, or has a path that does not end in
    api.php.  Otherwise, whatever exported options are given, the client
    has that endpoint, a non-empty user agent, a replay budget that is not
    negative, a positive token retry budget, an empty token cache and no
    login state. *)
Theorem NewClient_validates_and_bounds (parsed : res URL) (text : string)
    (opts : list (option Option)) :
  Forall exportedOption opts ->
  match NewClient parsed text opts with
  | Ok c =>
      parsed = Ok (endpoint c) /\ wellFormed c
      /\ tokens c = ∅ /\ loggedInUser c = "" /\ loginUser c = "" /\ loginPass c = ""
  | Err e =>
      parsed = Err e
      \/ exists u,
           parsed = Ok u
           /\ (((Scheme u = "" \/ Host u = "")
                /\ e = Errorf ("invalid endpoint URL (expect full URL): " +:+ text))
               \/ (Scheme u ≠ "" /\ Host u ≠ "" /\ HasSuffix (Path u) "api.php" = false
                   /\ e = Errorf ("invalid endpoint path (expect .../api.php): " +:+ Path u)))
  end.
Proof.
  intros Hopts. unfold NewClient. destruct parsed as [u|e]; [|by left].
  destruct (decide (Scheme u = "")) as [Hs|Hs].
  { rewrite (bool_decide_eq_true_2 _ Hs). simpl.
    right. exists u. split; [done|]. left. split; [|done]. by left. }
  destruct (decide (Host u = "")) as [Hh|Hh].
  { rewrite (bool_decide_eq_true_2 _ Hh), orb_true_r.
    right. exists u. split; [done|]. left. split; [|done]. by right. }
  rewrite (bool_decide_eq_false_2 _ Hs), (bool_decide_eq_false_2 _ Hh). simpl.
  destruct (HasSuffix (Path u) "api.php") eqn:Hp; simpl.
  2:{ right. exists u. split; [done|]. by right. }
  match goal with |- context [foldl ?f ?c0 opts] =>
    destruct (exportedOptions_keep opts c0 _ Hopts eq_refl)
      as (Hend & -> & -> & -> & -> & Hua & Hre & Htok)
  end.
  simpl in *. unfold wellFormed. rewrite Hend. simpl.
  split_and!; auto; try done; [apply Hre|apply Htok]; lia.
Qed.

End MoreConstruct.

(** ** client.go and errors.go: API errors *)

Section MoreErrors.
Context `{Wire}.

Lemma responseApiError_code (r : Response) :
  match responseApiError r with
  | None => Error (Env r) = None /\ Errors (Env r) = []
  | Some a => responseErrorCode (Some r) ≠ "" -> ECode a = responseErrorCode (Some r)
  end.
Proof.
  unfold responseApiError, responseErrorCode.
  destruct (Error (Env r)) as [e|], (Errors (Env r)) as [|e0 es]; simpl; try done.
  intros Hc. by rewrite bool_decide_eq_false_2.
Qed.

Lemma responseApiError_Response (r : Response) (a : MediaWikiApiError) :
  responseApiError r = Some a -> EResponse a = Some r /\ EHTTPStatus a = StatusCode r.
Proof.
  unfold responseApiError.
  destruct (Error (Env r)) as [e|], (Errors (Env r)) as [|e0 es]; simpl; try done;
    by intros [= <-].
Qed.

(** X10.  The error built from a response: there is none exactly when the
    envelope has neither an error nor a list of errors.  Otherwise its
    message and its text are not empty, it carries the HTTP status and the
    response, its list is the error followed by the list, and its code is
    the code the token and assertion checks read from the response,
    whenever that code is not empty. *)
Theorem responseApiError_spec (r : Response) :
  match responseApiError r with
  | None => Error (Env r) = None /\ Errors (Env r) = []
  | Some a =>
      (is_Some (Error (Env r)) \/ Errors (Env r) ≠ [])
      /\ EMessage a ≠ "" /\ MediaWikiApiError_Error a ≠ ""
      /\ EHTTPStatus a = StatusCode r /\ EResponse a = Some r
      /\ EErrors a = (option_list (Error (Env r)) ++ Errors (Env r))%list
      /\ (responseErrorCode (Some r) ≠ "" -> ECode a = responseErrorCode (Some r))
  end.
Proof.
  assert (forall code msg, msg ≠ "" ->
            (if bool_decide (code = "") then msg
             else if bool_decide (msg = "") then code else code +:+ ": " +:+ msg) ≠ "")
    as Htext.
  { intros code msg Hmsg. case_bool_decide; [done|]. rewrite bool_decide_eq_false_2 by done.
    destruct code; [done|]. done. }
  assert (forall m, (if bool_decide (m = "") then "MediaWiki API error" else m) ≠ "")
    as Hmsg.
  { intros m. by case_bool_decide. }
  unfold responseApiError, responseErrorCode, MediaWikiApiError_Error.
  destruct (Error (Env r)) as [e|] eqn:He, (Errors (Env r)) as [|e0 es] eqn:Hes; simpl;
    [| |done|].
  - split; [by left|]. split; [apply Hmsg|]. split; [apply Htext, Hmsg|]. done.
  - split; [by left|]. split; [apply Hmsg|]. split; [apply Htext, Hmsg|].
    split; [done|]. split; [done|]. split; [done|].
    intros Hc. by rewrite bool_decide_eq_false_2.
  - split; [by right|]. split; [apply Hmsg|]. split; [apply Htext, Hmsg|]. done.
Qed.

(** X11.  Reporting API errors as Go errors loses no retry: a response
    that the token check, or the assertion check, classifies as a failure
    when it is returned without error is classified the same way when it
    is returned with the error built from it; and, when the code read from
    the response is not empty, the converse holds too. *)
Theorem strict_mode_keeps_retries (r : Response) :
  (is_Some (tokenFailure (Some r, None)) ->
   exists a, responseApiError r = Some a
             /\ tokenFailure (Some r, Some (ApiError a)) = Some (ApiError a))
  /\ (is_Some (assertionFailure (Some r, None)) ->
      exists a, responseApiError r = Some a
                /\ assertionFailure (Some r, Some (ApiError a)) = Some (ApiError a))
  /\ (responseErrorCode (Some r) ≠ "" ->
      exists a, responseApiError r = Some a
                /\ (is_Some (tokenFailure (Some r, Some (ApiError a)))
                    <-> is_Some (tokenFailure (Some r, None)))
                /\ (is_Some (assertionFailure (Some r, Some (ApiError a)))
                    <-> is_Some (assertionFailure (Some r, None)))).
Proof.
  assert (ToLower "" = "") as Hlow by by rewrite ToLower_ascii.
  assert (isTokenErrorCode "" = false) as Htok0.
  { unfold isTokenErrorCode. by rewrite Hlow. }
  assert (isAssertUserFailedCode "" = false) as Has0.
  { unfold isAssertUserFailedCode. by rewrite Hlow. }
  assert (responseErrorCode (Some r) ≠ "" ->
          exists a, responseApiError r = Some a /\ ECode a = responseErrorCode (Some r)) as Hcode.
  { intros Hc. pose proof (responseApiError_code r) as Hspec.
    destruct (responseApiError r) as [a|]; [exists a; split; [done|by apply Hspec]|].
    destruct Hspec as [He Hes]. exfalso. apply Hc. simpl. by rewrite He, Hes. }
  split; [|split].
  - unfold tokenFailure. cbv beta iota zeta.
    destruct (isTokenErrorCode (responseErrorCode (Some r))) eqn:Htok; [|by intros [? [=]]].
    intros _. destruct Hcode as (a & Ha & Hca).
    { intros Hc. rewrite Hc in Htok. congruence. }
    exists a. split; [done|]. unfold isTokenError. cbn [IsMediaWikiApiError].
    by rewrite Hca, Htok.
  - unfold assertionFailure. cbv beta iota zeta.
    destruct (isAssertUserFailedCode (responseErrorCode (Some r))) eqn:Has; [|by intros [? [=]]].
    intros _. destruct Hcode as (a & Ha & Hca).
    { intros Hc. rewrite Hc in Has. congruence. }
    exists a. split; [done|]. cbn [IsMediaWikiApiError]. rewrite Hca, Has.
    rewrite bool_decide_eq_false_2; [done|].
    intros Hc. rewrite Hc in Has. congruence.
  - intros Hc. destruct (Hcode Hc) as (a & Ha & Hca). exists a. split; [done|].
    unfold tokenFailure, assertionFailure, isTokenError.
    cbv beta iota zeta. cbn [IsMediaWikiApiError]. rewrite Hca.
    rewrite (bool_decide_eq_false_2 _ Hc). cbn [negb andb].
    split.
    + destruct (isTokenErrorCode (responseErrorCode (Some r)));
        split; intros [? Heq]; try discriminate Heq; by eexists.
    + destruct (isAssertUserFailedCode (responseErrorCode (Some r)));
        split; intros [? Heq]; try discriminate Heq; by eexists.
Qed.

End MoreErrors.

(** ** The engine: sending *)

Section MoreEngine.
Context `{Wire} `{!Codec} `{!Network}.

(** What [doOnce] does, written out. *)
Lemma doOnce_eq method np w :
  doOnce method np w
  = match buildRequest (client w) method np with
    | Err e => Done (None, Some e) w
    | Ok req =>
        let w1 := {| client := client w; heap := heap w;
                     server := (serve (server w) req).1;
                     history := (history w ++ [EvHttp req (serve (server w) req).2])%list |} in
        match (serve (server w) req).2 with
        | NetErr canceled msg => Done (None, Some (TransportError canceled msg)) w1
        | NetReply status header body =>
            let resp := {| StatusCode := status; Header := header;
                           Env := unmarshalEnvelope body; RawBody := body |} in
            if throwOnApiError (client w) then
              match responseApiError resp with
              | Some apiErr => Done (Some resp, Some (ApiError apiErr)) w1
              | None => Done (Some resp, None) w1
              end
            else Done (Some resp, None) w1
        end
    end.
Proof.
  unfold doOnce, bind, getClient. destruct (buildRequest _ _ _) as [req|e]; [|done].
  unfold roundTrip. destruct (serve (server w) req) as [s [canceled msg|status header body]];
    simpl; [done|].
  destruct (throwOnApiError _); [|done]. by destruct (responseApiError _).
Qed.

Lemma doOnce_total method np w : exists out w1, doOnce method np w = Done out w1.
Proof.
  rewrite doOnce_eq. destruct (buildRequest _ _ _) as [req|e]; [|by eauto].
  cbv zeta. destruct (serve _ _).2; [by eauto|].
  destruct (throwOnApiError _); [|by eauto]. destruct (responseApiError _); by eauto.
Qed.

(** X12.  What a single send returns.  Without error there is a response.
    An API error is returned only by a client that reports them, together
    with the response it was built from; a client that does not report
    them returns every response that arrived without error.  Otherwise the
    error is a transport failure or the failure of an attachment's reader,
    and there is no response. *)
Theorem doOnce_results (method : string) (np : normalizedParams) (w : World)
    (out : RespErr) (w1 : World) :
  doOnce method np w = Done out w1 ->
  client w1 = client w /\ heap w1 = heap w
  /\ match out.2 with
     | None =>
         exists r, out.1 = Some r
                   /\ (throwOnApiError (client w) = true -> responseApiError r = None)
     | Some (ApiError a) =>
         throwOnApiError (client w) = true
         /\ exists r, out.1 = Some r /\ responseApiError r = Some a /\ EResponse a = Some r
     | Some e =>
         out.1 = None
         /\ ((exists canceled msg, e = TransportError canceled msg)
             \/ (exists msg, e = ExternalError msg /\ server w1 = server w
                             /\ history w1 = history w))
     end.
Proof.
  rewrite doOnce_eq. destruct (buildRequest _ _ _) as [req|e] eqn:Hreq.
  - cbv zeta. destruct (serve _ _).2 as [canceled msg|status header body].
    + intros [= <- <-]. simpl. repeat split; try done. left. by eauto.
    + destruct (throwOnApiError _) eqn:Hthrow.
      * destruct (responseApiError _) as [a|] eqn:Ha.
        -- intros [= <- <-]. simpl. repeat split; try done. eexists. split; [done|].
           split; [done|]. by apply responseApiError_Response in Ha as [-> _].
        -- intros [= <- <-]. simpl. repeat split; try done. by eexists.
      * intros [= <- <-]. simpl. repeat split; try done. by eexists.
  - intros [= <- <-]. apply buildRequest_Err in Hreq as [msg ->].
    repeat split; try done. right. by exists msg.
Qed.

Lemma doLoop_S_budget (maxRelogin : Z) :
  (0 <= maxRelogin)%Z ->
  exists n, Z.to_nat (maxRelogin + 1) = S n.
Proof. intros. exists (Z.to_nat maxRelogin). lia. Qed.

Lemma histories_requests (evs1 evs2 : list Event) :
  requestsOf (evs1 ++ evs2) = (requestsOf evs1 ++ requestsOf evs2)%list.
Proof. unfold requestsOf. apply omap_app. Qed.

(** X13.  Relogin without stored credentials: when the stored user name or
    the stored password is empty, the call returns its fixed error without
    sending anything, whatever the state of the client. *)
Theorem Relogin_without_credentials (fuel : nat) (w : World) :
  loginUser (client w) = "" \/ loginPass (client w) = "" ->
  exists w',
    Relogin fuel w = Done (Some (Errorf "relogin requested but no stored credentials")) w'
    /\ client w' = client w /\ heap w' = heap w /\ server w' = server w
    /\ requestsOf (history w') = requestsOf (history w).
Proof.
  intros Hcreds. eexists. split.
  - unfold Relogin, traceRelogin, ReloginF, bind, getClient.
    assert (bool_decide (loginUser (client w) = "") || bool_decide (loginPass (client w) = "")
            = true) as ->.
    { destruct Hcreds as [Hu|Hp].
      - by rewrite (bool_decide_eq_true_2 _ Hu).
      - by rewrite (bool_decide_eq_true_2 _ Hp), orb_true_r. }
    reflexivity.
  - simpl. repeat split. by rewrite histories_requests, app_nil_r.
Qed.

(** X14.  An outcome of the first send that is not an assertion failure is
    the result of the call, in the state the send left: one request, no
    relogin, nothing retried. *)
Theorem do_returns_first_outcome (fuel : nat) (method : string) (p : Params) (opt : doOptions)
    (w : World) (np : normalizedParams) (out : RespErr) (w1 : World) :
  normalizeParams p = Ok np ->
  (0 <= (if skipRelogin opt then 0 else reloginRetry (client w)))%Z ->
  doOnce method (injectAssert (client w) opt np) w = Done out w1 ->
  assertionFailure out = None ->
  do (S fuel) method p opt w = Done out w1.
Proof.
  intros Hnp Hbudget Hout Hnone. rewrite do_S, (doF_eq _ _ _ _ _ _ Hnp). cbv zeta.
  destruct (doLoop_S_budget _ Hbudget) as [n ->].
  by apply doLoop_stop.
Qed.

(** X15.  A call that cannot send returns at once and changes nothing:
    parameters that cannot be normalised, and an attachment whose reader
    fails, give the error back with no response, no request and no relogin. *)
Theorem unsendable_request_changes_nothing (fuel : nat) (method : string) (p : Params)
    (opt : doOptions) (w : World) (e : error) :
  normalizeParams p = Err e
  \/ (exists np, normalizeParams p = Ok np
                 /\ buildRequest (client w) method (injectAssert (client w) opt np) = Err e
                 /\ (0 <= (if skipRelogin opt then 0 else reloginRetry (client w)))%Z) ->
  do (S fuel) method p opt w = Done (None, Some e) w.
Proof.
  intros [Hp|(np & Hnp & Hreq & Hbudget)].
  - rewrite do_S. unfold doF. by rewrite Hp.
  - rewrite do_S, (doF_eq _ _ _ _ _ _ Hnp). cbv zeta.
    destruct (doLoop_S_budget _ Hbudget) as [n ->].
    apply doLoop_stop.
    + by rewrite doOnce_eq, Hreq.
    + apply buildRequest_Err in Hreq as [msg ->]. done.
Qed.

(** X16.  A transport failure is returned after the one request that met
    it: the call does not send again and does not log in again, and the
    client is as before. *)
Theorem transport_failure_is_not_retried (fuel : nat) (method : string) (p : Params)
    (opt : doOptions) (w : World) (np : normalizedParams) (req : HttpRequest)
    (s : Srv) (canceled : bool) (msg : string) :
  normalizeParams p = Ok np ->
  (0 <= (if skipRelogin opt then 0 else reloginRetry (client w)))%Z ->
  buildRequest (client w) method (injectAssert (client w) opt np) = Ok req ->
  serve (server w) req = (s, NetErr canceled msg) ->
  do (S fuel) method p opt w
  = Done (None, Some (TransportError canceled msg))
         {| client := client w; heap := heap w; server := s;
            history := (history w ++ [EvHttp req (NetErr canceled msg)])%list |}.
Proof.
  intros Hnp Hbudget Hreq Hserve. rewrite do_S, (doF_eq _ _ _ _ _ _ Hnp). cbv zeta.
  destruct (doLoop_S_budget _ Hbudget) as [n ->].
  apply doLoop_stop; [|done].
  by rewrite doOnce_eq, Hreq, Hserve.
Qed.

(** X17.  Without a replay budget (the client's is zero, or the call skips
    relogin) a call is one send: its result is that of the send, with an
    assertion failure turned into the error, and its final state is the
    state the send left, so that no login is attempted. *)
Theorem no_budget_no_relogin (fuel : nat) (method : string) (p : Params) (opt : doOptions)
    (w : World) (np : normalizedParams) :
  normalizeParams p = Ok np ->
  (if skipRelogin opt then 0 else reloginRetry (client w)) = 0%Z ->
  exists out w1,
    doOnce method (injectAssert (client w) opt np) w = Done out w1
    /\ do (S fuel) method p opt w
       = Done (out.1, match assertionFailure out with
                      | Some e => Some e
                      | None => out.2
                      end) w1.
Proof.
  intros Hnp Hbudget.
  destruct (doOnce_total method (injectAssert (client w) opt np) w) as (out & w1 & Hout).
  exists out, w1. split; [done|].
  rewrite do_S, (doF_eq _ _ _ _ _ _ Hnp). cbv zeta. rewrite Hbudget.
  change (Z.to_nat (0 + 1)) with 1%nat.
  destruct (assertionFailure out) as [orig|] eqn:Hfail.
  - by apply doLoop_exhausted.
  - rewrite (doLoop_stop _ _ _ _ _ _ _ _ _ _ Hout Hfail). by destruct out.
Qed.

(** X18.  When the relogin that follows an assertion failure fails, the
    call returns the response of the rejected request with both errors
    joined, the assertion failure first: the error still unwraps to an API
    error whose code is the assertion failure. *)
Theorem failed_relogin_keeps_the_assertion_error (fuel : nat) (method : string) (p : Params)
    (opt : doOptions) (w : World) (np : normalizedParams) (out : RespErr) (w1 : World)
    (orig e2 : error) (w2 : World) :
  normalizeParams p = Ok np ->
  (0 < (if skipRelogin opt then 0 else reloginRetry (client w)))%Z ->
  doOnce method (injectAssert (client w) opt np) w = Done out w1 ->
  assertionFailure out = Some orig ->
  Relogin fuel w1 = Done (Some e2) w2 ->
  do (S fuel) method p opt w = Done (out.1, Some (Joined orig e2)) w2
  /\ exists a, IsMediaWikiApiError (Joined orig e2) = Some a
               /\ IsMediaWikiApiError orig = Some a
               /\ isAssertUserFailedCode (ECode a) = true.
Proof.
  intros Hnp Hbudget Hout Horig Hre. split.
  - rewrite do_S, (doF_eq _ _ _ _ _ _ Hnp). cbv zeta.
    destruct (doLoop_S_budget _ (Z.lt_le_incl _ _ Hbudget)) as [n ->].
    by rewrite (doLoop_relogin _ _ _ _ _ _ _ _ _ _ _ _ _ Hout Horig Hbudget Hre).
  - destruct out as [resp [e|]]; simpl in Horig.
    + destruct (IsMediaWikiApiError e) as [a|] eqn:Ha; [|done].
      destruct (negb _ && isAssertUserFailedCode (ECode a)) eqn:Hcode; [|done].
      injection Horig as <-. exists a. simpl. rewrite Ha.
      by apply andb_true_iff in Hcode as [_ ->].
    + destruct (isAssertUserFailedCode (responseErrorCode resp)) eqn:Hcode; [|done].
      destruct resp as [r0|]; [|done]. injection Horig as <-.
      eexists. simpl. split; [done|]. split; [done|]. exact Hcode.
Qed.

(** ** The engine: what every operation keeps *)

Lemma Step_Preserved w w' : Step w w' -> Preserved w w'.
Proof.
  intros (evs & (Hh & _ & _ & Hcfg & Hcache) & _ & Hheap).
  split; [done|]. split; [done|]. split; [by exists evs|]. intros l _. by rewrite Hheap.
Qed.

Lemma StepBy_Preserved evs w w' :
  StepBy evs w w' ->
  (forall l, l ∈ dom (heap w) -> heap w' !! l = heap w !! l) ->
  Preserved w w'.
Proof.
  intros (Hh & _ & _ & Hcfg & Hcache) Hheap.
  split; [done|]. split; [done|]. split; [by exists evs|]. done.
Qed.

(** X19.  No operation on a client changes what construction fixed
    (endpoint, user agent, the two flags and the two budgets), puts an
    empty token into the cache, rewrites the history of what was sent, or
    touches a parameter map the caller holds; so a client that left the
    constructor well formed stays so. *)
Theorem operations_preserve (fuel : nat) (op : Op) (w : World) (res : OpResult) (w' : World) :
  runOp fuel op w = Done res w' ->
  Preserved w w' /\ (wellFormed (client w) -> wellFormed (client w')).
Proof.
  intros Hrun. assert (Preserved w w') as Hpres; [|split; [done|]].
  2:{ destruct Hpres as (Hcfg & _). unfold config in Hcfg. unfold wellFormed.
      by injection Hcfg as -> -> _ _ -> ->. }
  destruct op; simpl in Hrun; apply bind_Done in Hrun as (r & w1 & Hr & [= <- <-]).
  - eapply Step_Preserved, steps_Get, Hr.
  - eapply Step_Preserved, steps_Post, Hr.
  - eapply Step_Preserved, steps_GetToken, Hr.
  - eapply Step_Preserved, steps_InvalidateToken, Hr.
  - eapply Step_Preserved, steps_InvalidateAllTokens, Hr.
  - apply PostWithToken_spec in Hr as (evs & Hs & Hheap & _). by eapply StepBy_Preserved.
  - eapply Step_Preserved, steps_Login, Hr.
  - eapply Step_Preserved, steps_Relogin_fuel, Hr.
  - rewrite Logout_eq in Hr.
    destruct (PostWithToken _ _ _ _ _) as [[resp err] w2| |] eqn:Hpost; [|done..].
    apply PostWithToken_spec in Hpost as (evs & (Hh & _ & _ & Hcfg & Hcache) & Hheap & _).
    assert (forall l, l ∈ dom (heap w) -> heap w2 !! l = heap w !! l) as Hframe.
    { intros l Hl. rewrite Hheap.
      - simpl. rewrite lookup_insert_ne; [done|]. intros <-.
        by apply (is_fresh (dom (heap w))).
      - simpl. rewrite dom_insert. set_solver. }
    destruct err as [e|]; injection Hr as <- <-.
    + split; [done|]. split; [done|]. split; [by exists evs|]. done.
    + split; [done|]. split; [|split; [by exists evs|done]].
      intros _ k v. simpl. by rewrite lookup_empty.
Qed.

(** ** The engine: calls that return *)

Lemma returnsFrom_bind {A B} I (Q : A -> Prop) (m : M A) (k : A -> M B) :
  returnsIn I Q m -> (forall a, Q a -> returnsFrom I (k a)) -> returnsFrom I (bind m k).
Proof.
  intros Hm Hk w Hw. destruct (Hm w Hw) as (a & w1 & Hr1 & Hw1 & Ha).
  destruct (Hk a Ha w1 Hw1) as (b & w2 & Hr2).
  exists b, w2. by rewrite (bind_eq _ _ _ _ _ Hr1).
Qed.

Lemma returnsFrom_ret {A} I (a : A) : returnsFrom I (ret a).
Proof. intros w _. by exists a, w. Qed.

Lemma returnsIn_returnsFrom {A} I (Q : A -> Prop) (m : M A) :
  returnsIn I Q m -> returnsFrom I m.
Proof. intros Hm w Hw. destruct (Hm w Hw) as (a & w' & Hr & _). by exists a, w'. Qed.

Lemma returnsFrom_LoginLoop fuel n lastErr user pass :
  returnsFrom noCreds (LoginLoop (Post (S fuel)) n lastErr user pass).
Proof.
  revert lastErr. induction n as [|n IH]; intros lastErr; simpl.
  { apply returnsFrom_ret. }
  eapply returnsFrom_bind; [apply returnsIn_InvalidateToken|]. intros _ _.
  eapply returnsFrom_bind; [apply (returnsIn_GetToken fuel TokenLogin)|].
  intros [tok [e|]] _; [apply returnsFrom_ret|].
  eapply returnsFrom_bind; [apply returnsIn_do|]. intros [resp [e|]] Hres.
  - destruct (isTokenError e); [apply IH|apply returnsFrom_ret].
  - assert (is_Some resp) as [r ->] by (by apply Hres).
    destruct (unmarshalLogin _) as [out|e]; [|apply returnsFrom_ret].
    destruct (bool_decide (_ = "success")).
    { intros w _. by eexists _, _. }
    destruct (_ || _); [apply IH|].
    destruct (negb _); apply returnsFrom_ret.
Qed.

Lemma returnsFrom_Login fuel user pass : returnsFrom noCreds (Login (S fuel) user pass).
Proof.
  unfold Login, traceLogin. intros w Hw.
  destruct (returnsFrom_LoginLoop fuel (Z.to_nat (tokenRetry (client w))) None user pass w Hw)
    as (r & w1 & Hr).
  eexists _, _. unfold LoginF, bind, getClient. by rewrite Hr.
Qed.

(** X20.  On a client without a stored user name, and with a replay budget
    that is not negative, every operation returns, whatever the server
    answers: a call never nests deeper than one level. *)
Theorem operations_return_without_credentials (fuel : nat) (op : Op) (w : World) :
  noCreds w ->
  exists res w', runOp (S fuel) op w = Done res w'.
Proof.
  intros Hw.
  assert (forall A (m : M A) (f : A -> OpResult),
            returnsFrom noCreds m -> exists res w', bind m (fun r => ret (f r)) w = Done res w')
    as Hwrap.
  { intros A m f Hm. destruct (Hm w Hw) as (a & w' & Hr).
    exists (f a), w'. by rewrite (bind_eq _ _ _ _ _ Hr). }
  destruct op; simpl; apply Hwrap.
  - eapply returnsIn_returnsFrom, returnsIn_do.
  - eapply returnsIn_returnsFrom, returnsIn_do.
  - eapply returnsIn_returnsFrom, returnsIn_GetToken.
  - eapply returnsIn_returnsFrom, returnsIn_InvalidateToken.
  - eapply returnsIn_returnsFrom. by apply returnsIn_updClient.
  - eapply returnsIn_returnsFrom, returnsIn_PostWithToken.
  - apply returnsFrom_Login.
  - eapply returnsIn_returnsFrom, returnsIn_Relogin.
  - eapply returnsIn_returnsFrom, returnsIn_Logout.
Qed.

(** ** The engine: tokens and logins *)

Lemma InvalidateToken_eq tokenType w :
  InvalidateToken tokenType w = Done tt (withoutToken tokenType w).
Proof. reflexivity. Qed.

Lemma withoutToken_uncached tokenType w :
  default "" (tokens (client (withoutToken tokenType w)) !! tokenType) = "".
Proof. simpl. by rewrite lookup_delete_eq. Qed.

(** An uncached fetch that returns has sent the token request first. *)
Lemma GetToken_uncached_first fuel tokenType w r wb :
  default "" (tokens (client w) !! tokenType) = "" ->
  GetToken fuel tokenType w = Done r wb ->
  exists req, firstRequestAfter (history w) wb req /\ tokenFetch tokenType req.
Proof.
  intros Hun Hget. unfold GetToken in Hget. rewrite (GetTokenF_uncached _ _ _ Hun) in Hget.
  destruct (Post fuel (tokenRequest tokenType) w) as [[resp err] w1| |] eqn:Hpost; [|done..].
  assert ((resp, err) ≠ (None, None)) as Hne.
  { intros [= -> ->]. done. }
  destruct (token_request_sent _ _ _ _ _ Hpost Hne) as (req & res & rest & Hh & Hreq).
  assert (history wb = history w1) as Hwb.
  { destruct resp as [rsp|], err as [e|]; try done; try by injection Hget as <- <-.
    destruct (extractToken _ _); by injection Hget as <- <-. }
  exists req. split; [|done]. exists res, rest. by rewrite Hwb.
Qed.

Lemma firstRequestAfter_grows h w1 w' req evs :
  firstRequestAfter h w1 req -> history w' = (history w1 ++ evs)%list ->
  firstRequestAfter h w' req.
Proof.
  intros (res & rest & Hh) Hw'. exists res, (rest ++ evs)%list.
  by rewrite Hw', Hh, <-(assoc_L (++)).
Qed.

Section LoopHeads.
Variable getToken : TokenType -> M (string * option error).
Variable post : Params -> M RespErr.
Hypothesis steps_getToken : forall k, steps (getToken k).
Hypothesis steps_post : forall p, steps (post p).

(** The first round of the loop of [Login]: the login token is dropped
    from the cache and fetched; what follows only adds to the history. *)
Lemma LoginLoop_first n lastErr user pass w r w' :
  LoginLoop post (S n) lastErr user pass w = Done r w' ->
  exists tok err wb evs,
    GetTokenF post TokenLogin (withoutToken TokenLogin w) = Done (tok, err) wb
    /\ history w' = (history wb ++ evs)%list.
Proof.
  simpl. rewrite (bind_eq _ _ _ _ _ (InvalidateToken_eq TokenLogin w)).
  intros ([tok err] & wb & Hget & Hrun)%bind_Done.
  exists tok, err, wb.
  assert (loginOk user pass
            (fun w => match err with
                      | Some e => ret (None, Some e) w
                      | None =>
                          bind (post (loginRequest user pass tok))
                               (fun '(resp, err) =>
                                  match err with
                                  | Some e =>
                                      if isTokenError e then LoginLoop post n (Some e) user pass
                                      else ret (None, Some e)
                                  | None =>
                                      match resp with
                                      | None => panic
                                      | Some r =>
                                          match unmarshalLogin (RawBody r) with
                                          | Err e => ret (None, Some e)
                                          | Ok out =>
                                              let result := ToLower (Result out) in
                                              if bool_decide (result = "success") then
                                                bind (updClient (setLogin user pass (LgName out)))
                                                  (fun _ => bind InvalidateAllTokens
                                                              (fun _ => ret (Some out, None)))
                                              else if bool_decide (result = "needtoken")
                                                      || bool_decide (result = "wrongtoken") then
                                                LoginLoop post n
                                                  (Some (Errorf ("login token error: "
                                                                 +:+ Result out)))
                                                  user pass
                                              else if negb (bool_decide (Reason out = "")) then
                                                ret (Some out,
                                                     Some (Errorf ("login failed: "
                                                                   +:+ Result out +:+ " ("
                                                                   +:+ Reason out +:+ ")")))
                                              else
                                                ret (Some out,
                                                     Some (Errorf ("login failed: "
                                                                   +:+ Result out)))
                                          end
                                      end
                                  end) w
                      end)) as Hok.
  { destruct err as [e|]; [apply loginOk_ret_err|].
    apply loginOk_bind; [apply steps_post|]. intros [resp [e|]].
    { destruct (isTokenError e); [by apply loginOk_LoginLoop|apply loginOk_ret_err]. }
    destruct resp as [r0|]; [|apply loginOk_panic].
    destruct (unmarshalLogin _) as [out|e]; [|apply loginOk_ret_err].
    cbv zeta. case_bool_decide as Hsucc; [by apply loginOk_success|].
    destruct (_ || _); [by apply loginOk_LoginLoop|].
    destruct (negb _); apply loginOk_ret_err. }
  destruct (Hok wb r w') as (evs & Hh & _).
  { by destruct err. }
  by exists evs.
Qed.

(** The first round of the loop of [PostWithToken]: the token is dropped
    from the cache after a failed attempt or when the cache is bypassed; it
    is then obtained and written into the copy of the arguments, which is
    posted; what follows only adds to the history. *)
Lemma PostWithTokenLoop_first n attempt lastErr tokenType tokenName noCache p2 w r w' :
  PostWithTokenLoop getToken (fun args => traceAttempt (post args))
                    (S n) attempt lastErr tokenType tokenName noCache p2 w = Done r w' ->
  exists tok err wb,
    getToken tokenType (if (0 <? attempt)%Z || noCache then withoutToken tokenType w else w)
    = Done (tok, err) wb
    /\ match err with
       | Some e => r = (None, Some e) /\ w' = wb
       | None =>
           let args := <[tokenName := VString tok]> (default ∅ (heap wb !! p2)) in
           exists out we evs,
             post (PMapAny args)
                  {| client := client wb; heap := <[p2 := args]> (heap wb);
                     server := server wb; history := history wb |}
             = Done out we
             /\ history w' = (history we ++ evs)%list
       end.
Proof.
  simpl. intros ([] & wa & Ha & Hrun)%bind_Done.
  assert (wa = if (0 <? attempt)%Z || noCache then withoutToken tokenType w else w) as ->.
  { destruct (_ || _); [rewrite InvalidateToken_eq in Ha|unfold ret in Ha];
      by injection Ha as <-. }
  clear Ha. apply bind_Done in Hrun as ([tok err] & wb & Hb & Hrun).
  exists tok, err, wb. split; [done|].
  destruct err as [e|]; [by injection Hrun as <- <-|].
  apply bind_Done in Hrun as ([] & wc & Hc & Hrun). injection Hc as <-.
  apply bind_Done in Hrun as (args & wd & Hd & Hrun). injection Hd as <- <-.
  simpl in Hrun. rewrite lookup_insert_eq in Hrun. simpl in Hrun.
  apply bind_Done in Hrun as ([resp err] & wf & Hf & Hrun).
  apply bind_Done in Hf as (out & we & He & Hf). injection Hf as -> <-.
  cbv zeta. exists (resp, err), we.
  assert (forall lastErr',
            PostWithTokenLoop getToken (fun args => traceAttempt (post args))
              n (attempt + 1) lastErr' tokenType tokenName noCache p2
              {| client := client we; heap := heap we; server := server we;
                 history := (history we ++ [EvAttempt (resp, err)])%list |} = Done r w' ->
            exists evs, history w' = (history we ++ evs)%list) as Hgo.
  { intros lastErr' (evs & (Hh & _) & _)%PostWithTokenLoop_spec; [|done..].
    exists ([EvAttempt (resp, err)] ++ evs)%list. rewrite Hh. simpl.
    by rewrite <-(assoc_L (++)). }
  assert (w' = {| client := client we; heap := heap we; server := server we;
                  history := (history we ++ [EvAttempt (resp, err)])%list |} ->
          exists evs, history w' = (history we ++ evs)%list) as Hstop.
  { intros ->. by eexists. }
  assert (exists evs, history w' = (history we ++ evs)%list) as [evs Hevs]; [|by exists evs].
  unfold logEvent in Hrun. simpl in Hrun.
  destruct err as [e|].
  - destruct (isTokenError e); [by eapply Hgo|]. apply Hstop. by injection Hrun as <- <-.
  - destruct (isTokenErrorCode _).
    + destruct resp as [r0|]; [|done]. by eapply Hgo.
    + apply Hstop. by injection Hrun as <- <-.
Qed.

End LoopHeads.

(** X21.  Login never uses a cached login token: with a positive retry
    budget, the first request of a call that returns asks for a fresh
    login token, whatever the cache held. *)
Theorem Login_fetches_fresh_token (fuel : nat) (user pass : string) (w : World)
    (r : option LoginResult * option error) (w' : World) :
  (0 < tokenRetry (client w))%Z ->
  Login fuel user pass w = Done r w' ->
  exists req, firstRequestAfter (history w) w' req /\ tokenFetch TokenLogin req.
Proof.
  intros Hretry Hrun. unfold Login, traceLogin in Hrun.
  apply bind_Done in Hrun as (r0 & w1 & Hrun & [= _ <-]).
  unfold LoginF, bind, getClient in Hrun.
  destruct (Z.to_nat (tokenRetry (client w))) as [|n] eqn:Hn; [lia|].
  apply LoginLoop_first in Hrun as (tok & err & wb & evs & Hget & Hh); [|apply steps_Post].
  destruct (GetToken_uncached_first fuel TokenLogin _ _ _
              (withoutToken_uncached TokenLogin w) Hget) as (req & Hfirst & Hreq).
  exists req. split; [|done].
  eapply firstRequestAfter_grows; [exact Hfirst|]. simpl. by rewrite Hh, <-(assoc_L (++)).
Qed.

Lemma map_copy (src : gmap string anyval) :
  map_fold (fun k v m => <[k := v]> m) (∅ : gmap string anyval) src = src.
Proof.
  apply (map_fold_weak_ind (fun r m => r = m)); [done|].
  by intros i x m r _ ->.
Qed.

Lemma PostWithToken_loop fuel tokenType p opt w :
  PostWithToken fuel tokenType p opt w
  = PostWithTokenLoop (GetToken fuel) (fun args => traceAttempt (Post fuel args))
      (Z.to_nat (retryBudget (client w) opt)) 0 None tokenType
      (tokenFieldOf opt) (bypassCache opt) (fresh (dom (heap w)))
      {| client := client w;
         heap := <[fresh (dom (heap w)) := argsOf p w]> (heap w);
         server := server w; history := history w |}.
Proof.
  unfold PostWithToken, PostWithTokenF, bind, getClient, newMap, readMap, updMap. simpl.
  rewrite lookup_insert_eq, insert_insert_eq. simpl.
  assert (forall l, l ∈ dom (heap w) ->
            <[fresh (dom (heap w)) := (∅ : gmap string anyval)]> (heap w) !! l = heap w !! l)
    as Hold.
  { intros l Hl. rewrite lookup_insert_ne; [done|]. intros <-.
    by apply (is_fresh (dom (heap w))). }
  assert (match p with
          | Some l => default ∅ (<[fresh (dom (heap w)) := ∅]> (heap w) !! l)
          | None => ∅
          end
          = match p with
            | Some l => default (∅ : gmap string anyval) (heap w !! l)
            | None => ∅
            end) as ->.
  { destruct p as [l|]; [|done]. destruct (decide (l = fresh (dom (heap w)))) as [->|Hne].
    - rewrite lookup_insert_eq. simpl.
      assert (heap w !! fresh (dom (heap w)) = None) as ->; [|done].
      apply not_elem_of_dom, is_fresh.
    - by rewrite lookup_insert_ne. }
  by rewrite map_copy.
Qed.

Lemma injectAssert_lookup_nonempty c opt np k x :
  Values np !! k = Some [x] -> x ≠ "" -> Values (injectAssert c opt np) !! k = Some [x].
Proof.
  intros Hk Hx. destruct (decide (k = "assertuser")) as [->|Hne].
  - unfold injectAssert. destruct (_ && _); [|done].
    rewrite (Values_Get_lookup _ _ _ Hk), (bool_decide_eq_false_2 _ Hx), andb_false_r. done.
  - by rewrite injectAssert_lookup_ne.
Qed.

Lemma normalize_token_field `{Wire} (args : gmap string anyval) k tok np :
  tok ≠ "" ->
  normalizeParams (PMapAny (<[k := VString tok]> args)) = Ok np ->
  Values np !! k = Some [tok].
Proof.
  intros Htok (enc & [= <-] & ->)%normalizeParams_inv. simpl.
  assert (Values (map_fold (fun k val np => addAny np k val) emptyParams
                           (<[k := VString tok]> args)) !! k = Some [tok]) as Henc.
  { unfold emptyParams. by rewrite encode_MapAny_lookup, lookup_insert_eq. }
  rewrite applyDefaults_lookup_kept; [done|].
  by rewrite (Values_Get_lookup _ _ _ Henc).
Qed.

(** X22.  With a token in the cache and the cache not bypassed, the first
    request of PostWithToken is the write itself, built from the caller's
    entries with the token field set to the cached token: the token
    replaces whatever the caller put in that field, and nothing is fetched
    first. *)
Theorem PostWithToken_sends_cached_token (fuel : nat) (tokenType : TokenType)
    (p : option positive) (opt : option PostWithTokenOptions) (w : World) (tok : string)
    (np : normalizedParams) (req : HttpRequest) (r : RespErr) (w' : World) :
  tokens (client w) !! tokenType = Some tok -> tok ≠ "" ->
  bypassCache opt = false ->
  (0 < retryBudget (client w) opt)%Z ->
  (0 <= reloginRetry (client w))%Z ->
  normalizeParams (PMapAny (<[tokenFieldOf opt := VString tok]> (argsOf p w))) = Ok np ->
  buildRequest (client w) MethodPost (injectAssert (client w) noOptions np) = Ok req ->
  PostWithToken fuel tokenType p opt w = Done r w' ->
  firstRequestAfter (history w) w' req
  /\ bodyValues req (tokenFieldOf opt) = [tok]
  /\ formGet req (tokenFieldOf opt) = tok.
Proof.
  intros Hcached Htok Hbypass Hbudget Hrelogin Hnp Hreq Hrun.
  pose proof (injectAssert_lookup_nonempty (client w) noOptions np _ _
                (normalize_token_field _ _ _ _ Htok Hnp) Htok) as Hfield.
  split; [|split].
  - rewrite PostWithToken_loop in Hrun.
    destruct (Z.to_nat (retryBudget (client w) opt)) as [|n] eqn:Hn; [lia|].
    apply PostWithTokenLoop_first in Hrun as (tok' & err & wb & Hget & Hrest);
      [|apply steps_GetToken|apply steps_Post].
    rewrite Hbypass in Hget. simpl in Hget.
    rewrite (GetToken_cached _ _ _ tok) in Hget by done.
    injection Hget as <- <- <-. cbv zeta in Hrest. simpl in Hrest.
    rewrite lookup_insert_eq in Hrest. simpl in Hrest.
    destruct Hrest as (out & we & evs & Hpost & Hh).
    destruct (do_first_request _ _ _ _ _ _ _ _ _ Hpost Hnp Hreq (or_intror Hrelogin))
      as (res & rest & Hwe).
    exists res, (rest ++ evs)%list. rewrite Hh, Hwe. simpl. by rewrite <-(assoc_L (++)).
  - by eapply post_bodyValues.
  - eapply formGet_sent; [exact Hreq|by right|done].
Qed.

(** X23.  With the cache bypassed, the first request of PostWithToken asks
    for a fresh token, whatever the cache held. *)
Theorem PostWithToken_bypass_fetches_first (fuel : nat) (tokenType : TokenType)
    (p : option positive) (opt : option PostWithTokenOptions) (w : World)
    (r : RespErr) (w' : World) :
  bypassCache opt = true ->
  (0 < retryBudget (client w) opt)%Z ->
  PostWithToken fuel tokenType p opt w = Done r w' ->
  exists req, firstRequestAfter (history w) w' req /\ tokenFetch tokenType req.
Proof.
  intros Hbypass Hbudget Hrun. rewrite PostWithToken_loop in Hrun.
  destruct (Z.to_nat (retryBudget (client w) opt)) as [|n] eqn:Hn; [lia|].
  apply PostWithTokenLoop_first in Hrun as (tok & err & wb & Hget & Hrest);
    [|apply steps_GetToken|apply steps_Post].
  rewrite Hbypass in Hget. simpl in Hget.
  match type of Hget with GetToken _ _ ?w0 = _ =>
    destruct (GetToken_uncached_first fuel tokenType w0 _ _
                (withoutToken_uncached tokenType _) Hget) as (req & Hfirst & Hreq)
  end.
  exists req. split; [|done]. simpl in Hfirst.
  destruct err as [e|].
  - by destruct Hrest as [_ ->].
  - cbv zeta in Hrest. destruct Hrest as (out & we & evs & Hpost & Hh).
    apply steps_Post in Hpost as (evs' & (Hwe & _) & _). simpl in Hwe.
    eapply firstRequestAfter_grows; [exact Hfirst|]. by rewrite Hh, Hwe, <-(assoc_L (++)).
Qed.

Lemma tokenFailure_isTokenError (a : RespErr) (e : error) :
  tokenFailure a = Some e -> isTokenError e = true.
Proof.
  destruct a as [resp [e0|]]; simpl.
  - destruct (isTokenError e0) eqn:Htok; [|done]. by intros [= <-].
  - destruct (isTokenErrorCode _) eqn:Htok; [|done].
    destruct resp as [r0|]; [|done]. intros [= <-]. done.
Qed.

(** X24.  When PostWithToken uses up a positive budget on token errors,
    the error it returns wraps the last of them, and the token check still
    recognises it: a caller can tell an exhausted retry from other
    failures. *)
Theorem exhausted_retries_keep_the_token_error (fuel : nat) (tokenType : TokenType)
    (p : option positive) (opt : option PostWithTokenOptions) (w : World)
    (r : RespErr) (w' : World) (evs : list Event) :
  PostWithToken fuel tokenType p opt w = Done r w' ->
  history w' = (history w ++ evs)%list ->
  (0 < retryBudget (client w) opt)%Z ->
  length (attemptsOf evs) = Z.to_nat (retryBudget (client w) opt) ->
  Forall tokenFailed (attemptsOf evs) ->
  exists a e,
    last (attemptsOf evs) = Some a /\ tokenFailure a = Some e
    /\ r = (None, Some (Wrapf "token retry exhausted" e))
    /\ isTokenError (Wrapf "token retry exhausted" e) = true.
Proof.
  intros Hrun Hh Hbudget Hlen Hall.
  apply PostWithToken_spec in Hrun as (evs' & (Hh' & _) & _ & (_ & _ & Hout)).
  assert (evs' = evs) as ->.
  { rewrite Hh in Hh'. by apply app_inv_head in Hh'. }
  destruct (last (attemptsOf evs)) as [a|] eqn:Hlast.
  2:{ apply last_None in Hlast. rewrite Hlast in Hlen. simpl in Hlen. lia. }
  assert (tokenFailed a) as [e He].
  { rewrite Forall_forall in Hall. apply Hall. by apply last_Some_elem_of. }
  exists a, e. split; [done|]. split; [done|].
  destruct Hout as [(a' & [= <-] & Hnone & _)|[(_ & Hlt & _)|(_ & _ & ->)]].
  - congruence.
  - lia.
  - rewrite He. split; [done|]. by apply tokenFailure_isTokenError in He.
Qed.

(** ** The engine: calls against a sound wiki *)

Lemma noAssertFailure_lenient status header body :
  noAssertFailure (NetReply status header body) ->
  isAssertUserFailedCode
    (responseErrorCode (Some {| StatusCode := status; Header := header;
                                Env := unmarshalEnvelope body; RawBody := body |})) = false.
Proof.
  unfold noAssertFailure, envelopeCodes, responseErrorCode. simpl.
  destruct (Error (unmarshalEnvelope body)) as [e|]; simpl.
  - by intros [? _]%Forall_cons.
  - destruct (Errors (unmarshalEnvelope body)) as [|e0 es]; simpl.
    + intros _. apply isAssertUserFailedCode_empty.
    + by intros [? _]%Forall_cons.
Qed.

Lemma noAssertFailure_strict status header body a :
  noAssertFailure (NetReply status header body) ->
  responseApiError {| StatusCode := status; Header := header;
                      Env := unmarshalEnvelope body; RawBody := body |} = Some a ->
  isAssertUserFailedCode (ECode a) = false.
Proof.
  unfold noAssertFailure, envelopeCodes, responseApiError. simpl.
  destruct (Error (unmarshalEnvelope body)) as [e|],
           (Errors (unmarshalEnvelope body)) as [|e0 es]; simpl; try done.
  - intros [? _]%Forall_cons [= <-]. done.
  - intros [He Hrest]%Forall_cons_1 [= <-]. simpl.
    apply Forall_cons_1 in Hrest as [He0 _]. by case_bool_decide.
  - intros [? _]%Forall_cons [= <-]. simpl. done.
Qed.

Section OnWiki.
Variable J : Srv -> Prop.
Hypothesis wiki : soundWiki J.

Lemma onWiki_doOnce method np :
  returnsIn (onWiki J) someResult (doOnce method np).
Proof.
  intros w [HJ Hre]. rewrite doOnce_eq.
  destruct (buildRequest _ _ _) as [req|e]; [|by eexists _, w].
  cbv zeta. destruct (wiki (server w) req HJ) as [HJ' _].
  destruct (serve (server w) req).2 as [canceled msg|status header body].
  - eexists _, _. split; [done|]. by split.
  - destruct (throwOnApiError _); [destruct (responseApiError _)|];
      (eexists _, _; split; [done|]; split; [by split|]; try done; by intros _; eexists).
Qed.

(** A send of the login handshake is never classified as an assertion
    failure. *)
Lemma onWiki_doOnce_handshake np :
  (Values np !! "action" = Some ["login"]
   \/ (Values np !! "action" = Some ["query"] /\ Values np !! "meta" = Some ["tokens"]
       /\ Values np !! "type" = Some [TokenLogin])) ->
  returnsIn (onWiki J) (fun out => someResult out /\ assertionFailure out = None)
            (doOnce MethodPost np).
Proof.
  intros Hnp w [HJ Hre]. rewrite doOnce_eq.
  destruct (buildRequest _ _ _) as [req|e] eqn:Hreq.
  2:{ eexists _, w. split; [done|]. split; [done|]. split; [done|].
      apply buildRequest_Err in Hreq as [msg ->]. done. }
  assert (handshake req) as Hhs.
  { destruct Hnp as [Ha|(Ha & Hm & Ht)]; [left|right; split_and!];
      (eapply formGet_sent; [exact Hreq|by right|done]). }
  cbv zeta. destruct (wiki (server w) req HJ) as [HJ' Hno]. specialize (Hno Hhs).
  destruct (serve (server w) req).2 as [canceled msg|status header body].
  - eexists _, _. split; [done|]. split; [by split|]. by split.
  - pose proof (noAssertFailure_lenient _ _ _ Hno) as Hlen.
    destruct (throwOnApiError _).
    + destruct (responseApiError _) as [a|] eqn:Ha.
      * eexists _, _. split; [done|]. split; [by split|]. split; [done|].
        simpl. by rewrite (noAssertFailure_strict _ _ _ _ Hno Ha), andb_false_r.
      * eexists _, _. split; [done|]. split; [by split|]. split; [by intros _; eexists|].
        simpl in *. by rewrite Hlen.
    + eexists _, _. split; [done|]. split; [by split|]. split; [by intros _; eexists|].
      simpl in *. by rewrite Hlen.
Qed.

Lemma onWiki_do_handshake fuel p np :
  normalizeParams p = Ok np ->
  (Values np !! "action" = Some ["login"]
   \/ (Values np !! "action" = Some ["query"] /\ Values np !! "meta" = Some ["tokens"]
       /\ Values np !! "type" = Some [TokenLogin])) ->
  returnsIn (onWiki J) someResult (do (S fuel) MethodPost p noOptions).
Proof.
  intros Hnp Hfields w Hw. rewrite do_S, (doF_eq _ _ _ _ _ _ Hnp). cbv zeta.
  destruct (doLoop_S_budget (reloginRetry (client w)) (proj2 Hw)) as [n Hn]. simpl.
  rewrite Hn.
  destruct (onWiki_doOnce_handshake (injectAssert (client w) noOptions np)) with (w := w)
    as (out & w1 & Hout & Hw1 & Hres & Hnone); [|done|].
  { destruct Hfields as [Ha|(Ha & Hm & Ht)]; [left|right; split_and!];
      by rewrite injectAssert_lookup_ne. }
  exists out, w1. split; [|done]. by apply doLoop_stop.
Qed.

Section WithPostOnWiki.
Variable post : Params -> M RespErr.
Hypothesis post_returns : forall p, returnsIn (onWiki J) someResult (post p).

Lemma onWiki_updClient f :
  (forall c, reloginRetry (f c) = reloginRetry c) ->
  returnsIn (onWiki J) (fun _ => True) (updClient f).
Proof.
  intros Hf w [HJ Hre]. eexists tt, _. split; [done|]. split; [|done].
  split; simpl; [done|]. by rewrite Hf.
Qed.

Lemma onWiki_GetTokenF k : returnsIn (onWiki J) (fun _ => True) (GetTokenF post k).
Proof.
  unfold GetTokenF. eapply returnsIn_bind; [apply returnsIn_getClient|]. intros c _.
  destruct (negb _); [by apply returnsIn_ret|].
  eapply returnsIn_bind; [apply returnsIn_getClient|]. intros c' _.
  destruct (negb _); [by apply returnsIn_ret|].
  eapply returnsIn_bind; [apply post_returns|]. intros [resp [e|]] Hres; [by apply returnsIn_ret|].
  assert (is_Some resp) as [r ->] by (by apply Hres).
  destruct (extractToken _ _); [|by apply returnsIn_ret].
  eapply returnsIn_bind; [by apply onWiki_updClient|]. intros; by apply returnsIn_ret.
Qed.

Lemma onWiki_LoginLoop n lastErr user pass :
  returnsIn (onWiki J) (fun _ => True) (LoginLoop post n lastErr user pass).
Proof.
  revert lastErr. induction n as [|n IH]; intros lastErr; simpl.
  { by apply returnsIn_ret. }
  eapply returnsIn_bind; [by apply onWiki_updClient|]. intros _ _.
  eapply returnsIn_bind; [apply onWiki_GetTokenF|].
  intros [tok [e|]] _; [by apply returnsIn_ret|].
  eapply returnsIn_bind; [apply post_returns|]. intros [resp [e|]] Hres.
  - destruct (isTokenError e); [apply IH|by apply returnsIn_ret].
  - assert (is_Some resp) as [r ->] by (by apply Hres).
    destruct (unmarshalLogin _) as [out|e]; [|by apply returnsIn_ret].
    destruct (bool_decide (_ = "success")).
    { eapply returnsIn_bind; [by apply onWiki_updClient|]. intros _ _.
      eapply returnsIn_bind; [by apply onWiki_updClient|]. intros _ _.
      by apply returnsIn_ret. }
    destruct (_ || _); [apply IH|].
    destruct (negb _); by apply returnsIn_ret.
Qed.

Lemma onWiki_logEvent e : returnsIn (onWiki J) (fun _ => True) (logEvent e).
Proof. intros w Hw. eexists tt, _. by split. Qed.

Lemma onWiki_Login user pass :
  returnsIn (onWiki J) (fun _ => True) (traceLogin user pass (LoginF post user pass)).
Proof.
  unfold traceLogin, LoginF.
  eapply returnsIn_bind with (Q := fun _ => True).
  { eapply returnsIn_bind; [apply returnsIn_getClient|]. intros c _. apply onWiki_LoginLoop. }
  intros r _. eapply returnsIn_bind; [apply onWiki_logEvent|]. intros; by apply returnsIn_ret.
Qed.

End WithPostOnWiki.

Lemma onWiki_Post_handshake fuel p :
  p = tokenRequest TokenLogin \/ (exists user pass tok, p = loginRequest user pass tok) ->
  returnsIn (onWiki J) someResult (Post (S fuel) p).
Proof.
  intros [->|(user & pass & tok & ->)].
  - destruct (normalize_tokenRequest TokenLogin) as (v & Hnp & Ha & Hm & Ht & _).
    eapply onWiki_do_handshake; [exact Hnp|]. right. by split_and!.
  - destruct (normalize_loginRequest user pass tok) as (v & Hnp & Ha & _).
    eapply onWiki_do_handshake; [exact Hnp|]. by left.
Qed.

(** The handshake of a relogin returns with one unit of fuel. *)
Lemma onWiki_Relogin fuel : returnsIn (onWiki J) (fun _ => True) (Relogin (S fuel)).
Proof.
  unfold Relogin, traceRelogin. eapply returnsIn_bind with (Q := fun _ => True).
  - unfold ReloginF. eapply returnsIn_bind; [apply returnsIn_getClient|]. intros c _.
    destruct (_ || _); [by apply returnsIn_ret|].
    eapply returnsIn_bind with (Q := fun _ => True); [|intros [? ?] _; by apply returnsIn_ret].
    unfold Login, traceLogin, LoginF.
    eapply returnsIn_bind with (Q := fun _ => True).
    + eapply returnsIn_bind; [apply returnsIn_getClient|]. intros c' _.
      generalize (Z.to_nat (tokenRetry c')) (@None error). intros n.
      induction n as [|n IH]; intros lastErr; simpl.
      { by apply returnsIn_ret. }
      eapply returnsIn_bind; [by apply onWiki_updClient|]. intros _ _.
      eapply returnsIn_bind with (Q := fun _ => True).
      { unfold GetTokenF. eapply returnsIn_bind; [apply returnsIn_getClient|]. intros c1 _.
        destruct (negb _); [by apply returnsIn_ret|].
        eapply returnsIn_bind; [apply returnsIn_getClient|]. intros c2 _.
        destruct (negb _); [by apply returnsIn_ret|].
        eapply returnsIn_bind; [apply onWiki_Post_handshake; by left|].
        intros [resp [e|]] Hres; [by apply returnsIn_ret|].
        assert (is_Some resp) as [r ->] by (by apply Hres).
        destruct (extractToken _ _); [|by apply returnsIn_ret].
        eapply returnsIn_bind; [by apply onWiki_updClient|]. intros; by apply returnsIn_ret. }
      intros [tok [e|]] _; [by apply returnsIn_ret|].
      eapply returnsIn_bind; [apply onWiki_Post_handshake; right; by eauto|].
      intros [resp [e|]] Hres.
      * destruct (isTokenError e); [apply IH|by apply returnsIn_ret].
      * assert (is_Some resp) as [r ->] by (by apply Hres).
        destruct (unmarshalLogin _) as [out|e]; [|by apply returnsIn_ret].
        destruct (bool_decide (_ = "success")).
        { eapply returnsIn_bind; [by apply onWiki_updClient|]. intros _ _.
          eapply returnsIn_bind; [by apply onWiki_updClient|]. intros _ _.
          by apply returnsIn_ret. }
        destruct (_ || _); [apply IH|].
        destruct (negb _); by apply returnsIn_ret.
    + intros r _. eapply returnsIn_bind; [apply onWiki_logEvent|].
      intros; by apply returnsIn_ret.
  - intros err _. eapply returnsIn_bind; [apply onWiki_logEvent|].
    intros; by apply returnsIn_ret.
Qed.

Lemma onWiki_doLoop relogin n attempt maxRelogin lastErr method np :
  returnsIn (onWiki J) (fun _ => True) relogin ->
  (0 < n)%nat \/ is_Some lastErr ->
  returnsIn (onWiki J) someResult (doLoop relogin n attempt maxRelogin lastErr method np).
Proof.
  intros Hre. revert attempt lastErr.
  induction n as [|n IH]; intros attempt lastErr Hn; simpl.
  { destruct Hn as [?|[e ->]]; [lia|]. by apply returnsIn_ret. }
  eapply returnsIn_bind; [apply onWiki_doOnce|]. intros [resp [e|]] Hres.
  - destruct (negb _); [by apply returnsIn_ret|].
    destruct (_ =? _)%Z; [by apply returnsIn_ret|].
    eapply returnsIn_bind; [apply Hre|]. intros [e2|] _; [by apply returnsIn_ret|].
    apply IH. right. by eexists.
  - assert (is_Some resp) as [r ->] by (by apply Hres).
    destruct (_ && _).
    + eapply returnsIn_bind; [apply Hre|]. intros [e2|] _; [by apply returnsIn_ret|].
      apply IH. right. by eexists.
    + destruct (_ && _); apply returnsIn_ret; [done|by intros _; eexists].
Qed.

(** Two units of fuel are enough for any request. *)
Lemma onWiki_do fuel method p opt :
  returnsIn (onWiki J) someResult (do (S (S fuel)) method p opt).
Proof.
  rewrite do_S. unfold doF. destruct (normalizeParams p) as [np|e]; [|by apply returnsIn_ret].
  intros w Hw. unfold bind, getClient.
  apply onWiki_doLoop; [apply onWiki_Relogin| |done].
  left. destruct Hw as [_ Hr]. destruct (skipRelogin opt); lia.
Qed.

Lemma onWiki_PostWithTokenLoop fuel n attempt lastErr tokenType tokenName noCache p2 :
  returnsIn (onWiki J) (fun _ => True)
    (PostWithTokenLoop (GetToken (S (S fuel)))
                       (fun args => traceAttempt (Post (S (S fuel)) args))
                       n attempt lastErr tokenType tokenName noCache p2).
Proof.
  revert attempt lastErr. induction n as [|n IH]; intros attempt lastErr; simpl.
  { by apply returnsIn_ret. }
  eapply returnsIn_bind with (Q := fun _ => True).
  { destruct (_ || _); [by apply onWiki_updClient|by apply returnsIn_ret]. }
  intros _ _. eapply returnsIn_bind; [apply onWiki_GetTokenF; intros; apply onWiki_do|].
  intros [tok [e|]] _; [by apply returnsIn_ret|].
  eapply returnsIn_bind with (Q := fun _ => True).
  { intros w Hw. eexists tt, _. by split. }
  intros _ _. eapply returnsIn_bind with (Q := fun _ => True).
  { intros w Hw. eexists _, w. by split. }
  intros args _. eapply returnsIn_bind with (Q := someResult).
  { unfold traceAttempt. eapply returnsIn_bind; [apply onWiki_do|]. intros r Hr.
    eapply returnsIn_bind; [apply onWiki_logEvent|]. intros; by apply returnsIn_ret. }
  intros [resp [e|]] Hres.
  - destruct (isTokenError e); [apply IH|by apply returnsIn_ret].
  - assert (is_Some resp) as [r ->] by (by apply Hres).
    destruct (isTokenErrorCode _); [apply IH|by apply returnsIn_ret].
Qed.

Lemma onWiki_PostWithToken fuel tokenType p opt :
  returnsIn (onWiki J) (fun _ => True) (PostWithToken (S (S fuel)) tokenType p opt).
Proof.
  intros w Hw. rewrite PostWithToken_loop.
  by apply onWiki_PostWithTokenLoop.
Qed.

(** X25.  Against a wiki that never answers the login handshake (the fetch
    of a login token, and the login itself) with an assertion failure,
    every operation returns, on any client whose replay budget is not
    negative and whatever credentials it stores: a request nests at most
    one relogin, whose own requests are not replayed. *)
Theorem operations_return_on_sound_wikis (fuel : nat) (op : Op) (w : World) :
  J (server w) ->
  (0 <= reloginRetry (client w))%Z ->
  exists res w', runOp (S (S fuel)) op w = Done res w'.
Proof.
  intros HJ Hre. assert (onWiki J w) as Hw by done.
  assert (forall A (Q : A -> Prop) (m : M A) (f : A -> OpResult),
            returnsIn (onWiki J) Q m ->
            exists res w', bind m (fun r => ret (f r)) w = Done res w') as Hwrap.
  { intros A Q m f Hm. destruct (Hm w Hw) as (a & w' & Hr & _).
    exists (f a), w'. by rewrite (bind_eq _ _ _ _ _ Hr). }
  destruct op; cbn [runOp].
  - eapply Hwrap, onWiki_do.
  - eapply Hwrap, onWiki_do.
  - eapply Hwrap, onWiki_GetTokenF. intros; apply onWiki_do.
  - eapply Hwrap. by apply onWiki_updClient.
  - eapply Hwrap. by apply onWiki_updClient.
  - eapply Hwrap, onWiki_PostWithToken.
  - eapply Hwrap, onWiki_Login. intros; apply onWiki_do.
  - eapply Hwrap, onWiki_Relogin.
  - unfold bind. rewrite Logout_eq.
    destruct (onWiki_PostWithToken fuel TokenCSRF (Some (logoutArgs w).1) None (logoutArgs w).2)
      as ([resp err] & w1 & Hpost & _); [done|].
    rewrite Hpost. destruct err; by eexists _, _.
Qed.

End OnWiki.

(** ** The engine: calls against a wiki that rejects everything *)

Lemma doLoop_relogin_stuck relogin n attempt maxRelogin lastErr method np w out w1 orig :
  doOnce method np w = Done out w1 ->
  assertionFailure out = Some orig ->
  (attempt < maxRelogin)%Z ->
  relogin w1 = OutOfFuel ->
  doLoop relogin (S n) attempt maxRelogin lastErr method np w = OutOfFuel.
Proof.
  intros Hout Hsome Hlt Hre. simpl. rewrite (bind_eq _ _ _ _ _ Hout). cbv zeta.
  assert ((attempt <? maxRelogin)%Z = true) as Hltb by lia.
  assert ((attempt =? maxRelogin)%Z = false) as Hneb by lia.
  destruct out as [resp [e|]]; simpl in Hsome.
  - destruct (IsMediaWikiApiError e) as [a|]; [|done].
    destruct (_ && _); [|done]. simpl. rewrite Hneb. unfold bind. by rewrite Hre.
  - destruct (isAssertUserFailedCode (responseErrorCode resp)); [|done].
    destruct resp as [r0|]; [|done]. rewrite Hltb. simpl. unfold bind. by rewrite Hre.
Qed.

Lemma rejects_assertionFailure status header body (strict : bool) :
  rejects (NetReply status header body) ->
  let resp := {| StatusCode := status; Header := header;
                 Env := unmarshalEnvelope body; RawBody := body |} in
  exists orig,
    assertionFailure (if strict then
                        match responseApiError resp with
                        | Some a => (Some resp, Some (ApiError a))
                        | None => (Some resp, None)
                        end
                      else (Some resp, None)) = Some orig.
Proof.
  intros (e & He & Hcode). cbv zeta.
  assert (Code e ≠ "") as Hne.
  { intros Hc. rewrite Hc, isAssertUserFailedCode_empty in Hcode. done. }
  assert (forall resp, resp = {| StatusCode := status; Header := header;
                                  Env := unmarshalEnvelope body; RawBody := body |} ->
                       exists orig, assertionFailure (Some resp, None) = Some orig) as Hlen.
  { intros resp ->. unfold assertionFailure, responseErrorCode. simpl.
    rewrite He, Hcode. by eexists. }
  destruct strict; [|by apply Hlen].
  unfold responseApiError. simpl. rewrite He.
  destruct (Errors (unmarshalEnvelope body)) as [|e0 es]; simpl.
  - rewrite (bool_decide_eq_false_2 _ Hne), Hcode. by eexists.
  - rewrite !(bool_decide_eq_false_2 _ Hne), Hcode. by eexists.
Qed.

Lemma LoginLoop_stuck post n lastErr user pass w :
  post (tokenRequest TokenLogin) (withoutToken TokenLogin w) = OutOfFuel ->
  LoginLoop post (S n) lastErr user pass w = OutOfFuel.
Proof.
  intros Hpost. simpl. rewrite (bind_eq _ _ _ _ _ (InvalidateToken_eq TokenLogin w)).
  unfold bind at 1.
  by rewrite (GetTokenF_uncached _ _ _ (withoutToken_uncached TokenLogin w)), Hpost.
Qed.

Section Rejecting.
Variable J : Srv -> Prop.
Hypothesis wiki : rejectingWiki J.

Lemma rejected_doOnce method np w req :
  J (server w) ->
  buildRequest (client w) method np = Ok req ->
  exists out w1 orig,
    doOnce method np w = Done out w1 /\ assertionFailure out = Some orig
    /\ client w1 = client w /\ J (server w1).
Proof.
  intros HJ Hreq. rewrite doOnce_eq, Hreq. cbv zeta.
  destruct (wiki (server w) req HJ) as [HJ' Hrej].
  destruct (serve (server w) req).2 as [canceled msg|status header body]; [done|].
  destruct (rejects_assertionFailure _ _ _ (throwOnApiError (client w)) Hrej) as [orig Horig].
  cbv zeta in Horig.
  destruct (throwOnApiError (client w)); [destruct (responseApiError _)|];
    by eexists _, _, orig.
Qed.

(** X26.  Against a wiki that answers every request with an assertion
    failure, a call on a client that stores credentials and has both
    budgets positive never returns, however much fuel it is given: the
    relogin it starts fetches a login token, whose rejection starts a
    relogin in turn (in the Go code the nested fetch of the login token
    then waits for the one in flight). *)
Theorem rejected_call_never_returns (method : string) (p : Params) (opt : doOptions)
    (w : World) (np : normalizedParams) :
  armed J w ->
  skipRelogin opt = false ->
  normalizeParams p = Ok np ->
  method = MethodGet \/ Files np = [] ->
  forall fuel, do fuel method p opt w = OutOfFuel.
Proof.
  intros Harmed Hopt Hnp Hbuild fuel.
  revert method p opt w np Harmed Hopt Hnp Hbuild.
  induction fuel as [|fuel IH]; [done|].
  intros method p opt w np (HJ & Hu & Hp & Hre & Htok) Hopt Hnp Hbuild.
  rewrite do_S, (doF_eq _ _ _ _ _ _ Hnp). cbv zeta. rewrite Hopt.
  destruct (doLoop_S_budget (reloginRetry (client w))) as [n ->]; [lia|].
  assert (exists req, buildRequest (client w) method (injectAssert (client w) opt np) = Ok req)
    as [req Hreq].
  { unfold buildRequest. destruct Hbuild as [->|Hfiles].
    - rewrite bool_decide_eq_true_2 by done. by eexists.
    - case_bool_decide; [by eexists|]. rewrite injectAssert_Files, Hfiles. by eexists. }
  destruct (rejected_doOnce _ _ _ _ HJ Hreq) as (out & w1 & orig & Hout & Horig & Hc1 & HJ1).
  eapply doLoop_relogin_stuck; [exact Hout|exact Horig|lia|].
  unfold Relogin, traceRelogin, ReloginF, Login, traceLogin, LoginF, bind, getClient.
  rewrite Hc1, (bool_decide_eq_false_2 _ Hu), (bool_decide_eq_false_2 _ Hp). simpl.
  assert (LoginLoop (Post fuel) (Z.to_nat (tokenRetry (client w1))) None
                    (loginUser (client w)) (loginPass (client w)) w1 = OutOfFuel) as ->; [|done].
  rewrite Hc1. destruct (Z.to_nat (tokenRetry (client w))) as [|m] eqn:Hm; [lia|].
  apply LoginLoop_stuck.
  destruct (normalize_tokenRequest TokenLogin) as (v & Hnp' & _).
  eapply (IH MethodPost (tokenRequest TokenLogin) noOptions); [|done|exact Hnp'|by right].
  split_and!; simpl; by rewrite ?Hc1.
Qed.

End Rejecting.

(** ** The engine: what follows a login and a logout *)

(** X27.  After a Logout that returned no error the session is over for
    the client as well: it asserts no identity on later requests, a
    Relogin fails at once without sending anything, no token is cached,
    and, with a replay budget that is not negative, the client is one of
    those on which every operation returns. *)
Theorem Logout_ends_the_session (fuel : nat) (w w' : World) :
  Logout fuel w = Done None w' ->
  (forall opt np, injectAssert (client w') opt np = np)
  /\ (forall fuel', exists w'',
        Relogin fuel' w' = Done (Some (Errorf "relogin requested but no stored credentials")) w''
        /\ client w'' = client w' /\ server w'' = server w')
  /\ tokens (client w') = ∅
  /\ ((0 <= reloginRetry (client w))%Z -> noCreds w').
Proof.
  intros Hrun. rewrite Logout_eq in Hrun.
  destruct (PostWithToken _ _ _ _ _) as [[resp [e|]] w1| |] eqn:Hpost; try done.
  injection Hrun as <-. split; [|split; [|split]].
  - intros opt np. unfold injectAssert. simpl. by rewrite andb_false_r || destruct (_ && _).
  - intros fuel'. eexists. split.
    { unfold Relogin, traceRelogin, ReloginF, bind, getClient. simpl. reflexivity. }
    done.
  - done.
  - intros Hre. split; [done|]. simpl.
    apply PostWithToken_spec in Hpost as (evs & (_ & _ & _ & Hcfg & _) & _).
    unfold config in Hcfg. simpl in Hcfg. injection Hcfg as _ _ _ _ -> _. done.
Qed.

(** X28.  After a Login that returned no error, a client that keeps the
    login asserts the name the server gave in its answer, not the name
    that was typed: a request that is not exempt and sets no assertion of
    its own carries that name, unless the server gave none. *)
Theorem Login_sets_the_asserted_name (fuel : nat) (user pass : string) (w : World)
    (lr : LoginResult) (w' : World) (np : normalizedParams) :
  Login fuel user pass w = Done (Some lr, None) w' ->
  keepLogin (client w) = true ->
  ~ exemptFromAssert (Values np) ->
  Values_Get (Values np) "assertuser" = "" ->
  injectAssert (client w') noOptions np
  = if bool_decide (LgName lr = "") then np else setValue np "assertuser" (LgName lr).
Proof.
  intros Hrun Hkeep Hex Hnone.
  destruct (steps_Login fuel user pass w _ w' Hrun) as (evs & (_ & _ & _ & Hcfg & _) & _).
  apply Login_success in Hrun as (_ & Hcreds & _).
  unfold config in Hcfg. injection Hcfg as _ _ _ Hk _ _.
  unfold creds in Hcreds. injection Hcreds as _ _ Hname.
  unfold injectAssert. rewrite Hk, Hkeep, Hname, Hnone. simpl.
  destruct (shouldSkipAssert noOptions (Values np)) eqn:Hskip.
  { by apply shouldSkipAssert_spec in Hskip. }
  simpl. rewrite andb_true_r. by case_bool_decide.
Qed.

End MoreEngine.


(** ** demo/main.go *)

Section DemoFacts.
Context `{Wire}.
Variable TrimSpace : string -> string.

(** A line either does nothing, or assigns to one variable a value that
    it sets unless the variable is set. *)
Lemma loadLine_shape text :
  (forall env, loadLine TrimSpace env text = env)
  \/ exists key val,
       forall env, loadLine TrimSpace env text
                   = if bool_decide (is_Some (env !! key)) then env else <[key := val]> env.
Proof.
  unfold loadLine. cbv zeta.
  destruct (_ || _); [by left|].
  destruct (Cut _ _) as [[k v] ok]. destruct ok; simpl; [|by left].
  case_bool_decide as Hkey; [by left|].
  unfold Setenv. destruct (refused _ _) eqn:Hbad.
  - left. intros env. by case_bool_decide.
  - right. by eexists _, _.
Qed.

Lemma loadLine_subseteq env text : env ⊆ loadLine TrimSpace env text.
Proof.
  destruct (loadLine_shape text) as [->|(key & val & ->)]; [done|].
  case_bool_decide as Hset; [done|].
  apply insert_subseteq. by apply eq_None_not_Some.
Qed.

Lemma loadLines_subseteq lines env : env ⊆ foldl (loadLine TrimSpace) env lines.
Proof.
  revert env. induction lines as [|text lines IH]; intros env; simpl; [done|].
  etrans; [apply loadLine_subseteq|apply IH].
Qed.

(** A line that was loaded does nothing when it is loaded again, in any
    later environment. *)
Lemma loadLine_settled env text env' :
  loadLine TrimSpace env text ⊆ env' -> loadLine TrimSpace env' text = env'.
Proof.
  destruct (loadLine_shape text) as [Hid|(key & val & Heq)]; [by rewrite Hid|].
  rewrite !Heq. intros Hsub. rewrite bool_decide_eq_true_2; [done|].
  case_bool_decide as Hset.
  - destruct Hset as [x Hx]. exists x. by eapply lookup_weaken.
  - exists val. eapply lookup_weaken; [|exact Hsub]. apply lookup_insert_eq.
Qed.

Lemma loadLines_settled lines env env' :
  foldl (loadLine TrimSpace) env lines ⊆ env' ->
  foldl (loadLine TrimSpace) env' lines = env'.
Proof.
  revert env env'. induction lines as [|text lines IH]; intros env env' Hsub; simpl; [done|].
  simpl in Hsub. rewrite (loadLine_settled env text env').
  - by eapply IH.
  - etrans; [apply loadLines_subseteq|exact Hsub].
Qed.

(** X29.  Loading a .env file never changes a variable that is set: it
    only adds variables.  A missing file is no error and changes nothing,
    a file that cannot be opened changes nothing, and loading the same
    file again changes nothing more. *)
Theorem loadDotEnv_only_adds (f : DotEnv error) (env env' : Environ) (err : option error) :
  loadDotEnv TrimSpace f env = (env', err) ->
  env ⊆ env'
  /\ (forall key val, env !! key = Some val -> Getenv env' key = val)
  /\ (f = NoSuchFile -> env' = env /\ err = None)
  /\ (forall e, f = OpenFails e -> env' = env /\ err = Some e)
  /\ loadDotEnv TrimSpace f env' = (env', err).
Proof.
  intros Hload.
  assert (env ⊆ env') as Hsub.
  { destruct f; injection Hload as <- <-; try done. apply loadLines_subseteq. }
  split; [done|]. split; [|split; [|split]].
  - intros key val Hkey. unfold Getenv. by rewrite (lookup_weaken _ _ _ _ Hkey Hsub).
  - intros ->. by injection Hload as <- <-.
  - intros e ->. by injection Hload as <- <-.
  - destruct f; injection Hload as <- <-; try done. simpl.
    by rewrite (loadLines_settled lines env).
Qed.

Lemma readConfig_agree env env' :
  (forall key, key ∈ ["MW_API_ENDPOINT"; "MW_USERNAME"; "MW_PASSWORD"] ->
               Getenv env' key = Getenv env key) ->
  readConfigFromEnv TrimSpace env' = readConfigFromEnv TrimSpace env.
Proof.
  intros Hsame. unfold readConfigFromEnv.
  rewrite !Hsame; [done|set_solver..].
Qed.

(** X30.  The process environment takes precedence over the file: when
    the three variables of the demo are set in the environment, the
    configuration it reads is the one it would read without any file.  A
    configuration that is read has no empty field. *)
Theorem environment_overrides_dotenv (f : DotEnv error) (env : Environ) :
  (forall key, key ∈ ["MW_API_ENDPOINT"; "MW_USERNAME"; "MW_PASSWORD"] -> is_Some (env !! key)) ->
  demoConfig TrimSpace f env = readConfigFromEnv TrimSpace env
  /\ forall cfg, demoConfig TrimSpace f env = Ok cfg ->
                 Endpoint cfg ≠ "" /\ Username cfg ≠ "" /\ Password cfg ≠ "".
Proof.
  intros Hset. unfold demoConfig.
  destruct (loadDotEnv TrimSpace f env) as [env' err] eqn:Hload. simpl.
  assert (env ⊆ env') as Hsub.
  { destruct f; injection Hload as <- <-; try done. apply loadLines_subseteq. }
  assert (readConfigFromEnv TrimSpace env' = readConfigFromEnv TrimSpace env) as ->.
  { apply readConfig_agree. intros key [val Hkey]%Hset.
    unfold Getenv. by rewrite (lookup_weaken _ _ _ _ Hkey Hsub), Hkey. }
  split; [done|]. intros cfg. unfold readConfigFromEnv. cbv zeta. simpl.
  repeat case_bool_decide; simpl; try done. by intros [= <-].
Qed.

End DemoFacts.

(** * Runs on the simulated wiki *)

Section Runs.
#[local] Existing Instance Sim.wire.
#[local] Existing Instance Sim.codec.
#[local] Existing Instance Sim.network.

Lemma ran {A} (w : World) (d : A) (r : Run A) :
  Sim.returned r = true -> r = Done (Sim.outcome w d r).1 (Sim.outcome w d r).2.
Proof. by destruct r. Defined.

(** ** The tests of client_test.go *)

(** TestPostWithToken_RetryOnBadToken: two token fetches and two edits, the
    second edit with the refreshed token, which stays cached. *)
Example TestPostWithToken_RetryOnBadToken :
  let w := Sim.startWith Sim.newClient Sim.badTokenServer Sim.editArgs in
  let out := Sim.outcome w (None, None) (PostWithToken 5 TokenCSRF (Some 1%positive) None w) in
  PostWithToken 5 TokenCSRF (Some 1%positive) None w = Done out.1 out.2
  /\ out.1.2 = None
  /\ Sim.fieldsSeen "action" (history out.2) = ["query"; "edit"; "query"; "edit"]
  /\ Sim.fieldsSeen "token" (history out.2) = [""; "CSRF_1"; ""; "CSRF_2"]
  /\ tokens (client out.2) !! "csrf" = Some "CSRF_2".
Proof. split; [apply ran|repeat split]; vm_compute; reflexivity. Qed.

(** TestKeepLogin_ReloginOnAssertUserFailed: after a login, a query that is
    rejected once with assertuserfailed makes one relogin and is sent
    twice, both times asserting UserA. *)
Example TestKeepLogin_ReloginOnAssertUserFailed :
  let w := Sim.start Sim.newClient (Sim.droppedSessionServer "UserA" "UserA") in
  let out1 := Sim.outcome w (None, None) (Login 5 "UserA" "pass" w) in
  let out2 := Sim.outcome w (None, None) (Post 5 Sim.queryArgs out1.2) in
  Login 5 "UserA" "pass" w = Done out1.1 out1.2
  /\ out1.1.2 = None
  /\ Post 5 Sim.queryArgs out1.2 = Done out2.1 out2.2
  /\ out2.1.2 = None
  /\ Sim.fieldsSeen "action" (history out2.2)
     = ["query"; "login"; "query"; "query"; "login"; "query"]
  /\ Sim.fieldsSeen "assertuser" (history out2.2) = [""; ""; "UserA"; ""; ""; "UserA"]
  /\ reloginsOf (history out2.2) = [None].
Proof.
  split; [apply ran; vm_compute; reflexivity|].
  split; [vm_compute; reflexivity|].
  split; [apply ran; vm_compute; reflexivity|].
  repeat split; vm_compute; reflexivity.
Qed.

(** ** C1 *)

(** C1, counterexample.  A client logged in as UserA with a cached csrf
    token logs out while the network is down: Logout returns the transport
    error, and the credentials, the current user and the cached token are
    all still there. *)
Lemma Logout_failed_remote_keeps_login :
  let w := Sim.start Sim.loggedIn (Sim.deadServer false) in
  let out := Sim.outcome w None (Logout 3 w) in
  Logout 3 w = Done out.1 out.2
  /\ out.1 = Some (TransportError false "connection refused")
  /\ loggedInUser (client out.2) = "UserA"
  /\ loginUser (client out.2) = "UserA"
  /\ loginPass (client out.2) = "pass"
  /\ tokens (client out.2) !! "csrf" = Some "T0".
Proof. split; [apply ran|repeat split]; vm_compute; reflexivity. Qed.

Lemma Logout_clears_witness :
  let w := Sim.start Sim.loggedIn Sim.okServer in
  let a := logoutArgs w in
  let o := Sim.outcome w (None, None) (PostWithToken 3 TokenCSRF (Some a.1) None a.2) in
  PostWithToken 3 TokenCSRF (Some a.1) None a.2 = Done (o.1.1, None) o.2
  /\ exists w', Logout 3 w = Done None w'
                /\ loggedInUser (client w') = "" /\ tokens (client w') = ∅.
Proof.
  intros w a o.
  assert (PostWithToken 3 TokenCSRF (Some a.1) None a.2 = Done o.1 o.2) as Hpost
    by (apply ran; vm_compute; reflexivity).
  assert (o.1 = (o.1.1, None)) as Ho by (vm_compute; reflexivity).
  rewrite Ho in Hpost.
  split; [exact Hpost|].
  destruct (Logout_clears_after_remote_success 3 w) as (_ & Hforward & _).
  destruct (Hforward _ _ _ Hpost) as (w' & Hrun & Hu & _ & _ & Ht & _).
  exists w'. split; [exact Hrun|]. split; [exact Hu|exact Ht].
Defined.

(** ** C2 *)

(** C2, counterexample.  The caller passes format as the empty text: the
    field is present, with that value, after the per-field encoding, and
    normalization replaces it by the default json. *)
Lemma defaults_overwrite_empty_text :
  let p := PMapString {[ "format" := "" ]} in
  let enc := Sim.fromOk emptyParams (encodeParams p) in
  let np := Sim.fromOk emptyParams (normalizeParams p) in
  encodeParams p = Ok enc
  /\ Values enc !! "format" = Some [""]
  /\ normalizeParams p = Ok np
  /\ Values np !! "format" = Some ["json"].
Proof. repeat split; vm_compute; reflexivity. Qed.

Lemma defaults_fill_witness :
  let p := PMapString {[ "action" := "edit" ]} in
  let enc := Sim.fromOk emptyParams (encodeParams p) in
  let np := Sim.fromOk emptyParams (normalizeParams p) in
  encodeParams p = Ok enc
  /\ normalizeParams p = Ok np
  /\ Values_Get (Values np) "action" = "edit"
  /\ Values_Get (Values np) "format" = "json".
Proof.
  intros p enc np.
  assert (encodeParams p = Ok enc) as Henc by (vm_compute; reflexivity).
  assert (normalizeParams p = Ok np) as Hnp by (vm_compute; reflexivity).
  split; [exact Henc|]. split; [exact Hnp|].
  destruct (defaults_fill_absent_or_empty p enc np "action" Henc Hnp) as (_ & Ha & _).
  destruct (defaults_fill_absent_or_empty p enc np "format" Henc Hnp) as (_ & Hf & _).
  split.
  - rewrite (Ha "query" eq_refl). vm_compute. reflexivity.
  - rewrite (Hf "json" eq_refl). vm_compute. reflexivity.
Defined.

(** ** C3 and C10 *)


Lemma PostWithToken_keeps_caller_map_witness :
  let w := Sim.startWith Sim.newClient Sim.badTokenServer Sim.editArgs in
  let out := Sim.outcome w (None, None) (PostWithToken 5 TokenCSRF (Some 1%positive) None w) in
  PostWithToken 5 TokenCSRF (Some 1%positive) None w = Done out.1 out.2
  /\ heap out.2 !! 1%positive = Some Sim.editArgs.
Proof.
  intros w out.
  assert (PostWithToken 5 TokenCSRF (Some 1%positive) None w = Done out.1 out.2) as Hrun
    by (apply ran; vm_compute; reflexivity).
  split; [exact Hrun|].
  destruct (PostWithToken_keeps_caller_map 5 TokenCSRF (Some 1%positive) None w _ _ Hrun)
    as (Hsame & _).
  apply (Hsame 1%positive Sim.editArgs eq_refl). vm_compute. reflexivity.
Defined.

(** ** C4 *)



(** ** C5 *)

Lemma login_state_witness :
  let w := Sim.start Sim.newClient (Sim.droppedSessionServer "UserA" "UserA") in
  let out := Sim.outcome w RNone (runOp 5 (OpLogin "UserA" "pass") w) in
  runOp 5 (OpLogin "UserA" "pass") w = Done out.1 out.2
  /\ creds (client out.2) = ("UserA", "pass", "UserA")
  /\ tokens (client out.2) = ∅.
Proof.
  intros w out.
  assert (runOp 5 (OpLogin "UserA" "pass") w = Done out.1 out.2) as Hrun
    by (apply ran; vm_compute; reflexivity).
  split; [exact Hrun|].
  destruct (login_state_follows_logins 5 (OpLogin "UserA" "pass") w _ _ Hrun)
    as (_ & Hlogin).
  destruct (Hlogin "UserA" "pass"
              {| Result := "Success"; LgUserID := 1; LgName := "UserA"; Reason := "" |}
              eq_refl) as (_ & Hc & Ht).
  - vm_compute. reflexivity.
  - split; [exact Hc|exact Ht].
Defined.

(** ** C6 *)

Lemma GetToken_contract_witness :
  let w := Sim.start Sim.loggedIn (Sim.deadServer false) in
  let w0 := Sim.start Sim.newClient Sim.okServer in
  let out := Sim.outcome w0 ("", None) (GetToken 2 "csrf" w0) in
  tokens (client w) !! "csrf" = Some "T0"
  /\ GetToken 0 "csrf" w = Done ("T0", None) w
  /\ default "" (tokens (client w0) !! "csrf") = ""
  /\ GetToken 2 "csrf" w0 = Done out.1 out.2
  /\ exists resp err w1, Post 2 (tokenRequest "csrf") w0 = Done (resp, err) w1.
Proof.
  intros w w0 out.
  assert (tokens (client w) !! "csrf" = Some "T0") as Hc by (vm_compute; reflexivity).
  assert (default "" (tokens (client w0) !! "csrf") = "") as Hun by (vm_compute; reflexivity).
  assert (GetToken 2 "csrf" w0 = Done out.1 out.2) as Hrun
    by (apply ran; vm_compute; reflexivity).
  split; [exact Hc|]. split.
  { destruct (GetToken_contract 0 "csrf" w) as (Hcached & _).
    apply Hcached; [exact Hc|discriminate]. }
  split; [exact Hun|]. split; [exact Hrun|].
  destruct (GetToken_contract 2 "csrf" w0) as (_ & Hfetch & _).
  destruct (Hfetch Hun) as (Hback & _).
  destruct (Hback _ _ Hrun) as (resp & err & w1 & req & res & rest & Hpost & _).
  exists resp, err, w1. exact Hpost.
Defined.

(** ** C8 *)

Lemma post_body_wins_witness :
  let c := Sim.presetClient in
  let p := PMapString {[ "action" := "edit" ]} in
  let np := Sim.fromOk emptyParams (normalizeParams p) in
  let req := Sim.fromOk Sim.noRequest (buildRequest c MethodPost (injectAssert c noOptions np)) in
  UQuery (endpoint c) !! "action" = Some ["parse"]
  /\ normalizeParams p = Ok np
  /\ buildRequest c MethodPost (injectAssert c noOptions np) = Ok req
  /\ queryValues req "action" = []
  /\ bodyValues req "action" = ["edit"].
Proof.
  intros c p np req.
  assert (normalizeParams p = Ok np) as Hnp by (vm_compute; reflexivity).
  assert (buildRequest c MethodPost (injectAssert c noOptions np) = Ok req) as Hreq
    by (vm_compute; reflexivity).
  assert (is_Some (Values (injectAssert c noOptions np) !! "action")) as Hk
    by (exists ["edit"]; vm_compute; reflexivity).
  split; [vm_compute; reflexivity|]. split; [exact Hnp|]. split; [exact Hreq|].
  destruct (post_body_wins_over_preset_query c noOptions p np req "action" Hnp Hreq Hk)
    as (Hq & Hb).
  split; [exact Hq|]. rewrite Hb. vm_compute. reflexivity.
Defined.

(** ** C9 *)

(** C9, counterexample.  A client logged in as UserA posts a query whose
    caller supplies assertuser as the empty text: the field is present,
    with that value, after normalization, and the request that is sent
    asserts UserA in its place. *)
Lemma keep_login_overwrites_empty_assertion :
  let w := Sim.start Sim.loggedIn Sim.okServer in
  let p := PMapString {[ "action" := "query"; "assertuser" := "" ]} in
  let np := Sim.fromOk emptyParams (normalizeParams p) in
  let out := Sim.outcome w (None, None) (Post 5 p w) in
  keepLogin (client w) = true
  /\ loggedInUser (client w) = "UserA"
  /\ normalizeParams p = Ok np
  /\ Values np !! "assertuser" = Some [""]
  /\ Values (injectAssert (client w) noOptions np) !! "assertuser" = Some ["UserA"]
  /\ Post 5 p w = Done out.1 out.2
  /\ Sim.fieldsSeen "assertuser" (history out.2) = ["UserA"].
Proof.
  split; [vm_compute; reflexivity|]. split; [vm_compute; reflexivity|].
  split; [vm_compute; reflexivity|]. split; [vm_compute; reflexivity|].
  split; [vm_compute; reflexivity|].
  split; [apply ran|]; vm_compute; reflexivity.
Qed.

Lemma keep_login_witness :
  let w := Sim.start Sim.loggedIn Sim.okServer in
  let np := Sim.fromOk emptyParams (normalizeParams Sim.queryArgs) in
  normalizeParams Sim.queryArgs = Ok np
  /\ keepLogin (client w) = true
  /\ loggedInUser (client w) = "UserA"
  /\ Values (injectAssert (client w) noOptions np) !! "assertuser" = Some ["UserA"].
Proof.
  intros w np.
  assert (normalizeParams Sim.queryArgs = Ok np) as Hnp by (vm_compute; reflexivity).
  assert (keepLogin (client w) = true) as Hkeep by (vm_compute; reflexivity).
  assert (loggedInUser (client w) ≠ "") as Huser by (vm_compute; discriminate).
  split; [exact Hnp|]. split; [exact Hkeep|]. split; [vm_compute; reflexivity|].
  destruct (keep_login_injects_assertion 1 MethodPost Sim.queryArgs w np Hnp Hkeep Huser)
    as (_ & Hinject & _).
  apply Hinject.
  - vm_compute. intros [Hl|(Hq & Hm & _)]; discriminate.
  - vm_compute. reflexivity.
Defined.

End Runs.

(** * Further runs *)

Section MoreRuns.
#[local] Existing Instance Sim.wire.
#[local] Existing Instance Sim.codec.
#[local] Existing Instance Sim.network.

(** ** params.go *)

Lemma map_encoding_witness :
  let m : gmap string anyval :=
    {[ "title" := VString "Sandbox"; "file" := VBytes "data"; "minor" := VBool true ]} in
  let enc := Sim.fromOk emptyParams (encodeParams (PMapAny m)) in
  Values (addAll (reverse (map_to_list m))) = Values enc
  /\ Files (addAll (reverse (map_to_list m))) ≡ₚ Files enc.
Proof.
  intros m enc.
  destruct (map_encoding_is_entrywise m (reverse (map_to_list m)) enc) as (Hv & Hf & _).
  - apply reverse_Permutation.
  - reflexivity.
  - split; [exact Hv|exact Hf].
Defined.

Lemma value_lists_witness :
  let v : url_Values := {[ "titles" := ["Main Page"; "Sandbox"]; "prop" := [] ]} in
  let enc := Sim.fromOk emptyParams (encodeParams (PValues v)) in
  Values enc !! "titles" = Some ["Main Page|Sandbox"] /\ Values enc !! "prop" = None.
Proof.
  intros v enc.
  destruct (value_lists_are_joined (PValues v) v enc) as (_ & Hk).
  - left. reflexivity.
  - reflexivity.
  - split; [rewrite (Hk "titles")|rewrite (Hk "prop")]; vm_compute; reflexivity.
Defined.

Lemma normalizeParams_idempotent_witness :
  let np := Sim.fromOk emptyParams (normalizeParams Sim.queryArgs) in
  normalizeParams (PValues (Values np)) = Ok {| Values := Values np; Files := [] |}.
Proof.
  intros np. apply (normalizeParams_idempotent Sim.queryArgs np).
  vm_compute. reflexivity.
Defined.

Lemma normalized_fields_witness :
  let np := Sim.fromOk emptyParams (normalizeParams Sim.queryArgs) in
  singleValued (Values np)
  /\ exists x, Values np !! "format" = Some [x] /\ x ≠ "".
Proof.
  intros np.
  destruct (normalized_fields_invariant Sim.queryArgs np) as (Hsv & Hdef).
  - vm_compute. reflexivity.
  - split; [exact Hsv|]. apply (Hdef "format" "json"). reflexivity.
Defined.

(** ** client.go *)

Lemma NewClient_bounds_witness :
  match NewClient (Ok (Sim.endpointURL ∅)) "http://wiki.test/api.php"
                  [Some (WithTokenRetry 0); None; Some (WithUserAgent "");
                   Some (WithReloginRetry (-1)); Some (WithKeepLogin false)] with
  | Ok c => wellFormed c
  | Err _ => False
  end.
Proof.
  pose proof (NewClient_validates_and_bounds
                (Ok (Sim.endpointURL ∅)) "http://wiki.test/api.php"
                [Some (WithTokenRetry 0); None; Some (WithUserAgent "");
                 Some (WithReloginRetry (-1)); Some (WithKeepLogin false)]) as Hnew.
  destruct (NewClient _ _ _) as [c|e] eqn:Hc.
  - apply Hnew. repeat constructor.
  - vm_compute in Hc. discriminate Hc.
Defined.

Lemma doOnce_results_witness :
  let w := Sim.start Sim.newClient Sim.okServer in
  let np := Sim.fromOk emptyParams (normalizeParams Sim.queryArgs) in
  let o := Sim.outcome w (None, None) (doOnce MethodPost np w) in
  doOnce MethodPost np w = Done o.1 o.2
  /\ client o.2 = client w /\ heap o.2 = heap w.
Proof.
  intros w np o.
  assert (Sim.returned (doOnce MethodPost np w) = true) as R by (vm_compute; reflexivity).
  pose proof (ran w (None, None) _ R) as Hrun.
  split; [exact Hrun|].
  destruct (doOnce_results MethodPost np w o.1 o.2 Hrun) as (Hc & Hh & _).
  split; [exact Hc|exact Hh].
Defined.

(** ** The engine *)

Lemma Relogin_without_credentials_witness :
  let w := Sim.start Sim.newClient Sim.okServer in
  exists w',
    Relogin 0 w = Done (Some (Errorf "relogin requested but no stored credentials")) w'
    /\ client w' = client w /\ heap w' = heap w /\ server w' = server w
    /\ requestsOf (history w') = requestsOf (history w).
Proof.
  intros w. apply (Relogin_without_credentials 0 w). left. reflexivity.
Defined.

Lemma do_returns_first_outcome_witness :
  let w := Sim.start Sim.loggedIn Sim.okServer in
  let np := Sim.fromOk emptyParams (normalizeParams Sim.queryArgs) in
  let sent := injectAssert (client w) noOptions np in
  let o := Sim.outcome w (None, None) (doOnce MethodPost sent w) in
  do 1 MethodPost Sim.queryArgs noOptions w = Done o.1 o.2.
Proof.
  intros w np sent o.
  assert (Sim.returned (doOnce MethodPost sent w) = true) as R by (vm_compute; reflexivity).
  pose proof (ran w (None, None) _ R) as Hrun.
  apply (do_returns_first_outcome 0 MethodPost Sim.queryArgs noOptions w np o.1 o.2).
  - vm_compute. reflexivity.
  - vm_compute. discriminate.
  - exact Hrun.
  - vm_compute. reflexivity.
Defined.

Lemma unsendable_request_witness :
  let w := Sim.start Sim.loggedIn Sim.okServer in
  do 1 MethodGet (POther "chan int") noOptions w
  = Done (None, Some (Errorf "unsupported params type: chan int")) w.
Proof.
  intros w.
  apply (unsendable_request_changes_nothing 0 MethodGet (POther "chan int") noOptions w).
  left. reflexivity.
Defined.

Lemma transport_failure_witness :
  let w := Sim.start Sim.loggedIn (Sim.deadServer false) in
  let np := Sim.fromOk emptyParams (normalizeParams Sim.queryArgs) in
  let req := Sim.fromOk Sim.noRequest
               (buildRequest (client w) MethodGet (injectAssert (client w) noOptions np)) in
  let s := (serve (server w) req).1 in
  do 1 MethodGet Sim.queryArgs noOptions w
  = Done (None, Some (TransportError false "connection refused"))
         {| client := client w; heap := heap w; server := s;
            history := (history w ++ [EvHttp req (NetErr false "connection refused")])%list |}.
Proof.
  intros w np req s.
  apply (transport_failure_is_not_retried 0 MethodGet Sim.queryArgs noOptions w np req s).
  - vm_compute. reflexivity.
  - vm_compute. discriminate.
  - reflexivity.
  - reflexivity.
Defined.

Lemma no_budget_witness :
  let w := Sim.start Sim.loggedIn (Sim.droppedSessionServer "UserA" "UserA") in
  let opt := {| skipAssert := false; skipRelogin := true |} in
  let np := Sim.fromOk emptyParams (normalizeParams Sim.queryArgs) in
  exists out w1,
    doOnce MethodPost (injectAssert (client w) opt np) w = Done out w1
    /\ do 1 MethodPost Sim.queryArgs opt w
       = Done (out.1, match assertionFailure out with
                      | Some e => Some e
                      | None => out.2
                      end) w1.
Proof.
  intros w opt np.
  apply (no_budget_no_relogin 0 MethodPost Sim.queryArgs opt w np).
  - vm_compute. reflexivity.
  - reflexivity.
Defined.

Lemma failed_relogin_witness :
  let w := Sim.start Sim.loggedIn SimMore.expiredPassword in
  let np := Sim.fromOk emptyParams (normalizeParams Sim.queryArgs) in
  let sent := injectAssert (client w) noOptions np in
  let o1 := Sim.outcome w (None, None) (doOnce MethodPost sent w) in
  let orig := default (Errorf "") (assertionFailure o1.1) in
  let o2 := Sim.outcome w None (Relogin 4 o1.2) in
  let e2 := Errorf "login failed: Failed (wrong password)" in
  do 5 MethodPost Sim.queryArgs noOptions w = Done (o1.1.1, Some (Joined orig e2)) o2.2
  /\ exists a, IsMediaWikiApiError (Joined orig e2) = Some a
               /\ IsMediaWikiApiError orig = Some a
               /\ isAssertUserFailedCode (ECode a) = true.
Proof.
  intros w np sent o1 orig o2 e2.
  assert (Sim.returned (doOnce MethodPost sent w) = true) as R1 by (vm_compute; reflexivity).
  pose proof (ran w (None, None) _ R1) as H1.
  assert (assertionFailure o1.1 = Some orig) as Horig by (vm_compute; reflexivity).
  assert (Sim.returned (Relogin 4 o1.2) = true) as R2 by (vm_compute; reflexivity).
  pose proof (ran w None _ R2) as H2.
  assert (o2.1 = Some e2) as H2e by (vm_compute; reflexivity).
  change (Relogin 4 o1.2 = Done o2.1 o2.2) in H2. rewrite H2e in H2.
  apply (failed_relogin_keeps_the_assertion_error 4 MethodPost Sim.queryArgs noOptions
           w np o1.1 o1.2 orig e2 o2.2).
  - vm_compute. reflexivity.
  - vm_compute. reflexivity.
  - exact H1.
  - exact Horig.
  - exact H2.
Defined.

Lemma operations_preserve_witness :
  let w := Sim.start Sim.newClient (Sim.droppedSessionServer "UserA" "UserA") in
  let o := Sim.outcome w RNone (runOp 5 (OpLogin "UserA" "pass") w) in
  runOp 5 (OpLogin "UserA" "pass") w = Done o.1 o.2
  /\ Preserved w o.2.
Proof.
  intros w o.
  assert (Sim.returned (runOp 5 (OpLogin "UserA" "pass") w) = true) as R
    by (vm_compute; reflexivity).
  pose proof (ran w RNone _ R) as Hrun.
  split; [exact Hrun|].
  exact (proj1 (operations_preserve 5 (OpLogin "UserA" "pass") w o.1 o.2 Hrun)).
Defined.

Lemma operations_return_witness :
  let w := Sim.start Sim.newClient Sim.badTokenServer in
  exists res w', runOp 1 OpLogout w = Done res w'.
Proof.
  intros w. apply (operations_return_without_credentials 0 OpLogout w).
  split; [reflexivity|vm_compute; discriminate].
Defined.

Lemma Login_fetches_fresh_token_witness :
  let w := Sim.start SimMore.staleLogin (Sim.droppedSessionServer "UserA" "UserA") in
  let o := Sim.outcome w (None, None) (Login 5 "UserA" "pass" w) in
  Login 5 "UserA" "pass" w = Done o.1 o.2
  /\ exists req, firstRequestAfter (history w) o.2 req /\ tokenFetch TokenLogin req.
Proof.
  intros w o.
  assert (Sim.returned (Login 5 "UserA" "pass" w) = true) as R by (vm_compute; reflexivity).
  pose proof (ran w (None, None) _ R) as Hrun.
  split; [exact Hrun|].
  apply (Login_fetches_fresh_token 5 "UserA" "pass" w o.1 o.2); [|exact Hrun].
  vm_compute. reflexivity.
Defined.

Lemma PostWithToken_cached_token_witness :
  let w := Sim.startWith Sim.loggedIn Sim.okServer Sim.editArgs in
  let np := Sim.fromOk emptyParams
              (normalizeParams (PMapAny (<["token" := VString "T0"]> Sim.editArgs))) in
  let req := Sim.fromOk Sim.noRequest
               (buildRequest (client w) MethodPost (injectAssert (client w) noOptions np)) in
  let o := Sim.outcome w (None, None) (PostWithToken 5 TokenCSRF (Some 1%positive) None w) in
  PostWithToken 5 TokenCSRF (Some 1%positive) None w = Done o.1 o.2
  /\ firstRequestAfter (history w) o.2 req
  /\ formGet req "token" = "T0".
Proof.
  intros w np req o.
  assert (Sim.returned (PostWithToken 5 TokenCSRF (Some 1%positive) None w) = true) as R
    by (vm_compute; reflexivity).
  pose proof (ran w (None, None) _ R) as Hrun.
  split; [exact Hrun|].
  destruct (PostWithToken_sends_cached_token 5 TokenCSRF (Some 1%positive) None w "T0"
              np req o.1 o.2) as (Hfirst & _ & Hform).
  - vm_compute. reflexivity.
  - discriminate.
  - reflexivity.
  - vm_compute. reflexivity.
  - vm_compute. discriminate.
  - vm_compute. reflexivity.
  - vm_compute. reflexivity.
  - exact Hrun.
  - split; [exact Hfirst|exact Hform].
Defined.

Lemma PostWithToken_bypass_witness :
  let w := Sim.startWith Sim.loggedIn Sim.okServer Sim.editArgs in
  let opt := Some {| TokenName := ""; Retry := 0; NoCache := true |} in
  let o := Sim.outcome w (None, None) (PostWithToken 5 TokenCSRF (Some 1%positive) opt w) in
  PostWithToken 5 TokenCSRF (Some 1%positive) opt w = Done o.1 o.2
  /\ exists req, firstRequestAfter (history w) o.2 req /\ tokenFetch TokenCSRF req.
Proof.
  intros w opt o.
  assert (Sim.returned (PostWithToken 5 TokenCSRF (Some 1%positive) opt w) = true) as R
    by (vm_compute; reflexivity).
  pose proof (ran w (None, None) _ R) as Hrun.
  split; [exact Hrun|].
  apply (PostWithToken_bypass_fetches_first 5 TokenCSRF (Some 1%positive) opt w o.1 o.2);
    [reflexivity|vm_compute; reflexivity|exact Hrun].
Defined.

Lemma exhausted_retries_witness :
  let w := Sim.startWith Sim.newClient SimMore.alwaysBadToken Sim.editArgs in
  let o := Sim.outcome w (None, None) (PostWithToken 5 TokenCSRF (Some 1%positive) None w) in
  PostWithToken 5 TokenCSRF (Some 1%positive) None w = Done o.1 o.2
  /\ exists a e,
       last (attemptsOf (history o.2)) = Some a /\ tokenFailure a = Some e
       /\ o.1 = (None, Some (Wrapf "token retry exhausted" e))
       /\ isTokenError (Wrapf "token retry exhausted" e) = true.
Proof.
  intros w o.
  assert (Sim.returned (PostWithToken 5 TokenCSRF (Some 1%positive) None w) = true) as R
    by (vm_compute; reflexivity).
  pose proof (ran w (None, None) _ R) as Hrun.
  split; [exact Hrun|].
  apply (exhausted_retries_keep_the_token_error 5 TokenCSRF (Some 1%positive) None w
           o.1 o.2 (history o.2)).
  - exact Hrun.
  - reflexivity.
  - vm_compute. reflexivity.
  - vm_compute. reflexivity.
  - apply (@bool_decide_unpack _ (Forall_dec (fun a => is_Some (tokenFailure a)) _)).
    vm_compute. exact I.
Defined.

(** ** Wikis *)

Lemma droppedSession_sound :
  soundWiki (SimMore.behavesAs (Sim.droppedSessionServer "UserA" "UserA")).
Proof.
  intros s req Hs. split; [exact Hs|].
  unfold SimMore.behavesAs in Hs. simpl. rewrite Hs. clear Hs.
  unfold handshake, Sim.droppedSessionServer, Sim.isTokenFetch, Sim.isAction.
  intros [Ha|(Ha & Hm & Ht)].
  - rewrite Ha. simpl. destruct (bool_decide _); by constructor.
  - rewrite Ha, Hm, Ht. simpl. by constructor.
Defined.

Lemma sound_wiki_witness :
  let w := Sim.start Sim.loggedIn (Sim.droppedSessionServer "UserA" "UserA") in
  exists res w', runOp 5 (OpPost Sim.queryArgs) w = Done res w'.
Proof.
  intros w.
  apply (operations_return_on_sound_wikis
           (SimMore.behavesAs (Sim.droppedSessionServer "UserA" "UserA"))
           droppedSession_sound 3 (OpPost Sim.queryArgs) w).
  - reflexivity.
  - vm_compute. discriminate.
Defined.

Lemma rejectAll_rejecting : rejectingWiki (SimMore.behavesAs SimMore.rejectAll).
Proof.
  intros s req Hs. split; [exact Hs|].
  unfold SimMore.behavesAs in Hs. simpl. rewrite Hs.
  eexists. split; reflexivity.
Defined.

Lemma rejected_call_witness :
  let w := Sim.start Sim.loggedIn SimMore.rejectAll in
  do 7 MethodPost Sim.queryArgs noOptions w = OutOfFuel.
Proof.
  intros w.
  apply (rejected_call_never_returns (SimMore.behavesAs SimMore.rejectAll) rejectAll_rejecting
           MethodPost Sim.queryArgs noOptions w
           (Sim.fromOk emptyParams (normalizeParams Sim.queryArgs))).
  - split; [reflexivity|]. split; [discriminate|]. split; [discriminate|].
    split; vm_compute; reflexivity.
  - reflexivity.
  - vm_compute. reflexivity.
  - right. vm_compute. reflexivity.
Defined.

(** ** After a logout and a login *)

Lemma Logout_ends_the_session_witness :
  let w := Sim.start Sim.loggedIn Sim.okServer in
  let o := Sim.outcome w None (Logout 5 w) in
  Logout 5 w = Done None o.2
  /\ tokens (client o.2) = ∅
  /\ noCreds o.2.
Proof.
  intros w o.
  assert (Sim.returned (Logout 5 w) = true) as R by (vm_compute; reflexivity).
  pose proof (ran w None _ R) as Hrun.
  assert (o.1 = None) as Hnone by (vm_compute; reflexivity).
  change (Logout 5 w = Done o.1 o.2) in Hrun. rewrite Hnone in Hrun.
  split; [exact Hrun|].
  destruct (Logout_ends_the_session 5 w o.2 Hrun) as (_ & _ & Htok & Hno).
  split; [exact Htok|]. apply Hno. vm_compute. discriminate.
Defined.

Lemma Login_sets_the_asserted_name_witness :
  let w := Sim.start Sim.newClient (Sim.droppedSessionServer "UserA" "UserA") in
  let lr := {| Result := "Success"; LgUserID := 1; LgName := "UserA"; Reason := "" |} in
  let np := Sim.fromOk emptyParams (normalizeParams Sim.queryArgs) in
  let o := Sim.outcome w (None, None) (Login 5 "usera@bot" "pass" w) in
  Login 5 "usera@bot" "pass" w = Done (Some lr, None) o.2
  /\ injectAssert (client o.2) noOptions np = setValue np "assertuser" "UserA".
Proof.
  intros w lr np o.
  assert (Sim.returned (Login 5 "usera@bot" "pass" w) = true) as R
    by (vm_compute; reflexivity).
  pose proof (ran w (None, None) _ R) as Hrun.
  assert (o.1 = (Some lr, None)) as Hres by (vm_compute; reflexivity).
  change (Login 5 "usera@bot" "pass" w = Done o.1 o.2) in Hrun. rewrite Hres in Hrun.
  split; [exact Hrun|].
  apply (Login_sets_the_asserted_name 5 "usera@bot" "pass" w lr o.2 np Hrun).
  - reflexivity.
  - intros [Ha|(Ha & Hm & _)]; vm_compute in Ha; try discriminate Ha.
    vm_compute in Hm. discriminate Hm.
  - vm_compute. reflexivity.
Defined.

(** ** The demo *)

Lemma loadDotEnv_witness :
  let r := loadDotEnv SimMore.trimSpace SimMore.dotEnvFile SimMore.processEnv in
  Getenv r.1 "MW_PASSWORD" = "fromenv"
  /\ r.1 !! "MW_USERNAME" = Some "bot"
  /\ loadDotEnv SimMore.trimSpace SimMore.dotEnvFile r.1 = (r.1, r.2).
Proof.
  intros r.
  destruct (loadDotEnv_only_adds SimMore.trimSpace SimMore.dotEnvFile SimMore.processEnv
              r.1 r.2) as (_ & Hkeep & _ & _ & Hagain).
  - vm_compute. reflexivity.
  - split; [apply Hkeep; vm_compute; reflexivity|].
    split; [vm_compute; reflexivity|exact Hagain].
Defined.

Lemma environment_overrides_witness :
  demoConfig SimMore.trimSpace SimMore.dotEnvFile SimMore.fullEnv
  = readConfigFromEnv SimMore.trimSpace SimMore.fullEnv.
Proof.
  apply (environment_overrides_dotenv SimMore.trimSpace SimMore.dotEnvFile SimMore.fullEnv).
  intros key Hkey.
  repeat (apply elem_of_cons in Hkey as [->|Hkey]; [eexists; vm_compute; reflexivity|]).
  by apply elem_of_nil in Hkey.
Defined.

End MoreRuns.
